(** * swimple: the request handler of a service-worker response cache

    A shallow embedding of the helpers (src/src/helpers.js), the header
    names (src/src/headers.js) and the handler built by createHandleRequest
    (index.js, here src/unnamed/part_003), over the in-memory Cache API of
    the test suite (MockCache.js, here src/unnamed/part_000), followed by
    the properties of the freshness predicates, the three caching
    strategies, invalidation and periodic cleanup, and by further
    properties of the helpers, of the paths of the handler that lead to no
    strategy, of createHandleRequest, and of the handler as a whole
    (where its outcome comes from, what it leaves alone).

    Conventions of the embedding.
    - The numbers that the code uses as seconds or milliseconds are
      integers ([Z]); a [NaN] or [null] result is [None].
    - Strings are [string]; [toLowerCase] and the white space skipped by
      [parseInt] are the ASCII ones.
    - A [Headers] object is the list of the [key, value] pairs that its
      iterator yields.
    - The platform's [URL] class is a parameter ([URLPlatform]); a small
      parser ([SimpleURL]) instantiates it to run examples.
    - [Date.now()] reads the field [clock] of the world; awaiting the
      network advances it by the latency of the answer, cache operations
      take no time.
    - A cache object is identified with its name in the CacheStorage; an
      operation on a cache that the storage no longer holds shows nothing.
    - The network function is [customFetch]: what it answers to its n-th
      call, a response or a thrown error.
    - An [async] body runs to its end within the turn that starts it.  Work
      that the code starts and does not await (the periodic cleanup, the
      background revalidation) runs up to its first await in the turn; the
      rest is queued as a [Job] and run by [runJob], which drops failures.
    - The options of createHandleRequest have the types of the typedef
      (src/src/typedefs.js); a property that is not set is [None].
    - Logging has no effect on the results and is left out. *)

From Stdlib Require Import ZArith String Ascii DecimalString DecimalZ.
From stdpp Require Import gmap strings list fin_maps.

Open Scope string_scope.
Open Scope Z_scope.

(** ** Strings *)

Module Str.

Definition lowerChar (c : ascii) : ascii :=
  let n := nat_of_ascii c in
  if ((65 <=? n) && (n <=? 90))%nat then ascii_of_nat (n + 32) else c.

(** [String.prototype.toLowerCase], on ASCII. *)
Fixpoint toLowerCase (s : string) : string :=
  match s with
  | EmptyString => EmptyString
  | String c r => String (lowerChar c) (toLowerCase r)
  end.

(** The rest of [s] after the prefix [p], when [p] is one. *)
Fixpoint dropPrefix (p s : string) : option string :=
  match p, s with
  | EmptyString, _ => Some s
  | String a p', String b s' => if Ascii.eqb a b then dropPrefix p' s' else None
  | String _ _, EmptyString => None
  end.

(** [s.startsWith(p)]. *)
Definition startsWith (s p : string) : bool :=
  match dropPrefix p s with
  | Some _ => true
  | None => false
  end.

(** [s.includes(p)]: [p] occurs somewhere in [s]. *)
Fixpoint includes (s p : string) : bool :=
  startsWith s p ||
  match s with
  | EmptyString => false
  | String _ r => includes r p
  end.

(** [s.lastIndexOf(c)] for a one-character [c]; [-1] when absent.
    [i] is the index of the first character of [s]. *)
Fixpoint lastIndexFrom (c : ascii) (i : Z) (s : string) : Z :=
  match s with
  | EmptyString => -1
  | String d r =>
      let j := lastIndexFrom c (i + 1) r in
      if 0 <=? j then j else if Ascii.eqb d c then i else -1
  end.

Definition lastIndexOf (s : string) (c : ascii) : Z := lastIndexFrom c 0 s.

(** [s.substring(0, n)] for [0 <= n]. *)
Definition substring0 (n : Z) (s : string) : string :=
  String.substring 0 (Z.to_nat n) s.

Definition consHead (c : ascii) (l : list string) : list string :=
  match l with
  | [] => [String c EmptyString]
  | h :: t => String c h :: t
  end.

(** [s.split(sep)] for a non-empty separator: the pieces between the
    occurrences of [sep], found left to right.  [n] bounds the number of
    steps; [split] gives it the length of [s]. *)
Fixpoint splitFuel (n : nat) (sep s : string) : list string :=
  match n, s with
  | S n', String c r =>
      match dropPrefix sep s with
      | Some r' => EmptyString :: splitFuel n' sep r'
      | None => consHead c (splitFuel n' sep r)
      end
  | _, _ => [s]
  end.

Definition split (s sep : string) : list string :=
  splitFuel (String.length s) sep s.

(** [l.join(sep)]. *)
Fixpoint join (sep : string) (l : list string) : string :=
  match l with
  | [] => EmptyString
  | [x] => x
  | x :: t => x +:+ sep +:+ join sep t
  end.

Definition isWhite (c : ascii) : bool :=
  let n := nat_of_ascii c in
  ((n =? 32) || ((9 <=? n) && (n <=? 13)))%nat.

Fixpoint trimStart (s : string) : string :=
  match s with
  | EmptyString => EmptyString
  | String c r => if isWhite c then trimStart r else s
  end.

Definition digitOf (c : ascii) : option (Decimal.uint -> Decimal.uint) :=
  (match c with
   | "0" => Some Decimal.D0 | "1" => Some Decimal.D1 | "2" => Some Decimal.D2
   | "3" => Some Decimal.D3 | "4" => Some Decimal.D4 | "5" => Some Decimal.D5
   | "6" => Some Decimal.D6 | "7" => Some Decimal.D7 | "8" => Some Decimal.D8
   | "9" => Some Decimal.D9 | _ => None
   end)%char.

(** The longest prefix of decimal digits, as a numeral. *)
Fixpoint takeDigits (s : string) : Decimal.uint :=
  match s with
  | EmptyString => Decimal.Nil
  | String c r =>
      match digitOf c with
      | Some d => d (takeDigits r)
      | None => Decimal.Nil
      end
  end.

(** [parseInt(s, 10)]: leading white space, an optional sign, then the
    longest run of digits; [None] stands for [NaN]. *)
Definition parseInt (s : string) : option Z :=
  let t := trimStart s in
  let '(neg, u) :=
    match t with
    | String "-" r => (true, r)
    | String "+" r => (false, r)
    | _ => (false, t)
    end in
  match takeDigits u with
  | Decimal.Nil => None
  | d => Some (if neg then - Z.of_uint d else Z.of_uint d)
  end.

(** [n.toString()] of an integer. *)
Definition toString (n : Z) : string := NilZero.string_of_int (Z.to_int n).

End Str.

(** ** Headers, requests and responses *)

Definition Headers : Type := list (string * string).

(** src/src/headers.js *)
Definition CACHE_STRATEGY_HEADER := "X-SW-Cache-Strategy".
Definition CACHE_TTL_HEADER := "X-SW-Cache-TTL-Seconds".
Definition CACHE_STALE_TTL_HEADER := "X-SW-Cache-Stale-TTL-Seconds".
Definition CACHE_INVALIDATE_HEADER := "X-SW-Cache-Invalidate".
Definition CACHE_CLEAR_HEADER := "X-SW-Cache-Clear".
Definition CACHE_TIMESTAMP_HEADER := "x-sw-cache-timestamp".

Record Request := mkRequest {
  url : string;
  method : string;
  headers : Headers
}.

Record Response := mkResponse {
  status : Z;
  statusText : string;
  rheaders : Headers;
  body : string
}.

(** [response.ok]: the status is in the range 200-299. *)
Definition ok (r : Response) : bool := (200 <=? status r) && (status r <=? 299).

(** [headers.set(name, value)] on a copy: every entry of that name (compared
    without case) is replaced by one entry. *)
Definition headersSet (name value : string) (h : Headers) : Headers :=
  (List.filter
     (fun kv => negb (String.eqb (Str.toLowerCase (fst kv)) (Str.toLowerCase name)))
     h ++ [(Str.toLowerCase name, value)])%list.

(** ** src/src/helpers.js: header access *)

Fixpoint getHeader (h : Headers) (name : string) : option string :=
  match h with
  | [] => None
  | (key, value) :: rest =>
      if String.eqb (Str.toLowerCase key) (Str.toLowerCase name)
      then Some value
      else getHeader rest name
  end.

Fixpoint getAllHeaders (h : Headers) (name : string) : list string :=
  match h with
  | [] => []
  | (key, value) :: rest =>
      if String.eqb (Str.toLowerCase key) (Str.toLowerCase name)
      then (Str.split value ", " ++ getAllHeaders rest name)%list
      else getAllHeaders rest name
  end.

(** ** src/src/helpers.js: the freshness calculator.  [now] is [Date.now()]. *)

Definition getCacheTimestamp (response : Response) : option Z :=
  match getHeader (rheaders response) CACHE_TIMESTAMP_HEADER with
  | None => None
  | Some timestampHeader =>
      if String.eqb timestampHeader "" then None
      else Str.parseInt timestampHeader
  end.

Definition isFresh (now : Z) (response : Response) (ttl : Z) : bool :=
  match getCacheTimestamp response with
  | None => false
  | Some timestamp =>
      let age := now - timestamp in
      age <? ttl * 1000
  end.

Definition isStale (now : Z) (response : Response) (ttl : Z)
    (staleTTL : option Z) : bool :=
  match staleTTL with
  | None => false
  | Some staleTTL =>
      match getCacheTimestamp response with
      | None => false
      | Some timestamp =>
          let age := now - timestamp in
          (ttl * 1000 <=? age) && (age <? staleTTL * 1000)
      end
  end.

Definition isOlderThanMaxAge (now : Z) (response : Response)
    (maxAgeSeconds : Z) : bool :=
  match getCacheTimestamp response with
  | None => false
  | Some timestamp =>
      let age := now - timestamp in
      maxAgeSeconds * 1000 <=? age
  end.

Definition addTimestamp (now : Z) (response : Response) : Response :=
  {| status := status response;
     statusText := statusText response;
     rheaders :=
       headersSet CACHE_TIMESTAMP_HEADER (Str.toString now) (rheaders response);
     body := body response |}.

(** ** The platform's URL class

    [newURL s] is [new URL(s)] and [newURLBase s base] is
    [new URL(s, base)]; [None] means the constructor throws a TypeError.
    Of a URL object the code reads [origin], [pathname] and [toString()]
    (here [href]). *)

Record URL := mkURL {
  origin : string;
  pathname : string;
  href : string
}.

Class URLPlatform := {
  newURL : string -> option URL;
  newURLBase : string -> string -> option URL
}.

(** A small URL parser, enough to run the handler on URLs of the shape
    scheme://authority/path?query#fragment and on path references. *)
Module SimpleURL.

Definition isSchemeChar (c : ascii) : bool :=
  let n := nat_of_ascii c in
  (((97 <=? n) && (n <=? 122)) || ((65 <=? n) && (n <=? 90))
   || ((48 <=? n) && (n <=? 57)) || (n =? 43) || (n =? 45) || (n =? 46))%nat.

Definition isAuthorityChar (c : ascii) : bool :=
  negb (Ascii.eqb c "/" || Ascii.eqb c "?" || Ascii.eqb c "#").

Definition isPathChar (c : ascii) : bool :=
  negb (Ascii.eqb c "?" || Ascii.eqb c "#").

(** The longest prefix of characters satisfying [p], and the rest. *)
Fixpoint span (p : ascii -> bool) (s : string) : string * string :=
  match s with
  | EmptyString => (EmptyString, EmptyString)
  | String c r =>
      if p c then let '(a, b) := span p r in (String c a, b)
      else (EmptyString, s)
  end.

Definition parse (s : string) : option (string * URL) :=
  let '(scheme, r) := span isSchemeChar s in
  if String.eqb scheme "" then None
  else
    match Str.dropPrefix "://" r with
    | None => None
    | Some r1 =>
        let '(authority, r2) := span isAuthorityChar r1 in
        if String.eqb authority "" then None
        else
          let '(path, r3) := span isPathChar r2 in
          let path' := if String.eqb path "" then "/" else path in
          let o := scheme +:+ "://" +:+ authority in
          Some (scheme,
                {| origin := o; pathname := path'; href := o +:+ path' +:+ r3 |})
    end.

Definition new1 (s : string) : option URL := snd <$> parse s.

(** References are resolved against the root of the base, which is what
    the handler needs: its bases are origins. *)
Definition new2 (s base : string) : option URL :=
  match parse s with
  | Some (_, u) => Some u
  | None =>
      match parse base with
      | None => None
      | Some (scheme, b) =>
          if Str.startsWith s "//" then new1 (scheme +:+ ":" +:+ s)
          else if Str.startsWith s "/" then new1 (origin b +:+ s)
          else new1 (origin b +:+ "/" +:+ s)
      end
  end.

Definition platform : URLPlatform :=
  {| newURL := new1; newURLBase := new2 |}.

End SimpleURL.

(** ** The world: cache storage, clock, network, pending work *)

Inductive JsError :=
| NetworkError (message : string)
| TypeError (message : string).

(** What the network function answers to one call: a response or a thrown
    error, and the time the call takes (milliseconds). *)
Record NetReply := mkNetReply {
  reply : Response + JsError;
  latency : Z
}.

(** Operations on the collaborators, in the order they are issued. *)
Inductive Event :=
| CachesOpen (name : string)
| CachesDelete (name : string)
| CacheMatch (name key : string)
| CachePut (name key : string) (response : Response)
| CacheDelete (name key : string) (ignoreSearch : bool)
| CacheKeys (name : string)
| Fetch (request : Request).

(** Work that was started and is not awaited by the turn that started it. *)
Inductive Job :=
| CleanupJob (name : string) (maxAgeSeconds : Z)
| RevalidateJob (name : string) (request : Request) (answer : Response + JsError).

(** [caches] is the CacheStorage: cache name to cache, a cache being a map
    from request URL to response (MockCache.js).  A cache object is
    identified with its name.  [fetchCounter] is the handler's closure
    variable.  [netCalls] counts the calls of the network function. *)
Record World := mkWorld {
  caches : gmap string (gmap string Response);
  clock : Z;
  fetchCounter : Z;
  netCalls : nat;
  events : list Event;
  jobs : list Job
}.

Definition setCaches (c : gmap string (gmap string Response)) (w : World) : World :=
  mkWorld c (clock w) (fetchCounter w) (netCalls w) (events w) (jobs w).

Definition setFetchCounter (n : Z) (w : World) : World :=
  mkWorld (caches w) (clock w) n (netCalls w) (events w) (jobs w).

Definition emit (e : Event) (w : World) : World :=
  mkWorld (caches w) (clock w) (fetchCounter w) (netCalls w)
    (events w ++ [e])%list (jobs w).

Definition enqueue (j : Job) (w : World) : World :=
  mkWorld (caches w) (clock w) (fetchCounter w) (netCalls w) (events w)
    (jobs w ++ [j])%list.

(** The network was called once more and [dt] milliseconds went by. *)
Definition called (dt : Z) (w : World) : World :=
  mkWorld (caches w) (clock w + dt) (fetchCounter w) (S (netCalls w))
    (events w) (jobs w).

(** The handler's configuration after the defaults of createHandleRequest
    are filled in.  [customFetch n request] is what the network function
    answers to its call number [n].  [selfOrigin] is
    [self.location.origin], when the global has one. *)
Record Config := mkConfig {
  cacheName : string;
  scope : list string;
  defaultStrategy : string;
  defaultTTLSeconds : Z;
  defaultStaleTTLSeconds : Z;
  maxCacheAgeSeconds : Z;
  inferInvalidation : bool;
  customFetch : nat -> Request -> NetReply;
  selfOrigin : option string
}.

(** ** A state and exception monad for the asynchronous code *)

Inductive Result (A : Type) :=
| Ok (a : A)
| Throw (e : JsError).
Arguments Ok {A} a.
Arguments Throw {A} e.

Definition M (A : Type) : Type := World -> Result A * World.

Definition ret {A} (a : A) : M A := fun w => (Ok a, w).

Definition throw {A} (e : JsError) : M A := fun w => (Throw e, w).

Definition bind {A B} (m : M A) (k : A -> M B) : M B :=
  fun w =>
    match m w with
    | (Ok a, w') => k a w'
    | (Throw e, w') => (Throw e, w')
    end.

(** [try { m } catch (e) { ... }] with the outcome handed to the caller. *)
Definition attempt {A} (m : M A) : M (A + JsError) :=
  fun w =>
    match m w with
    | (Ok a, w') => (Ok (inl a), w')
    | (Throw e, w') => (Ok (inr e), w')
    end.

Definition modify (f : World -> World) : M unit := fun w => (Ok tt, f w).

Definition dateNow : M Z := fun w => (Ok (clock w), w).

Notation "x <- m ;; k" := (bind m (fun x => k))
  (at level 100, m at next level, right associativity).
Notation "m ;;; k" := (bind m (fun _ => k))
  (at level 100, right associativity).

Definition liftResult {A} (r : Result A) : M A := fun w => (r, w).

Fixpoint forEach {A} (l : list A) (f : A -> M unit) : M unit :=
  match l with
  | [] => ret tt
  | x :: rest => f x ;;; forEach rest f
  end.

(** [l.map(f)] where [f] may throw: the first failure aborts the map. *)
Fixpoint mapOption {A B} (f : A -> option B) (l : list A) : option (list B) :=
  match l with
  | [] => Some []
  | x :: rest =>
      match f x with
      | None => None
      | Some y =>
          match mapOption f rest with
          | None => None
          | Some ys => Some (y :: ys)
          end
      end
  end.

Section Handler.

Context {platform : URLPlatform}.

(** *** The Cache API, after MockCache.js (src/unnamed/part_000) *)

Definition theCache (name : string) (w : World) : gmap string Response :=
  default ∅ (caches w !! name).

(** The entry of [key] in the cache [name], as [cache.match] sees it. *)
Definition entry (name key : string) (w : World) : option Response :=
  theCache name w !! key.

(** An operation on a cache object changes the storage only while the
    storage still holds that cache. *)
Definition updCache (name : string)
    (f : gmap string Response -> gmap string Response) (w : World) : World :=
  setCaches
    match caches w !! name with
    | Some c => <[name := f c]> (caches w)
    | None => caches w
    end
    w.

(** [caches.open(name)]: afterwards the storage holds a cache under
    [name], a new empty one if it held none. *)
Definition opened (name : string) (w : World) : World :=
  setCaches (<[name := theCache name w]> (caches w)) (emit (CachesOpen name) w).

Definition cachesOpen (name : string) : M unit := modify (opened name).

(** [caches.delete(name)] *)
Definition cachesDelete (name : string) : M bool :=
  fun w =>
    (Ok (bool_decide (is_Some (caches w !! name))),
     setCaches (delete name (caches w)) (emit (CachesDelete name) w)).

(** [cache.match(request)] *)
Definition cacheMatch (name key : string) : M (option Response) :=
  fun w => (Ok (entry name key w), emit (CacheMatch name key) w).

(** [cache.put(request, response)] *)
Definition cachePut (name key : string) (response : Response) : M unit :=
  modify (fun w =>
    updCache name (fun c => <[key := response]> c)
      (emit (CachePut name key response) w)).

(** [cache.keys()] *)
Definition cacheKeys (name : string) : M (list string) :=
  fun w => (Ok (fst <$> map_to_list (theCache name w)), emit (CacheKeys name) w).

(** The cached URL parses and its pathname is [p]. *)
Definition samePath (p cachedUrl : string) : bool :=
  match newURL cachedUrl with
  | Some cachedUrlObj => String.eqb (pathname cachedUrlObj) p
  | None => false
  end.

(** The loop of [delete] over the entries: those of pathname [p] go. *)
Definition dropPath (p : string) (c : gmap string Response) : gmap string Response :=
  filter (fun kv => samePath p (fst kv) = false) c.

Definition anyPath (p : string) (c : gmap string Response) : bool :=
  existsb (fun kv => samePath p (fst kv)) (map_to_list c).

(** The body of [cache.delete(request, { ignoreSearch })]: what it
    returns and the cache it leaves. *)
Definition deleteEntries (key : string) (ignoreSearch : bool)
    (c : gmap string Response) : bool * gmap string Response :=
  if negb ignoreSearch && bool_decide (is_Some (c !! key))
  then (true, delete key c)
  else
    match (if ignoreSearch then newURL key else None) with
    | Some requestUrlObj =>
        let requestPathname := pathname requestUrlObj in
        (anyPath requestPathname c, dropPath requestPathname c)
    | None =>
        if Str.startsWith key "/"
        then (anyPath key c, dropPath key c)
        else (false, c)
    end.

Definition cacheDelete (name key : string) (ignoreSearch : bool) : M bool :=
  fun w =>
    (Ok (fst (deleteEntries key ignoreSearch (theCache name w))),
     updCache name (fun c => snd (deleteEntries key ignoreSearch c))
       (emit (CacheDelete name key ignoreSearch) w)).

(** *** src/src/helpers.js: directives *)

Definition getInferredInvalidationPaths (url : string) : Result (list string) :=
  match newURL url with
  | None => Throw (TypeError "Invalid URL")
  | Some urlObj =>
      let path := pathname urlObj in
      let lastSlash := Str.lastIndexOf path "/" in
      if 0 <? lastSlash then
        let parentPath := Str.substring0 lastSlash path in
        if String.eqb parentPath "" then Ok [url]
        else
          match newURLBase parentPath (origin urlObj) with
          | None => Throw (TypeError "Invalid URL")
          | Some parentUrl => Ok [url; href parentUrl]
          end
      else Ok [url]
  end.

Definition strategies : list string :=
  ["cache-first"; "network-first"; "stale-while-revalidate"].

Definition getStrategy (h : Headers) (defaultStrategy : string) : string :=
  match getHeader h CACHE_STRATEGY_HEADER with
  | Some strategyHeader =>
      if negb (String.eqb strategyHeader "")
         && existsb (String.eqb strategyHeader) strategies
      then strategyHeader
      else defaultStrategy
  | None => defaultStrategy
  end.

Definition getTTL (h : Headers) (defaultTTL : Z) : option Z :=
  match getHeader h CACHE_TTL_HEADER with
  | None => if 0 <? defaultTTL then Some defaultTTL else None
  | Some ttlHeader =>
      match Str.parseInt ttlHeader with
      | None => None
      | Some ttl => if ttl <=? 0 then None else Some ttl
      end
  end.

Definition getStaleTTL (h : Headers) (defaultStaleTTL : Z) : option Z :=
  match getHeader h CACHE_STALE_TTL_HEADER with
  | None => if 0 <? defaultStaleTTL then Some defaultStaleTTL else None
  | Some staleTTLHeader =>
      match Str.parseInt staleTTLHeader with
      | None => None
      | Some staleTTL => if staleTTL <=? 0 then None else Some staleTTL
      end
  end.

Definition matchesScope (url : string) (scope : list string)
    (defaultTTLSeconds : Z) : Result bool :=
  match scope with
  | [] => Ok (0 <? defaultTTLSeconds)
  | _ =>
      match newURL url with
      | None => Throw (TypeError "Invalid URL")
      | Some urlObj => Ok (existsb (fun prefix => Str.startsWith (pathname urlObj) prefix) scope)
      end
  end.

(** *** src/src/helpers.js: invalidation, clearing, cleanup *)

Definition invalidateCache (cacheName : string) (urls : list string) : M unit :=
  cachesOpen cacheName ;;;
  forEach urls (fun url => cacheDelete cacheName url true ;;; ret tt).

Definition clearCache (cacheName : string) : M unit :=
  cachesDelete cacheName ;;; ret tt.

(** One round of the loop of cleanupOldCacheEntries. *)
Definition cleanupEntry (cacheName : string) (maxAgeSeconds : Z)
    (key : string) : M unit :=
  response <- cacheMatch cacheName key ;;
  now <- dateNow ;;
  match response with
  | Some r =>
      if isOlderThanMaxAge now r maxAgeSeconds
      then cacheDelete cacheName key false ;;; ret tt
      else ret tt
  | None => ret tt
  end.

(** The body of cleanupOldCacheEntries after the cache is opened. *)
Definition cleanupEntries (cacheName : string) (maxAgeSeconds : Z) : M unit :=
  keys <- cacheKeys cacheName ;;
  forEach keys (cleanupEntry cacheName maxAgeSeconds).

Definition cleanupOldCacheEntries (cacheName : string) (maxAgeSeconds : Z) : M unit :=
  cachesOpen cacheName ;;;
  cleanupEntries cacheName maxAgeSeconds.

(** *** The network function *)

Definition getCounter : M Z := fun w => (Ok (fetchCounter w), w).

(** The answer of the network function to its next call. *)
Definition nextReply (cfg : Config) (request : Request) (w : World) : NetReply :=
  customFetch cfg (netCalls w) request.

(** [await customFetch(request)] *)
Definition callFetch (cfg : Config) (request : Request) : M Response :=
  fun w =>
    let a := nextReply cfg request w in
    let w' := called (latency a) (emit (Fetch request) w) in
    match reply a with
    | inl response => (Ok response, w')
    | inr e => (Throw e, w')
    end.

(** [customFetch(request).then(...).catch(...)], not awaited: the call is
    issued now, what follows its answer is queued. *)
Definition startRevalidation (cfg : Config) (request : Request) : M unit :=
  modify (fun w =>
    let a := nextReply cfg request w in
    enqueue (RevalidateJob (cacheName cfg) request (reply a))
      (called 0 (emit (Fetch request) w))).

(** [cleanupOldCacheEntries(...).catch(...)], not awaited: the function
    runs up to its first await, the rest is queued. *)
Definition startCleanup (cfg : Config) : M unit :=
  cachesOpen (cacheName cfg) ;;;
  modify (enqueue (CleanupJob (cacheName cfg) (maxCacheAgeSeconds cfg))).

(** The block each strategy ends with:
    [if (networkResponse.ok) await cache.put(request, addTimestamp(...))]. *)
Definition cacheIfOk (cfg : Config) (request : Request)
    (networkResponse : Response) : M unit :=
  if ok networkResponse then
    now <- dateNow ;;
    cachePut (cacheName cfg) (url request) (addTimestamp now networkResponse)
  else ret tt.

(** *** index.js (src/unnamed/part_003): periodic cleanup bookkeeping *)

Definition countFetch (cfg : Config) : M unit :=
  modify (fun w => setFetchCounter (fetchCounter w + 1) w) ;;;
  n <- getCounter ;;
  if (n =? 1) || (Z.rem n 100 =? 0) then
    startCleanup cfg ;;;
    if Z.rem n 100 =? 0 then modify (setFetchCounter 1) else ret tt
  else ret tt.

(** *** index.js (src/unnamed/part_003): the three strategies *)

(** cache-first, from the network fetch on. *)
Definition cacheFirstNetwork (cfg : Config) (request : Request) (ttl : Z)
    (staleTTL : option Z) (cachedResponse : option Response) : M (option Response) :=
  outcome <- attempt (callFetch cfg request) ;;
  match outcome with
  | inr error =>
      now <- dateNow ;;
      match cachedResponse with
      | Some c =>
          if isStale now c ttl staleTTL then ret (Some c) else throw error
      | None => throw error
      end
  | inl networkResponse =>
      cacheIfOk cfg request networkResponse ;;;
      ret (Some networkResponse)
  end.

Definition cacheFirst (cfg : Config) (request : Request) (ttl : Z)
    (staleTTL : option Z) : M (option Response) :=
  cachesOpen (cacheName cfg) ;;;
  cachedResponse <- cacheMatch (cacheName cfg) (url request) ;;
  now <- dateNow ;;
  match cachedResponse with
  | Some c =>
      if isFresh now c ttl then ret (Some c)
      else
        (if isOlderThanMaxAge now c (maxCacheAgeSeconds cfg)
         then cacheDelete (cacheName cfg) (url request) false ;;; ret tt
         else ret tt) ;;;
        cacheFirstNetwork cfg request ttl staleTTL cachedResponse
  | None => cacheFirstNetwork cfg request ttl staleTTL cachedResponse
  end.

Definition networkFirst (cfg : Config) (request : Request) (ttl : Z)
    (staleTTL : option Z) : M (option Response) :=
  cachesOpen (cacheName cfg) ;;;
  outcome <- attempt (callFetch cfg request) ;;
  match outcome with
  | inr error =>
      cachedResponse <- cacheMatch (cacheName cfg) (url request) ;;
      now <- dateNow ;;
      match cachedResponse with
      | Some c =>
          if isOlderThanMaxAge now c (maxCacheAgeSeconds cfg)
          then cacheDelete (cacheName cfg) (url request) false ;;; throw error
          else if isFresh now c ttl || isStale now c ttl staleTTL
          then ret (Some c)
          else throw error
      | None => throw error
      end
  | inl networkResponse =>
      cacheIfOk cfg request networkResponse ;;;
      ret (Some networkResponse)
  end.

(** stale-while-revalidate, the synchronous network path. *)
Definition revalidateNow (cfg : Config) (request : Request) : M (option Response) :=
  networkResponse <- callFetch cfg request ;;
  cacheIfOk cfg request networkResponse ;;;
  ret (Some networkResponse).

Definition staleWhileRevalidate (cfg : Config) (request : Request) (ttl : Z)
    (staleTTL : option Z) : M (option Response) :=
  cachesOpen (cacheName cfg) ;;;
  cachedResponse <- cacheMatch (cacheName cfg) (url request) ;;
  now <- dateNow ;;
  match cachedResponse with
  | Some c =>
      if isOlderThanMaxAge now c (maxCacheAgeSeconds cfg)
      then cacheDelete (cacheName cfg) (url request) false ;;;
           revalidateNow cfg request
      else
        let fresh := isFresh now c ttl in
        let stale := isStale now c ttl staleTTL in
        if fresh || stale then
          (if stale then startRevalidation cfg request else ret tt) ;;;
          ret (Some c)
        else revalidateNow cfg request
  | None => revalidateNow cfg request
  end.

(** *** index.js (src/unnamed/part_003): handleRequest *)

Definition isMutation (method : string) : bool :=
  existsb (String.eqb method) ["POST"; "PATCH"; "PUT"; "DELETE"].

(** Relative invalidation paths are resolved against the origin of the
    request; when that fails the paths are left as they are. *)
Definition normalizePaths (url : string) (paths : list string) : list string :=
  match newURL url with
  | None => paths
  | Some requestUrlObj =>
      let requestOrigin := origin requestUrlObj in
      match
        mapOption
          (fun path =>
             match newURL path with
             | Some _ => Some path
             | None => href <$> newURLBase path requestOrigin
             end)
          paths
      with
      | Some normalized => normalized
      | None => paths
      end
  end.

(** The paths handed to invalidateCache, before they are normalized. *)
Definition pathsToInvalidate (cfg : Config) (request : Request) : Result (list string) :=
  let invalidateHeaders := getAllHeaders (headers request) CACHE_INVALIDATE_HEADER in
  if (length invalidateHeaders =? 0)%nat
     && inferInvalidation cfg && isMutation (method request)
  then getInferredInvalidationPaths (url request)
  else Ok invalidateHeaders.

(** The origin of the request differs from the one of the service worker. *)
Definition crossOrigin (cfg : Config) (requestUrl : URL) : bool :=
  match selfOrigin cfg with
  | Some serviceWorkerOrigin =>
      negb (String.eqb serviceWorkerOrigin "")
      && negb (String.eqb (origin requestUrl) serviceWorkerOrigin)
  | None => false
  end.

Definition handleRequest (cfg : Config) (request : Request) : M (option Response) :=
  match getHeader (headers request) CACHE_CLEAR_HEADER with
  | Some _ =>
      clearCache (cacheName cfg) ;;;
      response <- callFetch cfg request ;;
      ret (Some response)
  | None =>
      let invalidateHeaders := getAllHeaders (headers request) CACHE_INVALIDATE_HEADER in
      if (0 <? length invalidateHeaders)%nat
         || (inferInvalidation cfg && isMutation (method request))
      then
        paths <- liftResult (pathsToInvalidate cfg request) ;;
        (if (0 <? length paths)%nat
         then invalidateCache (cacheName cfg) (normalizePaths (url request) paths)
         else ret tt) ;;;
        response <- callFetch cfg request ;;
        ret (Some response)
      else if negb (String.eqb (method request) "GET") then ret None
      else
        match newURL (url request) with
        | None => ret None
        | Some requestUrl =>
            if crossOrigin cfg requestUrl then ret None
            else
              countFetch cfg ;;;
              let hasExplicitTTLHeader :=
                bool_decide (is_Some (getHeader (headers request) CACHE_TTL_HEADER)) in
              let ttl := getTTL (headers request) (defaultTTLSeconds cfg) in
              inScope <- liftResult
                (matchesScope (url request) (scope cfg) (defaultTTLSeconds cfg)) ;;
              if negb inScope && negb hasExplicitTTLHeader then ret None
              else
                match ttl with
                | None => ret None
                | Some ttl =>
                    if ttl =? 0 then ret None
                    else
                      let staleTTL :=
                        getStaleTTL (headers request) (defaultStaleTTLSeconds cfg) in
                      let strategy :=
                        getStrategy (headers request) (defaultStrategy cfg) in
                      if String.eqb strategy "cache-first"
                      then cacheFirst cfg request ttl staleTTL
                      else if String.eqb strategy "network-first"
                      then networkFirst cfg request ttl staleTTL
                      else if String.eqb strategy "stale-while-revalidate"
                      then staleWhileRevalidate cfg request ttl staleTTL
                      else ret None
                end
        end
  end.

(** *** Work that is not awaited *)

(** A queued job runs to its end; whatever it throws is dropped. *)
Definition runJob (j : Job) (w : World) : World :=
  match j with
  | CleanupJob name maxAgeSeconds => snd (cleanupEntries name maxAgeSeconds w)
  | RevalidateJob name request answer =>
      match answer with
      | inl networkResponse =>
          if ok networkResponse
          then snd (cachePut name (url request)
                      (addTimestamp (clock w) networkResponse) w)
          else w
      | inr _ => w
      end
  end.

Definition clearJobs (w : World) : World :=
  mkWorld (caches w) (clock w) (fetchCounter w) (netCalls w) (events w) [].

(** Every queued job, oldest first. *)
Definition runPending (w : World) : World :=
  fold_left (fun w' j => runJob j w') (jobs w) (clearJobs w).

(** Time goes by. *)
Definition tick (dt : Z) (w : World) : World :=
  mkWorld (caches w) (clock w + dt) (fetchCounter w) (netCalls w) (events w) (jobs w).

End Handler.

(** ** src/src/typedefs.js: the options given to createHandleRequest

    [None] is a property that is not set ([undefined]). *)
Module HandleRequestConfig.

Record t := make {
  cacheName : string;
  scope : option (list string);
  defaultStrategy : option string;
  defaultTTLSeconds : option Z;
  defaultStaleTTLSeconds : option Z;
  inferInvalidation : option bool;
  customFetch : option (nat -> Request -> NetReply);
  maxCacheAgeSeconds : option Z;
  loggingLevel : option string
}.

End HandleRequestConfig.

(** The errors of validateConfig, one for each [throw] that options of
    these types can reach: cacheName, defaultStrategy, maxCacheAgeSeconds,
    loggingLevel. *)
Inductive ConfigError :=
| CacheNameRequired
| UnknownDefaultStrategy
| MaxCacheAgeNotPositive
| UnknownLoggingLevel.

Definition loggingLevels : list string := ["none"; "minimal"; "verbose"].

(** src/src/helpers.js: validateConfig; [None] when it returns. *)
Definition validateConfig (config : HandleRequestConfig.t) : option ConfigError :=
  if String.eqb (HandleRequestConfig.cacheName config) ""
  then Some CacheNameRequired
  else if
    match HandleRequestConfig.defaultStrategy config with
    | Some defaultStrategy =>
        negb (String.eqb defaultStrategy "")
        && negb (existsb (String.eqb defaultStrategy) strategies)
    | None => false
    end
  then Some UnknownDefaultStrategy
  else if
    match HandleRequestConfig.maxCacheAgeSeconds config with
    | Some maxCacheAgeSeconds => maxCacheAgeSeconds <=? 0
    | None => false
    end
  then Some MaxCacheAgeNotPositive
  else if
    match HandleRequestConfig.loggingLevel config with
    | Some loggingLevel => negb (existsb (String.eqb loggingLevel) loggingLevels)
    | None => false
    end
  then Some UnknownLoggingLevel
  else None.

(** index.js (src/unnamed/part_003): createHandleRequest, up to the
    handler it returns, which is [handleRequest] at the configuration
    given here.  [fetch] is the global fetch and [selfOrigin] the origin
    of the service worker. *)
Definition createHandleRequest (fetch : nat -> Request -> NetReply)
    (selfOrigin : option string) (config : HandleRequestConfig.t)
    : ConfigError + Config :=
  match validateConfig config with
  | Some error => inl error
  | None =>
      inr (mkConfig
             (HandleRequestConfig.cacheName config)
             (default [] (HandleRequestConfig.scope config))
             match HandleRequestConfig.defaultStrategy config with
             | Some defaultStrategy =>
                 if String.eqb defaultStrategy "" then "cache-first"
                 else defaultStrategy
             | None => "cache-first"
             end
             (default 300 (HandleRequestConfig.defaultTTLSeconds config))
             (default 3600 (HandleRequestConfig.defaultStaleTTLSeconds config))
             (default 7200 (HandleRequestConfig.maxCacheAgeSeconds config))
             (default true (HandleRequestConfig.inferInvalidation config))
             (default fetch (HandleRequestConfig.customFetch config))
             selfOrigin)
  end.

(** ** Vocabulary of the statements *)

(** The timestamp header of a response, as the cache wrote it. *)
Definition timestampHeader (response : Response) : option string :=
  getHeader (rheaders response) CACHE_TIMESTAMP_HEADER.

(** The values of the headers called [name], as they were set. *)
Fixpoint headerValues (h : Headers) (name : string) : list string :=
  match h with
  | [] => []
  | (key, value) :: rest =>
      if String.eqb (Str.toLowerCase key) (Str.toLowerCase name)
      then value :: headerValues rest name
      else headerValues rest name
  end.

(** [h] with every key in lower case, as a [Headers] object holds them. *)
Definition lowerKeys (h : Headers) : Headers :=
  map (fun kv => (Str.toLowerCase (fst kv), snd kv)) h.

(** The cache a queued job works on. *)
Definition jobCache (j : Job) : string :=
  match j with
  | CleanupJob name _ => name
  | RevalidateJob name _ _ => name
  end.

(** From [w] to [w']: the storage outside the cache [name] is what it was. *)
Definition Confined (name : string) (w w' : World) : Prop :=
  forall n, n <> name -> caches w' !! n = caches w !! n.

(** From [w] to [w']: the counter of the handler is what it was, and the
    jobs queued since are revalidations on the cache [name]. *)
Definition Uncounted (name : string) (w w' : World) : Prop :=
  fetchCounter w' = fetchCounter w
  /\ exists new,
       jobs w' = (jobs w ++ new)%list
       /\ Forall (fun j => exists request answer,
                    j = RevalidateJob name request answer) new.

Definition isCleanup (j : Job) : bool :=
  match j with
  | CleanupJob _ _ => true
  | RevalidateJob _ _ _ => false
  end.

(** The number of cleanups in the queue. *)
Definition cleanups (w : World) : nat := length (List.filter isCleanup (jobs w)).

Section Vocabulary.

Context {platform : URLPlatform}.

(** The request reaches the strategy engine: it carries no clear and no
    invalidation directive, is a same-origin GET, resolves to the TTL
    [ttl], is in scope or carries a TTL directive, and resolves to the
    stale TTL [staleTTL] and to [strategy]. *)
Definition HandledRead (cfg : Config) (request : Request)
    (strategy : string) (ttl : Z) (staleTTL : option Z) : Prop :=
  getHeader (headers request) CACHE_CLEAR_HEADER = None
  /\ getAllHeaders (headers request) CACHE_INVALIDATE_HEADER = []
  /\ method request = "GET"
  /\ (exists requestUrl,
        newURL (url request) = Some requestUrl
        /\ crossOrigin cfg requestUrl = false)
  /\ (exists inScope,
        matchesScope (url request) (scope cfg) (defaultTTLSeconds cfg) = Ok inScope
        /\ (inScope = true
            \/ is_Some (getHeader (headers request) CACHE_TTL_HEADER)))
  /\ getTTL (headers request) (defaultTTLSeconds cfg) = Some ttl
  /\ getStaleTTL (headers request) (defaultStaleTTLSeconds cfg) = staleTTL
  /\ getStrategy (headers request) (defaultStrategy cfg) = strategy.

(** The world once the handler has counted the request. *)
Definition counted (cfg : Config) (w : World) : World := snd (countFetch cfg w).

(** The value of the counter at which the handler starts a cleanup. *)
Definition sweepsAt (n : Z) : bool := (n =? 1) || (Z.rem n 100 =? 0).

(** The strategy that a handled read is dispatched to. *)
Definition engine (cfg : Config) (request : Request) (strategy : string)
    (ttl : Z) (staleTTL : option Z) : M (option Response) :=
  if String.eqb strategy "cache-first"
  then cacheFirst cfg request ttl staleTTL
  else if String.eqb strategy "network-first"
  then networkFirst cfg request ttl staleTTL
  else if String.eqb strategy "stale-while-revalidate"
  then staleWhileRevalidate cfg request ttl staleTTL
  else ret None.

(** The storage holds a cache under [name]. *)
Definition holds (name : string) (w : World) : Prop := is_Some (caches w !! name).

(** The operations by which [invalidateCache name targets] invalidates:
    the cache is opened and each target deleted without regard to its
    query string. *)
Definition invalidating (name : string) (targets : list string) : list Event :=
  CachesOpen name :: map (fun t => CacheDelete name t true) targets.

(** Among [n] successive turns handling [request], numbered from [i], the
    numbers of those in which the handler queues a cleanup. *)
Fixpoint cleanupTurns (cfg : Config) (request : Request) (n : nat) (i : Z)
    (w : World) : list Z :=
  match n with
  | O => []
  | S n' =>
      let w' := snd (handleRequest cfg request w) in
      ((if (length (jobs w) <? length (jobs w'))%nat then [i] else [])
         ++ cleanupTurns cfg request n' (i + 1) w')%list
  end.

(** The world after [n] successive turns handling [request]. *)
Fixpoint turns (cfg : Config) (request : Request) (n : nat) (w : World) : World :=
  match n with
  | O => w
  | S n' => turns cfg request n' (snd (handleRequest cfg request w))
  end.

(** The world after the network answered [r], [w1] being the world when
    the call ends: the answer is stored iff its status is 2xx. *)
Definition stored (cfg : Config) (request : Request) (r : Response)
    (w1 : World) : World :=
  if ok r
  then updCache (cacheName cfg)
         (fun c => <[url request := addTimestamp (clock w1) r]> c)
         (emit (CachePut (cacheName cfg) (url request) (addTimestamp (clock w1) r)) w1)
  else w1.

(** A response as the handler caches it: an answer of the network of
    status 2xx, under a timestamp that reads back. *)
Definition Cacheable (response : Response) : Prop :=
  exists r t,
    response = addTimestamp t r /\ ok r = true
    /\ getCacheTimestamp response = Some t.

Definition writesCacheable (e : Event) : Prop :=
  match e with
  | CachePut _ _ response => Cacheable response
  | _ => True
  end.

(** From [w] to [w']: every [cache.put] issued carries a cacheable
    response, and every entry is what it was, or is gone, or is a cacheable
    response. *)
Definition WritesWhole (w w' : World) : Prop :=
  (exists evs, events w' = (events w ++ evs)%list /\ Forall writesCacheable evs)
  /\ forall n k,
       entry n k w' = entry n k w
       \/ entry n k w' = None
       \/ exists response, entry n k w' = Some response /\ Cacheable response.

(** Whatever the world, the computation leaves one related to it by [R]. *)
Definition keeps (R : World -> World -> Prop) {A} (m : M A) : Prop :=
  forall w, R w (snd (m w)).

(** The handler counts the request for its periodic cleanup: no clear and
    no invalidation applies, and it is a GET of the origin of the service
    worker. *)
Definition counts (cfg : Config) (request : Request) : bool :=
  match getHeader (headers request) CACHE_CLEAR_HEADER with
  | Some _ => false
  | None =>
      if (0 <? length (getAllHeaders (headers request) CACHE_INVALIDATE_HEADER))%nat
         || (inferInvalidation cfg && isMutation (method request))
      then false
      else if negb (String.eqb (method request) "GET") then false
      else
        match newURL (url request) with
        | None => false
        | Some requestUrl => negb (crossOrigin cfg requestUrl)
        end
  end.

(** [cache.delete(target, { ignoreSearch: true })] removes the entry of
    [key]: the target parses and [key] has its pathname, or the target is
    a path and [key] has that pathname. *)
Definition invalidates (target key : string) : bool :=
  match newURL target with
  | Some requestUrlObj => samePath (pathname requestUrlObj) key
  | None => Str.startsWith target "/" && samePath target key
  end.

(** What the turn of a request returns when it hands over to the network. *)
Definition passedOn (cfg : Config) (request : Request) (w : World)
    : Result (option Response) :=
  match reply (nextReply cfg request w) with
  | inl response => Ok (Some response)
  | inr e => Throw e
  end.

(** The outcome [run] of a turn started in [w] comes from somewhere: a
    response is the answer of the network to the call of this turn or the
    entry cached under the URL of the request, an error is the one the
    network threw or the TypeError of an URL that does not parse; and the
    network was called once or not at all. *)
Definition Sourced (cfg : Config) (request : Request) (w : World)
    (run : Result (option Response) * World) : Prop :=
  (forall r, fst run = Ok (Some r) ->
     reply (nextReply cfg request w) = inl r
     \/ entry (cacheName cfg) (url request) w = Some r)
  /\ (forall e, fst run = Throw e ->
        reply (nextReply cfg request w) = inr e
        \/ e = TypeError "Invalid URL")
  /\ (netCalls (snd run) = netCalls w \/ netCalls (snd run) = S (netCalls w)).

End Vocabulary.

(** ** Concrete configurations, requests and worlds *)

Module Example.

Definition site := "https://example.com".
Definition users := "https://example.com/api/users".

Definition response (text : string) (code : Z) : Response :=
  mkResponse code "" [] text.

(** The network answers every call with [text], at once. *)
Definition online (text : string) : nat -> Request -> NetReply :=
  fun _ _ => mkNetReply (inl (response text 200)) 0.

Definition failure : JsError := NetworkError "Failed to fetch".

Definition offline : nat -> Request -> NetReply :=
  fun _ _ => mkNetReply (inr failure) 0.

(** The defaults of createHandleRequest, with the scope [/api/]. *)
Definition config (strategy : string) (net : nat -> Request -> NetReply) : Config :=
  mkConfig "api-cache" ["/api/"] strategy 300 3600 7200 true net (Some site).

Definition get (address : string) : Request := mkRequest address "GET" [].

Definition getWith (address : string) (h : Headers) : Request :=
  mkRequest address "GET" h.

(** A world at time [now] whose cache holds [entries]. *)
Definition world (now : Z) (entries : list (string * Response)) : World :=
  mkWorld {[ "api-cache" := list_to_map entries ]} now 0 0 [] [].

(** An entry written at time [t]. *)
Definition cachedAt (t : Z) (text : string) : Response :=
  addTimestamp t (response text 200).

End Example.

(** * Properties *)

(** ** Strings *)

Module StrFacts.
Import Str.

Lemma lowerChar_idem c : lowerChar (lowerChar c) = lowerChar c.
Proof. destruct c as [[] [] [] [] [] [] [] []]; reflexivity. Qed.

Lemma toLowerCase_idem s : toLowerCase (toLowerCase s) = toLowerCase s.
Proof. induction s as [|c s IH]; cbn; [reflexivity|]. now rewrite lowerChar_idem, IH. Qed.

Lemma dropPrefix_Some p s r : dropPrefix p s = Some r <-> s = p +:+ r.
Proof.
  revert s. induction p as [|a p IH]; intros s; cbn.
  - split; [intros [= ->]; reflexivity | intros ->; reflexivity].
  - destruct s as [|b s]; [split; discriminate|].
    destruct (Ascii.eqb_spec a b) as [->|Hne].
    + rewrite IH. split; [intros ->; reflexivity | intros [= ->]; reflexivity].
    + split; [discriminate | intros H; injection H; congruence].
Qed.

Lemma startsWith_app s p : startsWith s p = true <-> exists r, s = p +:+ r.
Proof.
  unfold startsWith. destruct (dropPrefix p s) as [r|] eqn:E.
  - apply dropPrefix_Some in E. split; eauto.
  - split; [discriminate|]. intros [r Hr]. apply dropPrefix_Some in Hr. congruence.
Qed.

Lemma app_cons c (a b : string) : String c a +:+ b = String c (a +:+ b).
Proof. reflexivity. Qed.

Lemma app_nil_l (a : string) : "" +:+ a = a.
Proof. reflexivity. Qed.

Lemma app_nil_r (a : string) : a +:+ "" = a.
Proof. induction a as [|c a IH]; [reflexivity|]. now rewrite app_cons, IH. Qed.

Lemma length_app (a b : string) : String.length (a +:+ b) = (String.length a + String.length b)%nat.
Proof.
  induction a as [|c a IH]; [reflexivity|].
  rewrite app_cons. cbn [String.length Nat.add]. now rewrite IH.
Qed.

Lemma app_assoc (a b c : string) : (a +:+ b) +:+ c = a +:+ (b +:+ c).
Proof. induction a as [|d a IH]; [reflexivity|]. now rewrite !app_cons, IH. Qed.

Lemma splitFuel_nonempty n sep s : splitFuel n sep s <> [].
Proof.
  destruct n; [discriminate|]. destruct s as [|c r]; [discriminate|]. cbn [splitFuel].
  destruct (dropPrefix sep (String c r)); [discriminate|].
  destruct (splitFuel n sep r); discriminate.
Qed.

Lemma join_cons sep x l : l <> [] -> join sep (x :: l) = x +:+ sep +:+ join sep l.
Proof. destruct l; [congruence | reflexivity]. Qed.

Lemma join_consHead sep c l : l <> [] -> join sep (consHead c l) = String c (join sep l).
Proof. destruct l as [|h [|h' t]]; [congruence | reflexivity | reflexivity]. Qed.

Lemma shorter_rest (sep : string) c r r' n :
  sep <> "" -> (String.length (String c r) <= S n)%nat ->
  String c r = sep +:+ r' -> (String.length r' <= n)%nat.
Proof.
  intros Hsep Hlen E. apply (f_equal String.length) in E.
  rewrite length_app in E. destruct sep; [congruence|]. cbn in *. lia.
Qed.

Lemma join_splitFuel n sep s :
  sep <> "" -> (String.length s <= n)%nat -> join sep (splitFuel n sep s) = s.
Proof.
  intros Hsep. revert s. induction n as [|n IH]; intros s Hlen; [reflexivity|].
  destruct s as [|c r]; [reflexivity|]. cbn [splitFuel].
  destruct (dropPrefix sep (String c r)) as [r'|] eqn:E.
  - apply dropPrefix_Some in E.
    rewrite join_cons by apply splitFuel_nonempty.
    rewrite IH by eauto using shorter_rest. now rewrite E.
  - rewrite join_consHead by apply splitFuel_nonempty.
    rewrite IH; [reflexivity | cbn in Hlen; lia].
Qed.

Lemma join_split s sep : sep <> "" -> join sep (split s sep) = s.
Proof. intros H. apply join_splitFuel; [exact H | reflexivity]. Qed.

Lemma head_prefix n sep s :
  exists h t rest, splitFuel n sep s = h :: t /\ s = h +:+ rest.
Proof.
  revert s. induction n as [|n IH]; intros s.
  { exists s, [], "". now rewrite app_nil_r. }
  destruct s as [|c r]; [exists "", [], ""; auto|]. cbn [splitFuel].
  destruct (dropPrefix sep (String c r)) as [r'|] eqn:E.
  - exists "", (splitFuel n sep r'), (String c r). auto.
  - destruct (IH r) as (h & t & rest & -> & Hr).
    exists (String c h), t, rest. split; [reflexivity | now rewrite app_cons, <- Hr].
Qed.

Lemma startsWith_longer s p rest :
  startsWith s p = true -> startsWith (s +:+ rest) p = true.
Proof.
  rewrite !startsWith_app. intros [r ->]. exists (r +:+ rest). apply app_assoc.
Qed.

Lemma includes_empty sep : sep <> "" -> includes "" sep = false.
Proof. destruct sep; [congruence | reflexivity]. Qed.

Lemma pieces_splitFuel n sep s :
  sep <> "" -> (String.length s <= n)%nat ->
  Forall (fun p => includes p sep = false) (splitFuel n sep s).
Proof.
  intros Hsep. pose proof (includes_empty sep Hsep) as Hemp.
  revert s. induction n as [|n IH]; intros s Hlen.
  { destruct s as [|c r]; [|cbn in Hlen; lia]. repeat constructor. exact Hemp. }
  destruct s as [|c r]; cbn [splitFuel].
  { repeat constructor. exact Hemp. }
  destruct (dropPrefix sep (String c r)) as [r'|] eqn:E.
  - constructor; [exact Hemp|]. apply IH.
    apply dropPrefix_Some in E. eauto using shorter_rest.
  - assert (Hr : (String.length r <= n)%nat) by (cbn in Hlen; lia).
    specialize (IH r Hr).
    destruct (head_prefix n sep r) as (h & t & rest & Hs & Hrest).
    rewrite Hs in *. cbn [consHead].
    pose proof (Forall_inv IH) as Hh. pose proof (Forall_inv_tail IH) as Ht.
    cbn beta in Hh. constructor; [|exact Ht].
    cbn [includes]. rewrite Hh, orb_false_r.
    destruct (startsWith (String c h) sep) eqn:Hp; [|reflexivity].
    apply (startsWith_longer _ _ rest) in Hp. rewrite app_cons, <- Hrest in Hp.
    unfold startsWith in Hp. rewrite E in Hp. discriminate.
Qed.

Lemma pieces_split s sep :
  sep <> "" -> Forall (fun p => includes p sep = false) (split s sep).
Proof. intros H. apply pieces_splitFuel; [exact H | reflexivity]. Qed.

(** *** lastIndexOf and substring *)

Lemma includes_char_cons c d s :
  includes (String d s) (String c "") = Ascii.eqb c d || includes s (String c "").
Proof.
  cbn [includes]. f_equal. unfold startsWith. cbn [dropPrefix].
  destruct (Ascii.eqb c d); reflexivity.
Qed.

Lemma lastIndexFrom_absent c i s :
  includes s (String c "") = false -> lastIndexFrom c i s = -1.
Proof.
  revert i. induction s as [|d s IH]; intros i H; [reflexivity|].
  rewrite includes_char_cons in H. apply orb_false_iff in H as [Hd Hs].
  cbn [lastIndexFrom]. rewrite (IH _ Hs). cbn.
  rewrite Ascii.eqb_sym, Hd. reflexivity.
Qed.

Lemma lastIndexFrom_last c i (a b : string) :
  0 <= i -> includes b (String c "") = false ->
  lastIndexFrom c i (a +:+ String c b) = i + Z.of_nat (String.length a).
Proof.
  revert i. induction a as [|d a IH]; intros i Hi Hb.
  - rewrite app_nil_l. cbn [lastIndexFrom String.length].
    rewrite (lastIndexFrom_absent _ _ _ Hb).
    cbn. rewrite Ascii.eqb_refl. lia.
  - rewrite app_cons. cbn [lastIndexFrom String.length].
    rewrite IH by (lia || assumption).
    destruct (Z.leb_spec 0 (i + 1 + Z.of_nat (String.length a))); lia.
Qed.

Lemma lastIndexOf_last c (a b : string) :
  includes b (String c "") = false ->
  lastIndexOf (a +:+ String c b) c = Z.of_nat (String.length a).
Proof. intros H. unfold lastIndexOf. now rewrite lastIndexFrom_last. Qed.

Lemma lastIndexOf_absent c s :
  includes s (String c "") = false -> lastIndexOf s c = -1.
Proof. apply lastIndexFrom_absent. Qed.

Lemma substring0_app (a b : string) :
  substring0 (Z.of_nat (String.length a)) (a +:+ b) = a.
Proof.
  unfold substring0. rewrite Nat2Z.id.
  induction a as [|c a IH]; [destruct b; reflexivity|].
  rewrite app_cons. cbn [String.length String.substring]. now rewrite IH.
Qed.

(** *** parseInt and toString *)

Lemma takeDigits_print d : takeDigits (NilEmpty.string_of_uint d) = d.
Proof. induction d; cbn; congruence. Qed.

Lemma print_plain d :
  d <> Decimal.Nil ->
  trimStart (NilEmpty.string_of_uint d) = NilEmpty.string_of_uint d
  /\ (forall r, NilEmpty.string_of_uint d <> String "-" r)
  /\ (forall r, NilEmpty.string_of_uint d <> String "+" r).
Proof. destruct d; [congruence | ..]; intros _; repeat split; discriminate. Qed.

Lemma parseInt_digits d :
  d <> Decimal.Nil -> parseInt (NilEmpty.string_of_uint d) = Some (Z.of_uint d).
Proof.
  intros Hd. unfold parseInt.
  destruct (print_plain d Hd) as (-> & Hm & Hp).
  destruct (NilEmpty.string_of_uint d) as [|c r] eqn:E.
  { destruct d; discriminate || congruence. }
  assert (Hc : c <> "-"%char /\ c <> "+"%char).
  { split; intros ->; [eapply Hm | eapply Hp]; reflexivity. }
  destruct Hc as [H1 H2].
  replace (match String c r with
           | String "-" r0 => (true, r0)
           | String "+" r0 => (false, r0)
           | _ => (false, String c r)
           end) with (false, String c r).
  - rewrite <- E, takeDigits_print. destruct d; congruence.
  - destruct c as [[] [] [] [] [] [] [] []]; try reflexivity; congruence.
Qed.

Lemma parseInt_minus_digits d :
  d <> Decimal.Nil ->
  parseInt (String "-" (NilEmpty.string_of_uint d)) = Some (- Z.of_uint d).
Proof.
  intros Hd. unfold parseInt.
  replace (trimStart (String "-" (NilEmpty.string_of_uint d)))
    with (String "-" (NilEmpty.string_of_uint d)) by reflexivity.
  cbv iota beta. rewrite takeDigits_print. destruct d; congruence.
Qed.

Lemma to_uint_not_nil p : Pos.to_uint p <> Decimal.Nil.
Proof.
  intros E. pose proof (DecimalZ.of_to (Z.pos p)) as Hn.
  cbn [Z.to_int] in Hn. rewrite E in Hn. discriminate.
Qed.

Lemma print_nonzero d :
  d <> Decimal.Nil -> NilZero.string_of_uint d = NilEmpty.string_of_uint d.
Proof. destruct d; congruence || reflexivity. Qed.

Lemma parseInt_toString n : parseInt (toString n) = Some n.
Proof.
  unfold toString. pose proof (DecimalZ.of_to n) as Hn.
  destruct n as [|p|p]; [reflexivity | |];
    cbn [Z.to_int NilZero.string_of_int Z.of_int] in *;
    rewrite print_nonzero by apply to_uint_not_nil.
  - rewrite parseInt_digits by apply to_uint_not_nil. f_equal. exact Hn.
  - rewrite parseInt_minus_digits by apply to_uint_not_nil. f_equal. exact Hn.
Qed.

Lemma toString_nonempty n : toString n <> "".
Proof.
  intros E. pose proof (parseInt_toString n) as H. rewrite E in H. discriminate.
Qed.
End StrFacts.

(** ** Headers and the timestamp *)

Section HeaderFacts.

Lemma getHeader_headersSet name value h :
  getHeader (headersSet name value h) name = Some value.
Proof.
  unfold headersSet. induction h as [|[k v] h IH]; cbn [List.filter fst app getHeader].
  - now rewrite StrFacts.toLowerCase_idem, String.eqb_refl.
  - destruct (String.eqb (Str.toLowerCase k) (Str.toLowerCase name)) eqn:E;
      cbn [negb app getHeader]; [exact IH | now rewrite E].
Qed.

(** What [addTimestamp] writes is what [getCacheTimestamp] reads. *)
Lemma getCacheTimestamp_addTimestamp now response :
  getCacheTimestamp (addTimestamp now response) = Some now.
Proof.
  unfold getCacheTimestamp, addTimestamp. cbn [rheaders].
  rewrite getHeader_headersSet.
  destruct (String.eqb_spec (Str.toString now) "") as [E|_].
  - now apply StrFacts.toString_nonempty in E.
  - apply StrFacts.parseInt_toString.
Qed.

Lemma addTimestamp_payload now response :
  status (addTimestamp now response) = status response
  /\ statusText (addTimestamp now response) = statusText response
  /\ body (addTimestamp now response) = body response.
Proof. repeat split. Qed.

Lemma getAllHeaders_values h name :
  getAllHeaders h name = flat_map (fun v => Str.split v ", ") (headerValues h name).
Proof.
  induction h as [|[k v] h IH]; [reflexivity|]. cbn [getAllHeaders headerValues].
  destruct (String.eqb _ _); [cbn [flat_map]; now rewrite IH | exact IH].
Qed.

End HeaderFacts.

(** ** The freshness calculator *)

Section Freshness.

Implicit Types (now ttl : Z) (response : Response).

Lemma parseInt_empty : Str.parseInt "" = None.
Proof. reflexivity. Qed.

Lemma getCacheTimestamp_parsed response v timestamp :
  timestampHeader response = Some v ->
  Str.parseInt v = Some timestamp ->
  getCacheTimestamp response = Some timestamp.
Proof.
  unfold getCacheTimestamp, timestampHeader. intros -> Hp.
  destruct v as [|c v']; [discriminate Hp | exact Hp].
Qed.

Lemma getCacheTimestamp_missing response :
  timestampHeader response = None
  \/ (exists v, timestampHeader response = Some v /\ Str.parseInt v = None) ->
  getCacheTimestamp response = None.
Proof.
  unfold getCacheTimestamp, timestampHeader.
  intros [-> | (v & -> & Hp)]; [reflexivity |].
  destruct (String.eqb v ""); [reflexivity | exact Hp].
Qed.

Lemma isFresh_spec now response ttl timestamp :
  getCacheTimestamp response = Some timestamp ->
  isFresh now response ttl = true <-> now - timestamp < ttl * 1000.
Proof. unfold isFresh. intros ->. cbn. apply Z.ltb_lt. Qed.

Lemma isStale_spec now response ttl staleTTL timestamp :
  getCacheTimestamp response = Some timestamp ->
  isStale now response ttl (Some staleTTL) = true
  <-> ttl * 1000 <= now - timestamp < staleTTL * 1000.
Proof.
  unfold isStale. intros ->. cbn.
  rewrite andb_true_iff, Z.leb_le, Z.ltb_lt. reflexivity.
Qed.

Lemma isOlderThanMaxAge_spec now response maxAgeSeconds timestamp :
  getCacheTimestamp response = Some timestamp ->
  isOlderThanMaxAge now response maxAgeSeconds = true
  <-> maxAgeSeconds * 1000 <= now - timestamp.
Proof. unfold isOlderThanMaxAge. intros ->. cbn. apply Z.leb_le. Qed.

Lemma no_timestamp_no_verdict now response :
  getCacheTimestamp response = None ->
  forall ttl staleTTL maxAgeSeconds,
    isFresh now response ttl = false
    /\ isStale now response ttl staleTTL = false
    /\ isOlderThanMaxAge now response maxAgeSeconds = false.
Proof.
  intros H ttl staleTTL maxAgeSeconds.
  unfold isFresh, isStale, isOlderThanMaxAge. rewrite H.
  destruct staleTTL; auto.
Qed.

(** C5. For a cached response whose timestamp header parses to
    [timestamp], with [age = now - timestamp]: isFresh holds iff
    [age < ttl*1000], so an age of exactly [ttl*1000] is not fresh;
    isStale with a stale TTL [s] holds iff [ttl*1000 <= age < s*1000];
    isStale without a stale TTL is false.  When the header is missing or
    does not parse, isFresh, isStale and isOlderThanMaxAge are all false. *)
Theorem C5_freshness_predicates :
  forall now response,
    (forall v timestamp,
        timestampHeader response = Some v ->
        Str.parseInt v = Some timestamp ->
        (forall ttl, isFresh now response ttl = true <-> now - timestamp < ttl * 1000)
        /\ (forall ttl, now - timestamp = ttl * 1000 -> isFresh now response ttl = false)
        /\ (forall ttl s,
               isStale now response ttl (Some s) = true
               <-> ttl * 1000 <= now - timestamp < s * 1000))
    /\ (forall ttl, isStale now response ttl None = false)
    /\ (timestampHeader response = None
        \/ (exists v, timestampHeader response = Some v /\ Str.parseInt v = None) ->
        forall ttl staleTTL maxAgeSeconds,
          isFresh now response ttl = false
          /\ isStale now response ttl staleTTL = false
          /\ isOlderThanMaxAge now response maxAgeSeconds = false).
Proof.
  intros now response. split; [| split].
  - intros v timestamp Hv Hp.
    pose proof (getCacheTimestamp_parsed _ _ _ Hv Hp) as Hts.
    split; [| split].
    + intros ttl. apply isFresh_spec, Hts.
    + intros ttl Hage.
      destruct (isFresh now response ttl) eqn:E; [| reflexivity].
      apply (isFresh_spec _ _ _ _ Hts) in E. lia.
    + intros ttl s. apply isStale_spec, Hts.
  - reflexivity.
  - intros H. apply no_timestamp_no_verdict, getCacheTimestamp_missing, H.
Qed.

End Freshness.

(** ** The world under the operations of the handler *)

Create HintDb world discriminated.
Create Rewrite HintDb world.

Section WorldFacts.

Context {platform : URLPlatform}.
Implicit Types (w : World) (name key n k : string) (e : Event) (j : Job).

(** *** The clock and the call counter *)

Lemma clock_emit e w : clock (emit e w) = clock w.
Proof. reflexivity. Qed.
Lemma clock_enqueue j w : clock (enqueue j w) = clock w.
Proof. reflexivity. Qed.
Lemma clock_called dt w : clock (called dt w) = clock w + dt.
Proof. reflexivity. Qed.
Lemma clock_setFetchCounter c w : clock (setFetchCounter c w) = clock w.
Proof. reflexivity. Qed.
Lemma clock_opened name w : clock (opened name w) = clock w.
Proof. reflexivity. Qed.
Lemma clock_updCache name f w : clock (updCache name f w) = clock w.
Proof. reflexivity. Qed.

Lemma netCalls_emit e w : netCalls (emit e w) = netCalls w.
Proof. reflexivity. Qed.
Lemma netCalls_enqueue j w : netCalls (enqueue j w) = netCalls w.
Proof. reflexivity. Qed.
Lemma netCalls_called dt w : netCalls (called dt w) = S (netCalls w).
Proof. reflexivity. Qed.
Lemma netCalls_setFetchCounter c w : netCalls (setFetchCounter c w) = netCalls w.
Proof. reflexivity. Qed.
Lemma netCalls_opened name w : netCalls (opened name w) = netCalls w.
Proof. reflexivity. Qed.
Lemma netCalls_updCache name f w : netCalls (updCache name f w) = netCalls w.
Proof. reflexivity. Qed.

(** *** The trace and the queue *)

Lemma events_emit e w : events (emit e w) = (events w ++ [e])%list.
Proof. reflexivity. Qed.
Lemma events_enqueue j w : events (enqueue j w) = events w.
Proof. reflexivity. Qed.
Lemma events_called dt w : events (called dt w) = events w.
Proof. reflexivity. Qed.
Lemma events_setFetchCounter c w : events (setFetchCounter c w) = events w.
Proof. reflexivity. Qed.
Lemma events_opened name w :
  events (opened name w) = (events w ++ [CachesOpen name])%list.
Proof. reflexivity. Qed.
Lemma events_updCache name f w : events (updCache name f w) = events w.
Proof. reflexivity. Qed.

Lemma jobs_emit e w : jobs (emit e w) = jobs w.
Proof. reflexivity. Qed.
Lemma jobs_enqueue j w : jobs (enqueue j w) = (jobs w ++ [j])%list.
Proof. reflexivity. Qed.
Lemma jobs_called dt w : jobs (called dt w) = jobs w.
Proof. reflexivity. Qed.
Lemma jobs_setFetchCounter c w : jobs (setFetchCounter c w) = jobs w.
Proof. reflexivity. Qed.
Lemma jobs_opened name w : jobs (opened name w) = jobs w.
Proof. reflexivity. Qed.
Lemma jobs_updCache name f w : jobs (updCache name f w) = jobs w.
Proof. reflexivity. Qed.

Lemma nextReply_emit cfg request e w :
  nextReply cfg request (emit e w) = nextReply cfg request w.
Proof. reflexivity. Qed.
Lemma nextReply_enqueue cfg request j w :
  nextReply cfg request (enqueue j w) = nextReply cfg request w.
Proof. reflexivity. Qed.
Lemma nextReply_setFetchCounter cfg request c w :
  nextReply cfg request (setFetchCounter c w) = nextReply cfg request w.
Proof. reflexivity. Qed.
Lemma nextReply_opened cfg request name w :
  nextReply cfg request (opened name w) = nextReply cfg request w.
Proof. reflexivity. Qed.
Lemma nextReply_updCache cfg request name f w :
  nextReply cfg request (updCache name f w) = nextReply cfg request w.
Proof. reflexivity. Qed.

(** *** Running the monad *)

Lemma bind_run {A B} (m : M A) (k : A -> M B) w :
  bind m k w =
    match m w with
    | (Ok a, w') => k a w'
    | (Throw e, w') => (Throw e, w')
    end.
Proof. reflexivity. Qed.

Lemma bind_attempt {A B} (m : M A) (k : A + JsError -> M B) w :
  bind (attempt m) k w =
    match m w with
    | (Ok a, w') => k (inl a) w'
    | (Throw e, w') => k (inr e) w'
    end.
Proof. unfold bind, attempt. now destruct (m w) as [[a|e] w']. Qed.

Lemma callFetch_run cfg request w :
  callFetch cfg request w =
    let a := nextReply cfg request w in
    let w' := called (latency a) (emit (Fetch request) w) in
    match reply a with
    | inl response => (Ok response, w')
    | inr e => (Throw e, w')
    end.
Proof. reflexivity. Qed.

(** *** The entries *)

Lemma theCache_emit n e w : theCache n (emit e w) = theCache n w.
Proof. reflexivity. Qed.
Lemma theCache_enqueue n j w : theCache n (enqueue j w) = theCache n w.
Proof. reflexivity. Qed.
Lemma theCache_called n dt w : theCache n (called dt w) = theCache n w.
Proof. reflexivity. Qed.
Lemma theCache_setFetchCounter n c w : theCache n (setFetchCounter c w) = theCache n w.
Proof. reflexivity. Qed.

Lemma theCache_opened n name w : theCache n (opened name w) = theCache n w.
Proof.
  unfold theCache, opened. cbn.
  destruct (decide (name = n)) as [->|Hne].
  - now rewrite lookup_insert_eq.
  - now rewrite lookup_insert_ne.
Qed.

Lemma theCache_updCache n name f w :
  holds name w ->
  theCache n (updCache name f w)
  = if decide (n = name) then f (theCache name w) else theCache n w.
Proof.
  intros [c Hc]. unfold theCache, updCache. cbn. rewrite Hc.
  destruct (decide (n = name)) as [->|Hne].
  - now rewrite lookup_insert_eq.
  - now rewrite lookup_insert_ne.
Qed.

(** Without the cache in the storage the operation shows nothing. *)
Lemma theCache_updCache_cases n name f w :
  theCache n (updCache name f w) = theCache n w
  \/ (n = name /\ theCache n (updCache name f w) = f (theCache name w)).
Proof.
  unfold theCache, updCache. cbn.
  destruct (caches w !! name) as [c|] eqn:Hc; [|now left].
  destruct (decide (n = name)) as [->|Hne].
  - right. split; [reflexivity|]. now rewrite lookup_insert_eq.
  - left. now rewrite lookup_insert_ne.
Qed.

Lemma entry_emit n k e w : entry n k (emit e w) = entry n k w.
Proof. reflexivity. Qed.
Lemma entry_enqueue n k j w : entry n k (enqueue j w) = entry n k w.
Proof. reflexivity. Qed.
Lemma entry_called n k dt w : entry n k (called dt w) = entry n k w.
Proof. reflexivity. Qed.
Lemma entry_setFetchCounter n k c w : entry n k (setFetchCounter c w) = entry n k w.
Proof. reflexivity. Qed.
Lemma entry_opened n k name w : entry n k (opened name w) = entry n k w.
Proof. unfold entry. now rewrite theCache_opened. Qed.

Lemma entry_put n k name key response w :
  holds name w ->
  entry n k (updCache name (fun c => <[key := response]> c) w)
  = if decide (n = name /\ k = key) then Some response else entry n k w.
Proof.
  intros H. unfold entry. rewrite theCache_updCache by exact H.
  destruct (decide (n = name)) as [->|Hn].
  - destruct (decide (k = key)) as [->|Hk].
    + rewrite lookup_insert_eq. now rewrite decide_True.
    + rewrite lookup_insert_ne by done. rewrite decide_False; [reflexivity | tauto].
  - rewrite decide_False; [reflexivity | tauto].
Qed.

(** [cache.delete(request)] of an entry that is there. *)
Lemma deleteEntries_exact key (c : gmap string Response) :
  is_Some (c !! key) -> deleteEntries key false c = (true, delete key c).
Proof. intros H. unfold deleteEntries. cbn. now rewrite bool_decide_eq_true_2. Qed.

Lemma entry_delete n k name key w r :
  holds name w ->
  entry name key w = Some r ->
  entry n k (updCache name (fun c => snd (deleteEntries key false c)) w)
  = if decide (n = name /\ k = key) then None else entry n k w.
Proof.
  intros H Hr. unfold entry in *. rewrite theCache_updCache by exact H.
  destruct (decide (n = name)) as [->|Hn].
  - rewrite deleteEntries_exact by eauto. cbn [snd].
    destruct (decide (k = key)) as [->|Hk].
    + rewrite lookup_delete_eq. now rewrite decide_True.
    + rewrite lookup_delete_ne by done. rewrite decide_False; [reflexivity | tauto].
  - rewrite decide_False; [reflexivity | tauto].
Qed.

(** *** The storage keeps the caches it holds *)

Lemma holds_emit name e w : holds name (emit e w) <-> holds name w.
Proof. reflexivity. Qed.
Lemma holds_enqueue name j w : holds name (enqueue j w) <-> holds name w.
Proof. reflexivity. Qed.
Lemma holds_called name dt w : holds name (called dt w) <-> holds name w.
Proof. reflexivity. Qed.
Lemma holds_setFetchCounter name c w : holds name (setFetchCounter c w) <-> holds name w.
Proof. reflexivity. Qed.

Lemma holds_opened name w : holds name (opened name w).
Proof. unfold holds, opened. cbn. rewrite lookup_insert_eq. eauto. Qed.

Lemma holds_updCache n name f w : holds n w -> holds n (updCache name f w).
Proof.
  unfold holds, updCache. cbn. intros Hn.
  destruct (caches w !! name) eqn:E; [|done].
  destruct (decide (name = n)) as [->|Hne].
  - rewrite lookup_insert_eq. eauto.
  - now rewrite lookup_insert_ne.
Qed.

End WorldFacts.

#[export] Hint Rewrite
  @clock_emit @clock_enqueue @clock_called @clock_setFetchCounter
  @clock_opened @clock_updCache
  @netCalls_emit @netCalls_enqueue @netCalls_called @netCalls_setFetchCounter
  @netCalls_opened @netCalls_updCache
  @entry_emit @entry_enqueue @entry_called @entry_setFetchCounter @entry_opened
  @nextReply_emit @nextReply_enqueue @nextReply_setFetchCounter
  @nextReply_opened @nextReply_updCache
  @events_emit @events_enqueue @events_called @events_setFetchCounter
  @events_opened @events_updCache
  @jobs_emit @jobs_enqueue @jobs_called @jobs_setFetchCounter
  @jobs_opened @jobs_updCache
  : world.

#[export] Hint Resolve holds_opened holds_updCache : world.

(** Unfold the monad and its primitive operations at a world. *)
Ltac mrun :=
  cbn [bind ret throw attempt modify dateNow getCounter liftResult
       cachesOpen cacheMatch cachePut cacheDelete cacheKeys cachesDelete
       startRevalidation startCleanup cacheIfOk fst snd].

(** The storage holds the cache that the turn opened. *)
Ltac held :=
  repeat first
    [ apply holds_opened
    | apply holds_updCache
    | apply holds_emit
    | apply holds_enqueue
    | apply holds_called
    | apply holds_setFetchCounter ].

(** ** Counting the request and reaching a strategy *)

Section Dispatch.

Context {platform : URLPlatform}.
Implicit Types (cfg : Config) (request : Request) (w : World).

Lemma countFetch_run cfg w : countFetch cfg w = (Ok tt, counted cfg w).
Proof.
  unfold counted, countFetch. mrun.
  destruct ((_ =? 1) || _); mrun; [destruct (_ =? 0)|]; reflexivity.
Qed.

Lemma counted_eq cfg w :
  let n := fetchCounter w + 1 in
  counted cfg w =
    if sweepsAt n then
      let w' := enqueue (CleanupJob (cacheName cfg) (maxCacheAgeSeconds cfg))
                  (opened (cacheName cfg) (setFetchCounter n w)) in
      if Z.rem n 100 =? 0 then setFetchCounter 1 w' else w'
    else setFetchCounter n w.
Proof.
  unfold counted, countFetch, sweepsAt. mrun.
  change (fetchCounter (setFetchCounter ?c w)) with c. cbv zeta.
  destruct ((_ =? 1) || _); mrun; [destruct (_ =? 0)|]; reflexivity.
Qed.

Lemma clock_counted cfg w : clock (counted cfg w) = clock w.
Proof.
  rewrite counted_eq. cbv zeta.
  destruct (sweepsAt _); [destruct (_ =? 0)|]; reflexivity.
Qed.

Lemma netCalls_counted cfg w : netCalls (counted cfg w) = netCalls w.
Proof.
  rewrite counted_eq. cbv zeta.
  destruct (sweepsAt _); [destruct (_ =? 0)|]; reflexivity.
Qed.

Lemma entry_counted cfg n k w : entry n k (counted cfg w) = entry n k w.
Proof.
  rewrite counted_eq. cbv zeta.
  destruct (sweepsAt _); [destruct (_ =? 0)|];
    now autorewrite with world.
Qed.

Lemma events_counted cfg w :
  events (counted cfg w) =
    (events w ++ if sweepsAt (fetchCounter w + 1)
                 then [CachesOpen (cacheName cfg)] else [])%list.
Proof.
  rewrite counted_eq. cbv zeta.
  destruct (sweepsAt _); [destruct (_ =? 0)|]; cbn; now rewrite ?app_nil_r.
Qed.

Lemma jobs_counted cfg w :
  jobs (counted cfg w) =
    (jobs w ++ if sweepsAt (fetchCounter w + 1)
               then [CleanupJob (cacheName cfg) (maxCacheAgeSeconds cfg)]
               else [])%list.
Proof.
  rewrite counted_eq. cbv zeta.
  destruct (sweepsAt _); [destruct (_ =? 0)|]; cbn; now rewrite ?app_nil_r.
Qed.

Lemma fetchCounter_counted cfg w :
  fetchCounter (counted cfg w) =
    if Z.rem (fetchCounter w + 1) 100 =? 0 then 1 else fetchCounter w + 1.
Proof.
  rewrite counted_eq. unfold sweepsAt. cbv zeta.
  destruct (Z.rem _ 100 =? 0); [now rewrite orb_true_r|].
  rewrite orb_false_r. now destruct (_ =? 1).
Qed.

Lemma getTTL_positive h d ttl : getTTL h d = Some ttl -> 0 < ttl.
Proof.
  unfold getTTL. destruct (getHeader h CACHE_TTL_HEADER) as [v|].
  - destruct (Str.parseInt v) as [t|]; [|discriminate].
    destruct (Z.leb_spec t 0); [discriminate|]. intros [= <-]. lia.
  - destruct (Z.ltb_spec 0 d); [|discriminate]. intros [= <-]. lia.
Qed.

Lemma handleRequest_read cfg request strategy ttl staleTTL w :
  HandledRead cfg request strategy ttl staleTTL ->
  handleRequest cfg request w
  = engine cfg request strategy ttl staleTTL (counted cfg w).
Proof.
  intros (Hclear & Hinv & Hget & (u & Hu & Hx) & (b & Hb & Hs) & Httl & Hst & Hstr).
  pose proof (getTTL_positive _ _ _ Httl) as Hpos.
  unfold handleRequest, engine.
  rewrite Hclear, Hinv, Hget, Hu, Hx, Hb, Httl, Hst, Hstr.
  cbn [length Nat.ltb Nat.leb orb isMutation existsb String.eqb Ascii.eqb
       Bool.eqb andb negb].
  rewrite andb_false_r. cbn [negb orb].
  unfold bind at 1. rewrite countFetch_run. mrun.
  assert (Hgo : negb b && negb (bool_decide
            (is_Some (getHeader (headers request) CACHE_TTL_HEADER))) = false).
  { destruct Hs as [-> | Hs]; [reflexivity|].
    rewrite (bool_decide_eq_true_2 _ Hs). apply andb_false_r. }
  rewrite Hgo. destruct (Z.eqb_spec ttl 0); [lia | reflexivity].
Qed.

End Dispatch.

#[export] Hint Rewrite @clock_counted @netCalls_counted @entry_counted : world.

(** ** network-first *)

Section NetworkFirst.

Context {platform : URLPlatform}.
Implicit Types (cfg : Config) (request : Request) (w : World).

Lemma nextReply_counted cfg request w :
  nextReply cfg request (counted cfg w) = nextReply cfg request w.
Proof. unfold nextReply. now rewrite netCalls_counted. Qed.

Lemma holds_counted_opened cfg w :
  holds (cacheName cfg) (opened (cacheName cfg) (counted cfg w)).
Proof. apply holds_opened. Qed.

(** The network answered [r]. *)
Lemma networkFirst_answer cfg request ttl staleTTL w r :
  reply (nextReply cfg request w) = inl r ->
  let name := cacheName cfg in
  let now := clock w + latency (nextReply cfg request w) in
  let w1 := called (latency (nextReply cfg request w))
              (emit (Fetch request) (opened name w)) in
  networkFirst cfg request ttl staleTTL w =
    (Ok (Some r),
     if ok r
     then updCache name (fun c => <[url request := addTimestamp now r]> c)
            (emit (CachePut name (url request) (addTimestamp now r)) w1)
     else w1).
Proof.
  intros Hr name now w1. unfold networkFirst. mrun.
  rewrite bind_attempt, callFetch_run. autorewrite with world. cbv zeta. rewrite Hr.
  unfold cacheIfOk. destruct (ok r); mrun; autorewrite with world; reflexivity.
Qed.

(** The network threw [e]. *)
Lemma networkFirst_failure cfg request ttl staleTTL w e :
  reply (nextReply cfg request w) = inr e ->
  let name := cacheName cfg in
  let now := clock w + latency (nextReply cfg request w) in
  let w1 := emit (CacheMatch name (url request))
              (called (latency (nextReply cfg request w))
                 (emit (Fetch request) (opened name w))) in
  networkFirst cfg request ttl staleTTL w =
    match entry name (url request) w with
    | Some c =>
        if isOlderThanMaxAge now c (maxCacheAgeSeconds cfg)
        then (Throw e,
              updCache name (fun c => snd (deleteEntries (url request) false c))
                (emit (CacheDelete name (url request) false) w1))
        else if isFresh now c ttl || isStale now c ttl staleTTL
        then (Ok (Some c), w1)
        else (Throw e, w1)
    | None => (Throw e, w1)
    end.
Proof.
  intros Hr name now w1. unfold networkFirst. mrun.
  rewrite bind_attempt, callFetch_run. autorewrite with world. cbv zeta. rewrite Hr.
  mrun. autorewrite with world. fold name.
  destruct (entry name (url request) w) as [c|]; [|reflexivity].
  fold now. destruct (isOlderThanMaxAge now c _); [reflexivity|].
  destruct (isFresh now c ttl || _); reflexivity.
Qed.



End NetworkFirst.

#[export] Hint Rewrite @nextReply_counted : world.

(** A concrete request is a handled read: every condition is computed. *)
Ltac handled :=
  unfold HandledRead;
  repeat match goal with
    | |- _ /\ _ => split
    | |- exists _, _ => eexists
    | |- _ = _ => vm_compute; reflexivity
    | |- _ \/ _ => first [left; vm_compute; reflexivity | right; vm_compute; eauto]
    end.


(** ** stale-while-revalidate *)

Section StaleWhileRevalidate.

Context {platform : URLPlatform}.
Implicit Types (cfg : Config) (request : Request) (w : World).

Lemma fresh_not_stale now c ttl staleTTL :
  isFresh now c ttl = true -> isStale now c ttl staleTTL = false.
Proof.
  unfold isFresh, isStale. destruct staleTTL as [s|]; [|reflexivity].
  destruct (getCacheTimestamp c) as [t|]; [|discriminate].
  cbv zeta. intros H%Z.ltb_lt.
  destruct (Z.leb_spec (ttl * 1000) (now - t)); [lia | reflexivity].
Qed.

Lemma revalidateNow_run cfg request w :
  revalidateNow cfg request w =
    let a := nextReply cfg request w in
    let w1 := called (latency a) (emit (Fetch request) w) in
    match reply a with
    | inl r => (Ok (Some r), stored cfg request r w1)
    | inr e => (Throw e, w1)
    end.
Proof.
  unfold revalidateNow, stored. rewrite bind_run, callFetch_run. cbv zeta.
  destruct (reply (nextReply cfg request w)) as [r|e]; [|reflexivity].
  unfold cacheIfOk. destruct (ok r); reflexivity.
Qed.

Lemma staleWhileRevalidate_run cfg request ttl staleTTL w :
  let name := cacheName cfg in
  let key := url request in
  let now := clock w in
  let w1 := emit (CacheMatch name key) (opened name w) in
  staleWhileRevalidate cfg request ttl staleTTL w =
    match entry name key w with
    | Some c =>
        if isOlderThanMaxAge now c (maxCacheAgeSeconds cfg)
        then revalidateNow cfg request
               (updCache name (fun c => snd (deleteEntries key false c))
                  (emit (CacheDelete name key false) w1))
        else if isFresh now c ttl || isStale now c ttl staleTTL
        then (Ok (Some c),
              if isStale now c ttl staleTTL
              then enqueue (RevalidateJob name request (reply (nextReply cfg request w)))
                     (called 0 (emit (Fetch request) w1))
              else w1)
        else revalidateNow cfg request w1
    | None => revalidateNow cfg request w1
    end.
Proof.
  intros name key now w1. unfold staleWhileRevalidate. mrun.
  autorewrite with world. fold name key now.
  destruct (entry name key w) as [c|]; [|reflexivity].
  destruct (isOlderThanMaxAge now c _); [reflexivity|].
  destruct (isFresh now c ttl); destruct (isStale now c ttl staleTTL);
    cbn [orb]; mrun; autorewrite with world; reflexivity.
Qed.

Lemma handleRequest_staleWhileRevalidate cfg request ttl staleTTL w :
  HandledRead cfg request "stale-while-revalidate" ttl staleTTL ->
  handleRequest cfg request w
  = staleWhileRevalidate cfg request ttl staleTTL (counted cfg w).
Proof. intros H. now rewrite (handleRequest_read _ _ _ _ _ _ H). Qed.

(** What the queued revalidation does when it runs in a world [v]. *)
Lemma runJob_revalidate name request answer v :
  (forall r, answer = inl r -> ok r = true -> holds name v ->
     entry name (url request) (runJob (RevalidateJob name request answer) v)
     = Some (addTimestamp (clock v) r))
  /\ (forall r, answer = inl r -> ok r = false ->
        runJob (RevalidateJob name request answer) v = v)
  /\ (forall e, answer = inr e ->
        runJob (RevalidateJob name request answer) v = v).
Proof.
  repeat split.
  - intros r -> Hok Hv. cbn [runJob]. rewrite Hok. mrun.
    rewrite entry_put by (held; exact Hv). now rewrite decide_True.
  - intros r -> Hok. cbn [runJob]. now rewrite Hok.
  - now intros e ->.
Qed.


End StaleWhileRevalidate.



(** ** cache-first *)

Section CacheFirst.

Context {platform : URLPlatform}.
Implicit Types (cfg : Config) (request : Request) (w : World).

Lemma cacheFirstNetwork_run cfg request ttl staleTTL cached w :
  cacheFirstNetwork cfg request ttl staleTTL cached w =
    let a := nextReply cfg request w in
    let w1 := called (latency a) (emit (Fetch request) w) in
    match reply a with
    | inl r => (Ok (Some r), stored cfg request r w1)
    | inr e =>
        (match cached with
         | Some c => if isStale (clock w1) c ttl staleTTL then Ok (Some c) else Throw e
         | None => Throw e
         end, w1)
    end.
Proof.
  unfold cacheFirstNetwork, stored. rewrite bind_attempt, callFetch_run. cbv zeta.
  destruct (reply (nextReply cfg request w)) as [r|e].
  - unfold cacheIfOk. destruct (ok r); reflexivity.
  - mrun. destruct cached as [c|]; [|reflexivity].
    destruct (isStale _ c ttl staleTTL); reflexivity.
Qed.

Lemma cacheFirst_run cfg request ttl staleTTL w :
  let name := cacheName cfg in
  let key := url request in
  let now := clock w in
  let w1 := emit (CacheMatch name key) (opened name w) in
  cacheFirst cfg request ttl staleTTL w =
    match entry name key w with
    | Some c =>
        if isFresh now c ttl then (Ok (Some c), w1)
        else cacheFirstNetwork cfg request ttl staleTTL (Some c)
               (if isOlderThanMaxAge now c (maxCacheAgeSeconds cfg)
                then updCache name (fun c => snd (deleteEntries key false c))
                       (emit (CacheDelete name key false) w1)
                else w1)
    | None => cacheFirstNetwork cfg request ttl staleTTL None w1
    end.
Proof.
  intros name key now w1. unfold cacheFirst. mrun.
  autorewrite with world. fold name key now.
  destruct (entry name key w) as [c|]; [|reflexivity].
  destruct (isFresh now c ttl); [reflexivity|].
  destruct (isOlderThanMaxAge now c _); reflexivity.
Qed.

Lemma handleRequest_cacheFirst cfg request ttl staleTTL w :
  HandledRead cfg request "cache-first" ttl staleTTL ->
  handleRequest cfg request w
  = cacheFirst cfg request ttl staleTTL (counted cfg w).
Proof. intros H. now rewrite (handleRequest_read _ _ _ _ _ _ H). Qed.

(** A fresh entry is the answer, and the network is not called. *)
Lemma cacheFirst_hit cfg request ttl staleTTL w c :
  HandledRead cfg request "cache-first" ttl staleTTL ->
  entry (cacheName cfg) (url request) w = Some c ->
  isFresh (clock w) c ttl = true ->
  fst (handleRequest cfg request w) = Ok (Some c)
  /\ netCalls (snd (handleRequest cfg request w)) = netCalls w
  /\ events (snd (handleRequest cfg request w))
     = (events (counted cfg w)
          ++ [CachesOpen (cacheName cfg); CacheMatch (cacheName cfg) (url request)])%list.
Proof.
  intros H Hentry Hfresh.
  rewrite (handleRequest_cacheFirst _ _ _ _ _ H), cacheFirst_run. cbv zeta.
  autorewrite with world. rewrite Hentry, Hfresh. cbn [fst snd].
  autorewrite with world. now rewrite <- app_assoc.
Qed.

(** Without a fresh entry the network is called; its answer is returned,
    and stored under the timestamp of that moment when its status is 2xx. *)
Lemma cacheFirst_miss cfg request ttl staleTTL w r :
  HandledRead cfg request "cache-first" ttl staleTTL ->
  (forall c, entry (cacheName cfg) (url request) w = Some c ->
             isFresh (clock w) c ttl = false) ->
  reply (nextReply cfg request w) = inl r ->
  fst (handleRequest cfg request w) = Ok (Some r)
  /\ netCalls (snd (handleRequest cfg request w)) = S (netCalls w)
  /\ (ok r = true ->
      entry (cacheName cfg) (url request) (snd (handleRequest cfg request w))
      = Some (addTimestamp (clock w + latency (nextReply cfg request w)) r)).
Proof.
  intros H Hstale Hr.
  rewrite (handleRequest_cacheFirst _ _ _ _ _ H), cacheFirst_run. cbv zeta.
  autorewrite with world.
  destruct (entry (cacheName cfg) (url request) w) as [c|] eqn:Hentry.
  - rewrite (Hstale c eq_refl), cacheFirstNetwork_run. cbv zeta.
    destruct (isOlderThanMaxAge (clock w) c (maxCacheAgeSeconds cfg));
      autorewrite with world; rewrite Hr; cbn [fst snd]; unfold stored;
      (split; [reflexivity|]); (split; [destruct (ok r); now autorewrite with world|]);
      intros Hok; rewrite Hok; rewrite entry_put by held;
      rewrite decide_True by done; now autorewrite with world.
  - rewrite cacheFirstNetwork_run. cbv zeta. autorewrite with world. rewrite Hr.
    cbn [fst snd]. unfold stored.
    split; [reflexivity|]. split; [destruct (ok r); now autorewrite with world|].
    intros Hok. rewrite Hok. rewrite entry_put by held.
    rewrite decide_True by done. now autorewrite with world.
Qed.

(** The network throws: an entry that is stale at that moment is the
    answer, also when the same turn has just deleted it for its age. *)
Lemma cacheFirst_offline cfg request ttl staleTTL w e :
  HandledRead cfg request "cache-first" ttl staleTTL ->
  (forall c, entry (cacheName cfg) (url request) w = Some c ->
             isFresh (clock w) c ttl = false) ->
  reply (nextReply cfg request w) = inr e ->
  let later := clock w + latency (nextReply cfg request w) in
  fst (handleRequest cfg request w) =
    match entry (cacheName cfg) (url request) w with
    | Some c => if isStale later c ttl staleTTL then Ok (Some c) else Throw e
    | None => Throw e
    end.
Proof.
  intros H Hstale Hr later.
  rewrite (handleRequest_cacheFirst _ _ _ _ _ H), cacheFirst_run. cbv zeta.
  autorewrite with world.
  destruct (entry (cacheName cfg) (url request) w) as [c|] eqn:Hentry.
  - rewrite (Hstale c eq_refl), cacheFirstNetwork_run. cbv zeta.
    destruct (isOlderThanMaxAge (clock w) c (maxCacheAgeSeconds cfg));
      autorewrite with world; rewrite Hr; reflexivity.
  - rewrite cacheFirstNetwork_run. cbv zeta. autorewrite with world.
    now rewrite Hr.
Qed.

(** X14. cache-first, the round trip.  A first read with nothing cached
    stores the 2xx answer of the network; a second read of the same
    request, [dt] ms later and within the TTL, is answered with that
    entry, whose payload is the one of the network, and calls the network
    no more. *)
Theorem X14_cache_first_round_trip cfg request ttl staleTTL w r dt :
  HandledRead cfg request "cache-first" ttl staleTTL ->
  entry (cacheName cfg) (url request) w = None ->
  reply (nextReply cfg request w) = inl r ->
  ok r = true ->
  let first := handleRequest cfg request w in
  let second := handleRequest cfg request (tick dt (snd first)) in
  dt < ttl * 1000 ->
  fst first = Ok (Some r)
  /\ (exists stamp,
        fst second = Ok (Some (addTimestamp stamp r))
        /\ body (addTimestamp stamp r) = body r
        /\ status (addTimestamp stamp r) = status r)
  /\ netCalls (snd second) = netCalls (snd first).
Proof.
  intros H Hnone Hr Hok first second Hdt.
  assert (Hfirst : first =
    (Ok (Some r),
     stored cfg request r
       (called (latency (nextReply cfg request w))
          (emit (Fetch request)
             (emit (CacheMatch (cacheName cfg) (url request))
                (opened (cacheName cfg) (counted cfg w))))))).
  { subst first. rewrite (handleRequest_cacheFirst _ _ _ _ _ H), cacheFirst_run.
    cbv zeta. autorewrite with world. rewrite Hnone, cacheFirstNetwork_run.
    cbv zeta. autorewrite with world. now rewrite Hr. }
  subst second. rewrite Hfirst. cbn [fst snd]. split; [reflexivity|].
  unfold stored. rewrite Hok. autorewrite with world.
  set (stamp := clock w + latency (nextReply cfg request w)).
  set (w1 := updCache _ _ _).
  assert (Hentry : entry (cacheName cfg) (url request) (tick dt w1)
                   = Some (addTimestamp stamp r)).
  { change (entry (cacheName cfg) (url request) (tick dt w1))
      with (entry (cacheName cfg) (url request) w1).
    subst w1. rewrite entry_put by held. now rewrite decide_True. }
  assert (Hfresh : isFresh (clock (tick dt w1)) (addTimestamp stamp r) ttl = true).
  { unfold isFresh. rewrite getCacheTimestamp_addTimestamp.
    change (clock (tick dt w1)) with (clock w1 + dt).
    subst w1. autorewrite with world. fold stamp. apply Z.ltb_lt. lia. }
  destruct (cacheFirst_hit _ _ _ _ _ _ H Hentry Hfresh) as (Hres & Hcalls & _).
  split; [exists stamp; split; [exact Hres | split; reflexivity]|].
  rewrite Hcalls. change (netCalls (tick dt w1)) with (netCalls w1).
  subst w1. now autorewrite with world.
Qed.

End CacheFirst.

(** Two reads of /api/users, one second apart. *)
Lemma X14_cache_first_round_trip_witness :
  let cfg := Example.config "cache-first" (Example.online "data") in
  let request := Example.get Example.users in
  let w := Example.world 0 [] in
  let first := handleRequest (platform := SimpleURL.platform) cfg request w in
  let second := handleRequest (platform := SimpleURL.platform) cfg request
                  (tick 1000 (snd first)) in
  fst first = Ok (Some (Example.response "data" 200))
  /\ netCalls (snd second) = netCalls (snd first).
Proof.
  intros cfg request w first second.
  assert (H : HandledRead (platform := SimpleURL.platform)
                cfg request "cache-first" 300 (Some 3600)) by handled.
  destruct (X14_cache_first_round_trip (platform := SimpleURL.platform)
              cfg request 300 (Some 3600) w (Example.response "data" 200) 1000
              H eq_refl eq_refl eq_refl ltac:(lia))
    as (H1 & _ & H2).
  split; [exact H1 | exact H2].
Defined.

(** C1 fails on the code. The stale TTL (10000 s, from the request) exceeds
    the maximum age (7200 s); the entry is 8000 s old, so not fresh, older
    than the maximum age, and stale.  The network throws.  The handler
    deletes the entry and then answers with it, where C1 lets the network
    error through because no stale entry that is not retention-expired
    exists. *)
Lemma C1_cache_first_serves_deleted_entry :
  let cfg := Example.config "cache-first" Example.offline in
  let request :=
    Example.getWith Example.users [(CACHE_STALE_TTL_HEADER, "10000")] in
  let c := Example.cachedAt 0 "old" in
  let w := Example.world 8000000 [(Example.users, c)] in
  let run := handleRequest (platform := SimpleURL.platform) cfg request w in
  HandledRead (platform := SimpleURL.platform)
    cfg request "cache-first" 300 (Some 10000)
  /\ entry "api-cache" Example.users w = Some c
  /\ isFresh (clock w) c 300 = false
  /\ isOlderThanMaxAge (clock w) c 7200 = true
  /\ isStale (clock w) c 300 (Some 10000) = true
  /\ fst run = Ok (Some c)
  /\ entry "api-cache" Example.users (snd run) = None.
Proof.
  intros cfg request c w run.
  split; [handled|]. repeat split; vm_compute; reflexivity.
Qed.

(** ** The TTL directive *)

Section TTLDirective.

Context {platform : URLPlatform}.
Implicit Types (cfg : Config) (request : Request) (w : World).

Lemma getTTL_directive h d v :
  getHeader h CACHE_TTL_HEADER = Some v ->
  getTTL h d =
    match Str.parseInt v with
    | Some ttl => if ttl <=? 0 then None else Some ttl
    | None => None
    end.
Proof. unfold getTTL. now intros ->. Qed.

Lemma getTTL_absent h d :
  getHeader h CACHE_TTL_HEADER = None ->
  getTTL h d = if 0 <? d then Some d else None.
Proof. unfold getTTL. now intros ->. Qed.

Lemma getTTL_opt_out h d v :
  getHeader h CACHE_TTL_HEADER = Some v ->
  (forall ttl, Str.parseInt v = Some ttl -> ttl <= 0) ->
  getTTL h d = None.
Proof.
  intros Hv Hle. rewrite (getTTL_directive _ _ _ Hv).
  destruct (Str.parseInt v) as [ttl|]; [|reflexivity].
  specialize (Hle ttl eq_refl). destruct (Z.leb_spec ttl 0); [reflexivity | lia].
Qed.

Lemma matchesScope_parsed cfg request u :
  newURL (url request) = Some u ->
  exists b, matchesScope (url request) (scope cfg) (defaultTTLSeconds cfg) = Ok b.
Proof.
  intros Hu. unfold matchesScope. destruct (scope cfg); [eauto|].
  rewrite Hu. eauto.
Qed.

(** C8, as the code has it. A GET request without clear or invalidation
    directive whose TTL directive is 0, negative or not a number is not
    handled: the handler returns null, calls the network not at all, looks
    nothing up in the cache and leaves every entry as it was; the only
    operation it may issue is the opening of the cache for the periodic
    cleanup.  The default TTL plays no part. *)
Theorem C8_ttl_directive_opts_out cfg request w v :
  getHeader (headers request) CACHE_CLEAR_HEADER = None ->
  getAllHeaders (headers request) CACHE_INVALIDATE_HEADER = [] ->
  method request = "GET" ->
  getHeader (headers request) CACHE_TTL_HEADER = Some v ->
  (forall ttl, Str.parseInt v = Some ttl -> ttl <= 0) ->
  let w' := snd (handleRequest cfg request w) in
  fst (handleRequest cfg request w) = Ok None
  /\ netCalls w' = netCalls w
  /\ (exists evs,
        events w' = (events w ++ evs)%list
        /\ Forall (fun e => e = CachesOpen (cacheName cfg)) evs)
  /\ (forall n k, entry n k w' = entry n k w).
Proof.
  intros Hclear Hinv Hget Hv Hle w'. subst w'.
  assert (Hrun : handleRequest cfg request w = (Ok None, w)
                 \/ handleRequest cfg request w = (Ok None, counted cfg w)).
  { unfold handleRequest. rewrite Hclear, Hinv, Hget.
    cbn [length Nat.ltb Nat.leb orb isMutation existsb String.eqb Ascii.eqb
         Bool.eqb andb negb].
    rewrite andb_false_r. cbn [negb orb].
    destruct (newURL (url request)) as [u|] eqn:Hu; [|now left].
    destruct (crossOrigin cfg u); [now left|]. right.
    rewrite bind_run, countFetch_run.
    destruct (matchesScope_parsed cfg request u Hu) as [b ->].
    rewrite (getTTL_opt_out _ _ _ Hv Hle). mrun.
    now destruct (negb b && _). }
  destruct Hrun as [-> | ->]; cbn [fst snd].
  - repeat split. exists []. now rewrite app_nil_r.
  - split; [reflexivity|]. split; [apply netCalls_counted|].
    split; [|intros; apply entry_counted].
    rewrite events_counted. eexists. split; [reflexivity|].
    destruct (sweepsAt _); repeat constructor.
Qed.

End TTLDirective.

(** A TTL directive of -10 in scope: not handled. *)
Lemma C8_ttl_directive_opts_out_witness :
  let cfg := Example.config "cache-first" (Example.online "data") in
  let request := Example.getWith Example.users [(CACHE_TTL_HEADER, "-10")] in
  let w := Example.world 0 [] in
  matchesScope (platform := SimpleURL.platform)
    (url request) (scope cfg) (defaultTTLSeconds cfg) = Ok true
  /\ fst (handleRequest (platform := SimpleURL.platform) cfg request w) = Ok None
  /\ netCalls (snd (handleRequest (platform := SimpleURL.platform) cfg request w)) = 0%nat.
Proof.
  intros cfg request w. split; [reflexivity|].
  assert (Hle : forall ttl, Str.parseInt "-10" = Some ttl -> ttl <= 0).
  { intros ttl E. vm_compute in E. injection E as <-. lia. }
  destruct (C8_ttl_directive_opts_out (platform := SimpleURL.platform)
              cfg request w "-10" eq_refl eq_refl eq_refl eq_refl Hle)
    as (Hres & Hcalls & _).
  split; [exact Hres | exact Hcalls].
Defined.

(** C8 as stated fails: a negative or non-numeric TTL directive is not
    treated as absent.  With the default TTL of 300 s and the URL in scope,
    the request without directive is handled (the network answers), the
    same request with the directive -10 or abc is not. *)
Lemma C8_bad_directive_is_not_absent :
  let cfg := Example.config "cache-first" (Example.online "data") in
  let w := Example.world 0 [] in
  let run h := fst (handleRequest (platform := SimpleURL.platform)
                      cfg (Example.getWith Example.users h) w) in
  run [] = Ok (Some (Example.response "data" 200))
  /\ run [(CACHE_TTL_HEADER, "-10")] = Ok None
  /\ run [(CACHE_TTL_HEADER, "abc")] = Ok None
  /\ getTTL [] 300 = Some 300
  /\ getTTL [(CACHE_TTL_HEADER, "-10")] 300 = None
  /\ getTTL [(CACHE_TTL_HEADER, "abc")] 300 = None.
Proof. intros cfg w run. repeat split; vm_compute; reflexivity. Qed.

(** ** Periodic cleanup *)

Section Periodic.

Context {platform : URLPlatform}.
Implicit Types (cfg : Config) (w : World).

Lemma counter_climbs cfg w (n : nat) :
  fetchCounter w = 1 -> (n <= 98)%nat ->
  fetchCounter (Nat.iter n (counted cfg) w) = 1 + Z.of_nat n.
Proof.
  intros H1. induction n as [|n IH]; intros Hn; [cbn; lia|].
  rewrite Nat.iter_succ, fetchCounter_counted, IH by lia.
  rewrite Z.rem_small by lia.
  destruct (Z.eqb_spec (1 + Z.of_nat n + 1) 0); lia.
Qed.

(** Once the counter is back at 1, the next 98 reads start no cleanup and
    the 99th does. *)
Lemma cleanup_period cfg w :
  fetchCounter w = 1 ->
  (forall n, (n < 98)%nat ->
     sweepsAt (fetchCounter (Nat.iter n (counted cfg) w) + 1) = false)
  /\ sweepsAt (fetchCounter (Nat.iter 98 (counted cfg) w) + 1) = true
  /\ fetchCounter (Nat.iter 99 (counted cfg) w) = 1.
Proof.
  intros H1. split; [|split].
  - intros n Hn. rewrite counter_climbs by (assumption || lia).
    unfold sweepsAt. rewrite Z.rem_small by lia.
    destruct (Z.eqb_spec (1 + Z.of_nat n + 1) 1); [lia|].
    destruct (Z.eqb_spec (1 + Z.of_nat n + 1) 0); [lia | reflexivity].
  - rewrite counter_climbs by (assumption || lia). reflexivity.
  - rewrite Nat.iter_succ, fetchCounter_counted.
    rewrite counter_climbs by (assumption || lia). reflexivity.
Qed.

End Periodic.

Section Sweep.

Context {platform : URLPlatform}.
Implicit Types (w : World) (name key : string).

Lemma cleanupEntry_run name maxAge key w :
  holds name w ->
  exists w',
    cleanupEntry name maxAge key w = (Ok tt, w')
    /\ holds name w' /\ clock w' = clock w
    /\ forall k,
         entry name k w' =
           match entry name k w with
           | Some r =>
               if bool_decide (k = key) && isOlderThanMaxAge (clock w) r maxAge
               then None else Some r
           | None => None
           end.
Proof.
  intros Hw. unfold cleanupEntry. mrun. autorewrite with world.
  destruct (entry name key w) as [r|] eqn:Hr.
  - destruct (isOlderThanMaxAge (clock w) r maxAge) eqn:Hold; mrun.
    + eexists. split; [reflexivity|]. split; [held; exact Hw|].
      split; [reflexivity|]. intros k.
      erewrite entry_delete; [|held; exact Hw | autorewrite with world; exact Hr].
      autorewrite with world.
      destruct (decide (k = key)) as [->|Hne].
      * rewrite decide_True by done. rewrite Hr, bool_decide_eq_true_2 by done.
        cbn. now rewrite Hold.
      * rewrite decide_False by tauto. rewrite bool_decide_eq_false_2 by done.
        now destruct (entry name k w).
    + eexists. split; [reflexivity|]. split; [held; exact Hw|].
      split; [reflexivity|]. intros k. autorewrite with world.
      destruct (entry name k w) as [r'|] eqn:Hk; [|reflexivity].
      destruct (bool_decide_reflect (k = key)) as [->|]; [|reflexivity].
      cbn. assert (r' = r) as -> by congruence. now rewrite Hold.
  - eexists. split; [reflexivity|]. split; [held; exact Hw|].
    split; [reflexivity|]. intros k. autorewrite with world.
    destruct (entry name k w) as [r'|] eqn:Hk; [|reflexivity].
    destruct (bool_decide_reflect (k = key)) as [->|]; [congruence | reflexivity].
Qed.

Lemma sweepEach_run name maxAge keys w :
  holds name w ->
  exists w',
    forEach keys (cleanupEntry name maxAge) w = (Ok tt, w')
    /\ forall k,
         entry name k w' =
           match entry name k w with
           | Some r =>
               if bool_decide (k ∈ keys) && isOlderThanMaxAge (clock w) r maxAge
               then None else Some r
           | None => None
           end.
Proof.
  revert w. induction keys as [|key keys IH]; intros w Hw.
  - exists w. split; [reflexivity|]. intros k.
    rewrite bool_decide_eq_false_2 by apply not_elem_of_nil.
    now destruct (entry name k w).
  - cbn [forEach]. rewrite bind_run.
    destruct (cleanupEntry_run name maxAge key w Hw) as (w1 & -> & Hw1 & Hc1 & He1).
    destruct (IH w1 Hw1) as (w' & -> & He).
    exists w'. split; [reflexivity|]. intros k.
    rewrite He, He1, Hc1.
    destruct (entry name k w) as [r|]; [|reflexivity].
    destruct (isOlderThanMaxAge (clock w) r maxAge) eqn:Hold.
    + rewrite !andb_true_r.
      destruct (bool_decide_reflect (k = key)) as [->|Hne].
      * rewrite (bool_decide_eq_true_2 (key ∈ key :: keys)); [reflexivity | left].
      * rewrite Hold, andb_true_r.
        destruct (bool_decide_reflect (k ∈ keys)) as [Hin|Hnin].
        -- rewrite bool_decide_eq_true_2; [reflexivity | now right].
        -- rewrite bool_decide_eq_false_2; [reflexivity|].
           intros [?|?]%elem_of_cons; contradiction.
    + rewrite !andb_false_r. now rewrite Hold, andb_false_r.
Qed.

(** The cleanup deletes the entries whose age is at least the maximum
    age, and those only. *)
Lemma cleanup_deletes_old name maxAge w key :
  holds name w ->
  entry name key (runJob (CleanupJob name maxAge) w) =
    match entry name key w with
    | Some r => if isOlderThanMaxAge (clock w) r maxAge then None else Some r
    | None => None
    end.
Proof.
  intros Hw. cbn [runJob]. unfold cleanupEntries. mrun.
  destruct (sweepEach_run name maxAge (fst <$> map_to_list (theCache name w))
              (emit (CacheKeys name) w)) as (w' & E & He); [held; exact Hw|].
  rewrite E. cbn [snd]. rewrite He. autorewrite with world.
  destruct (entry name key w) as [r|] eqn:Hr; [|reflexivity].
  rewrite bool_decide_eq_true_2; [reflexivity|].
  apply list_elem_of_fmap. exists (key, r). split; [reflexivity|].
  now apply elem_of_map_to_list.
Qed.

Lemma cleanupOldCacheEntries_deletes_old name maxAge w key :
  entry name key (snd (cleanupOldCacheEntries name maxAge w)) =
    match entry name key w with
    | Some r => if isOlderThanMaxAge (clock w) r maxAge then None else Some r
    | None => None
    end.
Proof.
  unfold cleanupOldCacheEntries. mrun.
  change (snd (cleanupEntries name maxAge (opened name w)))
    with (runJob (CleanupJob name maxAge) (opened name w)).
  rewrite cleanup_deletes_old by apply holds_opened.
  now autorewrite with world.
Qed.

End Sweep.

(** C9 fails on the code. Of 300 successive reads of a fresh handler, the
    ones that start a cleanup are the 1st, the 100th, the 199th and the
    298th: after the cleanup of the 100th read the counter is 1, and the
    next cleanup comes 99 reads later, not 100. *)
Lemma C9_cleanup_every_99_reads :
  let cfg := Example.config "cache-first" (Example.online "data") in
  let request := Example.get Example.users in
  let w := Example.world 0 [] in
  cleanupTurns (platform := SimpleURL.platform) cfg request 300 1 w
  = [1; 100; 199; 298]
  /\ fetchCounter (turns (platform := SimpleURL.platform) cfg request 100 w) = 1
  /\ fetchCounter (turns (platform := SimpleURL.platform) cfg request 199 w) = 1
  /\ fetchCounter (turns (platform := SimpleURL.platform) cfg request 200 w) = 2.
Proof. intros cfg request w. repeat split; vm_compute; reflexivity. Qed.

(** ** Invalidation *)

Section Invalidation.

Context {platform : URLPlatform}.
Implicit Types (cfg : Config) (request : Request) (w : World).

Lemma deleteEach_run name urls w :
  exists w',
    forEach urls (fun url => cacheDelete name url true ;;; ret tt) w = (Ok tt, w')
    /\ events w' = (events w ++ map (fun t => CacheDelete name t true) urls)%list
    /\ netCalls w' = netCalls w
    /\ clock w' = clock w
    /\ jobs w' = jobs w.
Proof.
  revert w. induction urls as [|u urls IH]; intros w.
  - exists w. cbn. now rewrite app_nil_r.
  - cbn [forEach]. mrun.
    destruct (IH (updCache name (fun c => snd (deleteEntries u true c))
                    (emit (CacheDelete name u true) w)))
      as (w' & -> & Hev & Hn & Hc & Hj).
    exists w'. split; [reflexivity|].
    rewrite Hev, Hn, Hc, Hj. autorewrite with world.
    cbn [map]. now rewrite <- app_assoc.
Qed.

Lemma invalidateCache_run name urls w :
  exists w',
    invalidateCache name urls w = (Ok tt, w')
    /\ events w' = (events w ++ invalidating name urls)%list
    /\ netCalls w' = netCalls w
    /\ clock w' = clock w
    /\ jobs w' = jobs w.
Proof.
  unfold invalidateCache, invalidating. mrun.
  destruct (deleteEach_run name urls (opened name w)) as (w' & -> & Hev & Hn & Hc & Hj).
  exists w'. split; [reflexivity|].
  rewrite Hev, Hn, Hc, Hj. autorewrite with world. now rewrite <- app_assoc.
Qed.

(** The turn of a request that invalidates [paths]. *)
Lemma handleRequest_invalidating cfg request w paths :
  getHeader (headers request) CACHE_CLEAR_HEADER = None ->
  (0 <? length (getAllHeaders (headers request) CACHE_INVALIDATE_HEADER))%nat
    || (inferInvalidation cfg && isMutation (method request)) = true ->
  pathsToInvalidate cfg request = Ok paths ->
  paths <> [] ->
  events (snd (handleRequest cfg request w))
  = (events w
       ++ invalidating (cacheName cfg) (normalizePaths (url request) paths)
       ++ [Fetch request])%list
  /\ netCalls (snd (handleRequest cfg request w)) = S (netCalls w).
Proof.
  intros Hclear Hgo Hpaths Hne.
  unfold handleRequest. rewrite Hclear, Hgo, Hpaths. mrun.
  destruct paths as [|p paths]; [congruence|]. cbn [length Nat.ltb Nat.leb].
  rewrite bind_run.
  destruct (invalidateCache_run (cacheName cfg)
              (normalizePaths (url request) (p :: paths)) w)
    as (w' & -> & Hev & Hn & Hc & Hj).
  rewrite bind_run, callFetch_run. cbv zeta.
  destruct (reply (nextReply cfg request w')); mrun;
    autorewrite with world; rewrite Hev, Hn, <- app_assoc; auto.
Qed.

End Invalidation.

Section InvalidationTargets.

Context {platform : URLPlatform}.
Implicit Types (cfg : Config) (request : Request) (w : World).

Lemma isMutation_not_get m : isMutation m = true -> String.eqb m "GET" = false.
Proof.
  unfold isMutation. cbn [existsb]. rewrite !orb_true_iff.
  intros [H|[H|[H|[H|H]]]]; try discriminate;
    apply String.eqb_eq in H; subst; reflexivity.
Qed.

(** The path [parent/last], [last] being its final segment. *)
Lemma inferred_paths url u parent last :
  newURL url = Some u ->
  pathname u = parent +:+ "/" +:+ last ->
  Str.includes last "/" = false ->
  getInferredInvalidationPaths url =
    if String.eqb parent "" then Ok [url]
    else match newURLBase parent (origin u) with
         | Some p => Ok [url; href p]
         | None => Throw (TypeError "Invalid URL")
         end.
Proof.
  intros Hu Hpath Hlast. unfold getInferredInvalidationPaths. rewrite Hu, Hpath.
  change (parent +:+ "/" +:+ last) with (parent +:+ String "/" last).
  rewrite StrFacts.lastIndexOf_last by exact Hlast.
  rewrite StrFacts.substring0_app.
  destruct parent as [|c parent]; [reflexivity|].
  cbn [String.length]. destruct (Z.ltb_spec 0 (Z.of_nat (S (String.length parent)))); [|lia].
  reflexivity.
Qed.

Lemma normalizePaths_absolute url u paths :
  newURL url = Some u ->
  Forall (fun p => is_Some (newURL p)) paths ->
  normalizePaths url paths = paths.
Proof.
  intros Hu Hall. unfold normalizePaths. rewrite Hu.
  assert (E : mapOption
                (fun path =>
                   match newURL path with
                   | Some _ => Some path
                   | None => href <$> newURLBase path (origin u)
                   end) paths = Some paths).
  { induction Hall as [|p paths [x Hx] _ IH]; [reflexivity|].
    cbn [mapOption]. now rewrite Hx, IH. }
  now rewrite E.
Qed.

(** C6. For a mutating request without clear directive: explicit
    invalidation directives, when there are any, are the whole target set
    (each resolved against the origin of the request), whatever the
    inference setting; without them and with inference on, the targets are
    the URL of the request and, when the pathname is [parent/last] with a
    non-empty [parent], the URL of [parent] at the origin of the request;
    without them and with inference off, nothing is invalidated and the
    request is not handled.  The targets are what the turn deletes from
    the cache, query string ignored, before its one network call. *)
Theorem C6_invalidation_targets cfg request w :
  getHeader (headers request) CACHE_CLEAR_HEADER = None ->
  isMutation (method request) = true ->
  let explicit := getAllHeaders (headers request) CACHE_INVALIDATE_HEADER in
  let name := cacheName cfg in
  let w' := snd (handleRequest cfg request w) in
  (explicit <> [] ->
     events w'
     = (events w ++ invalidating name (normalizePaths (url request) explicit)
          ++ [Fetch request])%list)
  /\ (explicit = [] -> inferInvalidation cfg = true ->
      forall u parent last,
        newURL (url request) = Some u ->
        pathname u = parent +:+ "/" +:+ last ->
        Str.includes last "/" = false ->
        (parent = "" ->
           events w'
           = (events w ++ invalidating name [url request] ++ [Fetch request])%list)
        /\ (parent <> "" ->
            forall p,
              newURLBase parent (origin u) = Some p ->
              is_Some (newURL (href p)) ->
              events w'
              = (events w ++ invalidating name [url request; href p]
                   ++ [Fetch request])%list))
  /\ (explicit = [] -> inferInvalidation cfg = false ->
      fst (handleRequest cfg request w) = Ok None /\ w' = w).
Proof.
  intros Hclear Hmut explicit name w'. subst w'. split; [|split].
  - intros Hne.
    apply handleRequest_invalidating; [exact Hclear | | | exact Hne].
    + fold explicit. destruct explicit; [congruence | reflexivity].
    + unfold pathsToInvalidate. fold explicit. destruct explicit; [congruence | reflexivity].
  - intros Hnone Hinfer u parent last Hu Hpath Hlast.
    assert (Hgo : (0 <? length (getAllHeaders (headers request) CACHE_INVALIDATE_HEADER))%nat
                  || (inferInvalidation cfg && isMutation (method request)) = true).
    { rewrite Hinfer, Hmut. apply orb_true_r. }
    assert (Hpaths : pathsToInvalidate cfg request
                     = getInferredInvalidationPaths (url request)).
    { unfold pathsToInvalidate. fold explicit. now rewrite Hnone, Hinfer, Hmut. }
    rewrite (inferred_paths _ _ _ _ Hu Hpath Hlast) in Hpaths.
    split.
    + intros ->. cbn in Hpaths.
      destruct (handleRequest_invalidating cfg request w [url request]
                  Hclear Hgo Hpaths) as [Hev _]; [discriminate|].
      rewrite Hev. rewrite (normalizePaths_absolute _ u); [reflexivity | exact Hu |].
      repeat constructor. rewrite Hu. eauto.
    + intros Hparent p Hp Hparse.
      destruct (String.eqb_spec parent "") as [E|_]; [contradiction|].
      rewrite Hp in Hpaths.
      destruct (handleRequest_invalidating cfg request w [url request; href p]
                  Hclear Hgo Hpaths) as [Hev _]; [discriminate|].
      rewrite Hev. rewrite (normalizePaths_absolute _ u); [reflexivity | exact Hu |].
      repeat constructor; [rewrite Hu; eauto | exact Hparse].
  - intros Hnone Hinfer. unfold handleRequest. fold explicit.
    rewrite Hclear, Hnone, Hinfer, (isMutation_not_get _ Hmut). cbn. auto.
Qed.

End InvalidationTargets.

(** A PATCH of /api/users/123 with inference on deletes the entries of
    /api/users/123 and of /api/users, then calls the network. *)
Lemma C6_invalidation_targets_witness :
  let cfg := Example.config "cache-first" (Example.online "done") in
  let request := mkRequest "https://example.com/api/users/123" "PATCH" [] in
  let w := Example.world 0 [] in
  isMutation (method request) = true
  /\ events (snd (handleRequest (platform := SimpleURL.platform) cfg request w))
     = [CachesOpen "api-cache";
        CacheDelete "api-cache" "https://example.com/api/users/123" true;
        CacheDelete "api-cache" "https://example.com/api/users" true;
        Fetch request].
Proof.
  intros cfg request w. split; [reflexivity|].
  destruct (C6_invalidation_targets (platform := SimpleURL.platform)
              cfg request w eq_refl eq_refl) as (_ & Hinferred & _).
  destruct (Hinferred eq_refl eq_refl
              (mkURL "https://example.com" "/api/users/123"
                 "https://example.com/api/users/123")
              "/api/users" "123" eq_refl eq_refl eq_refl) as [_ Hparent].
  rewrite (Hparent ltac:(discriminate)
             (mkURL "https://example.com" "/api/users" "https://example.com/api/users")
             eq_refl ltac:(vm_compute; eauto)).
  reflexivity.
Defined.

Section Directives.

Context {platform : URLPlatform}.
Implicit Types (cfg : Config) (request : Request) (w : World).

Lemma comma_space : ", " <> "".
Proof. discriminate. Qed.

(** C10. When the request carries one invalidation header, of value
    [value], the targets are the pieces of [value] between the occurrences
    of a comma followed by a space: joined by that separator they give
    [value] back, none of them contains the separator, and a value that
    contains it gives at least two targets.  These targets, each resolved
    against the origin of the request, are what the turn deletes before
    its network call. *)
Theorem C10_directive_split cfg request w value :
  getHeader (headers request) CACHE_CLEAR_HEADER = None ->
  headerValues (headers request) CACHE_INVALIDATE_HEADER = [value] ->
  let targets := Str.split value ", " in
  Str.join ", " targets = value
  /\ Forall (fun t => Str.includes t ", " = false) targets
  /\ (Str.includes value ", " = true -> (2 <= length targets)%nat)
  /\ getAllHeaders (headers request) CACHE_INVALIDATE_HEADER = targets
  /\ events (snd (handleRequest cfg request w))
     = (events w
          ++ invalidating (cacheName cfg) (normalizePaths (url request) targets)
          ++ [Fetch request])%list.
Proof.
  intros Hclear Hvalue targets.
  pose proof (StrFacts.join_split value ", " comma_space) as Hjoin.
  pose proof (StrFacts.pieces_split value ", " comma_space) as Hpieces.
  assert (Hne : targets <> []) by apply StrFacts.splitFuel_nonempty.
  assert (Hall : getAllHeaders (headers request) CACHE_INVALIDATE_HEADER = targets).
  { rewrite getAllHeaders_values, Hvalue. cbn [flat_map]. apply app_nil_r. }
  fold targets in Hjoin, Hpieces.
  split; [exact Hjoin|]. split; [exact Hpieces|]. split; [|split; [exact Hall|]].
  - intros Hin. destruct targets as [|t [|t' rest]]; [congruence | | cbn; lia].
    cbn in Hjoin. subst t. apply Forall_inv in Hpieces. cbn beta in Hpieces. congruence.
  - apply handleRequest_invalidating; [exact Hclear | | | exact Hne].
    + rewrite Hall. destruct targets; [congruence | reflexivity].
    + unfold pathsToInvalidate. rewrite Hall. destruct targets; [congruence | reflexivity].
Qed.

End Directives.

(** One header naming two paths: two targets. *)
Lemma C10_directive_split_witness :
  let cfg := Example.config "cache-first" (Example.online "done") in
  let request :=
    mkRequest "https://example.com/api/users/123" "PATCH"
      [(CACHE_INVALIDATE_HEADER, "/api/teams, /api/users")] in
  let w := Example.world 0 [] in
  headerValues (headers request) CACHE_INVALIDATE_HEADER = ["/api/teams, /api/users"]
  /\ events (snd (handleRequest (platform := SimpleURL.platform) cfg request w))
     = [CachesOpen "api-cache";
        CacheDelete "api-cache" "https://example.com/api/teams" true;
        CacheDelete "api-cache" "https://example.com/api/users" true;
        Fetch request].
Proof.
  intros cfg request w. split; [reflexivity|].
  destruct (C10_directive_split (platform := SimpleURL.platform)
              cfg request w "/api/teams, /api/users" eq_refl eq_refl)
    as (_ & _ & _ & _ & Hev).
  rewrite Hev. reflexivity.
Defined.

Section InvalidateCache.

Context {platform : URLPlatform}.
Implicit Types (w : World).

Lemma samePath_spec p key :
  samePath p key = true <-> exists k, newURL key = Some k /\ pathname k = p.
Proof.
  unfold samePath. destruct (newURL key) as [k|].
  - rewrite String.eqb_eq. split; [eauto | now intros (k' & [= <-] & ?)].
  - split; [discriminate | now intros (k & [=] & _)].
Qed.

Lemma dropPath_lookup p (c : gmap string Response) key :
  dropPath p c !! key = if samePath p key then None else c !! key.
Proof.
  unfold dropPath. destruct (samePath p key) eqn:E.
  - apply map_lookup_filter_None. right. intros x _. cbn. congruence.
  - destruct (c !! key) as [x|] eqn:Hx.
    + apply map_lookup_filter_Some. split; [exact Hx | exact E].
    + apply map_lookup_filter_None. now left.
Qed.

Lemma invalidateCache_one name target t w key :
  newURL target = Some t ->
  entry name key (snd (invalidateCache name [target] w))
  = if samePath (pathname t) key then None else entry name key w.
Proof.
  intros Ht. unfold invalidateCache. cbn [forEach]. mrun.
  unfold entry. rewrite theCache_updCache by held.
  rewrite decide_True by reflexivity.
  rewrite theCache_emit, theCache_opened.
  unfold deleteEntries. cbn [negb andb]. rewrite Ht. cbn [snd].
  apply dropPath_lookup.
Qed.

End InvalidateCache.

(** C7. Invalidating a target that parses deletes from the cache the
    entries whose URL has the pathname of the target, whatever their query
    string, and no other entry.  So it is with /api/users: its entry and
    the ones with the queries org_id=123 and status=active go, the entry of
    /api/posts stays. *)
Theorem C7_invalidation_by_pathname :
  (forall (platform : URLPlatform) name target t w key,
      newURL target = Some t ->
      let w' := snd (invalidateCache name [target] w) in
      (forall k, newURL key = Some k -> pathname k = pathname t ->
                 entry name key w' = None)
      /\ (forall k, newURL key = Some k -> pathname k <> pathname t ->
                    entry name key w' = entry name key w)
      /\ (newURL key = None -> entry name key w' = entry name key w))
  /\ (let c := Example.cachedAt 0 "data" in
      let w := Example.world 0
                 [("https://example.com/api/users", c);
                  ("https://example.com/api/users?org_id=123", c);
                  ("https://example.com/api/users?status=active", c);
                  ("https://example.com/api/posts", c)] in
      let w' := snd (invalidateCache (platform := SimpleURL.platform)
                       "api-cache" ["https://example.com/api/users"] w) in
      entry "api-cache" "https://example.com/api/users" w' = None
      /\ entry "api-cache" "https://example.com/api/users?org_id=123" w' = None
      /\ entry "api-cache" "https://example.com/api/users?status=active" w' = None
      /\ entry "api-cache" "https://example.com/api/posts" w' = Some c).
Proof.
  split.
  - intros platform name target t w key Ht w'. subst w'.
    rewrite (invalidateCache_one _ _ _ _ _ Ht).
    split; [|split].
    + intros k Hk Hp. assert (E : samePath (pathname t) key = true)
        by (apply samePath_spec; eauto). now rewrite E.
    + intros k Hk Hp. destruct (samePath (pathname t) key) eqn:E; [|reflexivity].
      apply samePath_spec in E as (k' & Hk' & Hp'). congruence.
    + intros Hk. destruct (samePath (pathname t) key) eqn:E; [|reflexivity].
      apply samePath_spec in E as (k' & Hk' & _). congruence.
  - repeat split; vm_compute; reflexivity.
Qed.

(** ** What is written to the cache *)

Section Keeps.

Variable R : World -> World -> Prop.
Hypothesis R_refl : forall w, R w w.
Hypothesis R_trans : forall a b c, R a b -> R b c -> R a c.

Lemma keeps_ret {A} (a : A) : keeps R (ret a).
Proof. intros w. apply R_refl. Qed.

Lemma keeps_throw {A} e : keeps R (throw (A := A) e).
Proof. intros w. apply R_refl. Qed.

Lemma keeps_liftResult {A} (r : Result A) : keeps R (liftResult r).
Proof. intros w. apply R_refl. Qed.

Lemma keeps_dateNow : keeps R dateNow.
Proof. intros w. apply R_refl. Qed.

Lemma keeps_getCounter : keeps R getCounter.
Proof. intros w. apply R_refl. Qed.

Lemma keeps_bind {A B} (m : M A) (k : A -> M B) :
  keeps R m -> (forall a, keeps R (k a)) -> keeps R (bind m k).
Proof.
  intros Hm Hk w. unfold bind. specialize (Hm w).
  destruct (m w) as [[a|e] w1]; cbn [snd] in *; [|exact Hm].
  eapply R_trans; [exact Hm | apply Hk].
Qed.

Lemma keeps_attempt {A} (m : M A) : keeps R m -> keeps R (attempt m).
Proof.
  intros Hm w. unfold attempt. specialize (Hm w).
  now destruct (m w) as [[a|e] w1].
Qed.

Lemma keeps_forEach {A} (l : list A) (f : A -> M unit) :
  (forall a, keeps R (f a)) -> keeps R (forEach l f).
Proof.
  intros Hf. induction l as [|x l IH]; cbn [forEach].
  - apply keeps_ret.
  - apply keeps_bind; [apply Hf | intros _; exact IH].
Qed.

Lemma keeps_modify (f : World -> World) :
  (forall w, R w (f w)) -> keeps R (modify f).
Proof. intros Hf w. apply Hf. Qed.

End Keeps.

Section Writes.

Context {platform : URLPlatform}.
Implicit Types (cfg : Config) (request : Request) (w : World).

Lemma Cacheable_addTimestamp t r : ok r = true -> Cacheable (addTimestamp t r).
Proof.
  intros Hok. exists r, t. repeat split; [exact Hok|].
  apply getCacheTimestamp_addTimestamp.
Qed.

Lemma WritesWhole_refl w : WritesWhole w w.
Proof.
  split; [exists []; split; [now rewrite app_nil_r | constructor] | now left].
Qed.

Lemma WritesWhole_trans a b c :
  WritesWhole a b -> WritesWhole b c -> WritesWhole a c.
Proof.
  intros [(e1 & He1 & Hf1) Hab] [(e2 & He2 & Hf2) Hbc]. split.
  - exists (e1 ++ e2)%list. split; [now rewrite He2, He1, <- app_assoc|].
    apply Forall_app; auto.
  - intros n k. destruct (Hbc n k) as [E | [E | E]]; [|now right; left|now right; right].
    rewrite E. apply Hab.
Qed.

(** One operation: the event [e] and entries that stay, go, or become
    cacheable responses. *)
Lemma WritesWhole_step w w' e :
  events w' = (events w ++ [e])%list ->
  writesCacheable e ->
  (forall n k,
      entry n k w' = entry n k w
      \/ entry n k w' = None
      \/ exists response, entry n k w' = Some response /\ Cacheable response) ->
  WritesWhole w w'.
Proof.
  intros He Hw Hentries. split; [|exact Hentries].
  exists [e]. split; [exact He | now constructor].
Qed.

(** A step that neither issues an operation nor touches an entry. *)
Lemma WritesWhole_quiet w w' :
  events w' = events w ->
  (forall n k, entry n k w' = entry n k w) ->
  WritesWhole w w'.
Proof.
  intros He Hentries. split; [|intros; left; apply Hentries].
  exists []. split; [now rewrite app_nil_r | constructor].
Qed.

Lemma deleteEntries_lookup key ignoreSearch (c : gmap string Response) k :
  snd (deleteEntries key ignoreSearch c) !! k = c !! k
  \/ snd (deleteEntries key ignoreSearch c) !! k = None.
Proof.
  unfold deleteEntries.
  destruct (negb ignoreSearch && bool_decide (is_Some (c !! key))); cbn [snd].
  { destruct (decide (k = key)) as [->|Hne];
      [right; apply lookup_delete_eq | left; now apply lookup_delete_ne]. }
  destruct (if ignoreSearch then newURL key else None) as [u|]; cbn [snd].
  { rewrite dropPath_lookup. destruct (samePath _ k); auto. }
  destruct (Str.startsWith key "/"); cbn [snd]; [|now left].
  rewrite dropPath_lookup. destruct (samePath _ k); auto.
Qed.

Lemma keeps_cachesOpen name : keeps WritesWhole (cachesOpen name).
Proof.
  intros w. cbn. eapply WritesWhole_step; [reflexivity | exact I |].
  intros n k. left. apply entry_opened.
Qed.

Lemma keeps_cachesDelete name : keeps WritesWhole (cachesDelete name).
Proof.
  intros w. cbn [cachesDelete snd].
  eapply WritesWhole_step; [reflexivity | exact I |].
  intros n k. unfold entry, theCache. cbn.
  destruct (decide (n = name)) as [->|Hne].
  - right; left. now rewrite lookup_delete_eq.
  - left. now rewrite lookup_delete_ne.
Qed.

Lemma keeps_cacheMatch name key : keeps WritesWhole (cacheMatch name key).
Proof.
  intros w. cbn. eapply WritesWhole_step; [reflexivity | exact I | now left].
Qed.

Lemma keeps_cacheKeys name : keeps WritesWhole (cacheKeys name).
Proof.
  intros w. cbn. eapply WritesWhole_step; [reflexivity | exact I | now left].
Qed.

Lemma keeps_cacheDelete name key ignoreSearch :
  keeps WritesWhole (cacheDelete name key ignoreSearch).
Proof.
  intros w. cbn [cacheDelete snd].
  eapply WritesWhole_step; [reflexivity | exact I |].
  intros n k. unfold entry.
  destruct (theCache_updCache_cases n name
              (fun c => snd (deleteEntries key ignoreSearch c))
              (emit (CacheDelete name key ignoreSearch) w)) as [E | [-> E]];
    rewrite E; [now left|].
  rewrite theCache_emit.
  destruct (deleteEntries_lookup key ignoreSearch (theCache name w) k); auto.
Qed.

Lemma keeps_cachePut name key t r :
  ok r = true -> keeps WritesWhole (cachePut name key (addTimestamp t r)).
Proof.
  intros Hok w. cbn [cachePut modify snd].
  eapply WritesWhole_step;
    [reflexivity | now apply Cacheable_addTimestamp |].
  intros n k. unfold entry.
  destruct (theCache_updCache_cases n name
              (fun c => <[key := addTimestamp t r]> c)
              (emit (CachePut name key (addTimestamp t r)) w)) as [E | [-> E]];
    rewrite E; [now left|].
  rewrite theCache_emit. destruct (decide (k = key)) as [->|Hne].
  - right; right. rewrite lookup_insert_eq. eexists. split; [reflexivity|].
    now apply Cacheable_addTimestamp.
  - left. now rewrite lookup_insert_ne.
Qed.

Lemma keeps_callFetch cfg request : keeps WritesWhole (callFetch cfg request).
Proof.
  intros w. rewrite callFetch_run. cbv zeta.
  destruct (reply (nextReply cfg request w)); cbn [snd];
    (eapply WritesWhole_step; [reflexivity | exact I | now left]).
Qed.

Lemma keeps_startRevalidation cfg request :
  keeps WritesWhole (startRevalidation cfg request).
Proof.
  intros w. cbn. eapply WritesWhole_step; [reflexivity | exact I | now left].
Qed.

Lemma keeps_enqueue j : keeps WritesWhole (modify (enqueue j)).
Proof. intros w. now apply WritesWhole_quiet. Qed.

Lemma keeps_setFetchCounter (f : World -> Z) :
  keeps WritesWhole (modify (fun w => setFetchCounter (f w) w)).
Proof. intros w. now apply WritesWhole_quiet. Qed.

Lemma keeps_cacheIfOk cfg request r : keeps WritesWhole (cacheIfOk cfg request r).
Proof.
  unfold cacheIfOk. destruct (ok r) eqn:Hok; [|apply keeps_ret, WritesWhole_refl].
  apply keeps_bind; [apply WritesWhole_trans | apply keeps_dateNow, WritesWhole_refl |].
  intros now. now apply keeps_cachePut.
Qed.

End Writes.

Create HintDb writes.

#[export] Hint Resolve
  keeps_cachesOpen keeps_cachesDelete keeps_cacheMatch keeps_cacheKeys
  keeps_cacheDelete keeps_callFetch keeps_startRevalidation keeps_enqueue
  keeps_setFetchCounter keeps_cacheIfOk WritesWhole_refl : writes.

(** Decompose a computation into the operations that keep [WritesWhole]. *)
Ltac writes :=
  repeat first
    [ apply keeps_bind; [apply WritesWhole_trans | | intros ?]
    | apply keeps_attempt
    | apply keeps_ret; apply WritesWhole_refl
    | apply keeps_throw; apply WritesWhole_refl
    | apply keeps_liftResult; apply WritesWhole_refl
    | apply keeps_dateNow; apply WritesWhole_refl
    | apply keeps_getCounter; apply WritesWhole_refl
    | apply keeps_forEach;
        [apply WritesWhole_refl | apply WritesWhole_trans | intros ?]
    | solve [auto with writes]
    | progress cbv zeta
    | match goal with
      | |- keeps _ (match ?x with _ => _ end) => destruct x
      end ].

Section WritesAll.

Context {platform : URLPlatform}.
Implicit Types (cfg : Config) (request : Request) (w : World).

Lemma keeps_startCleanup cfg : keeps WritesWhole (startCleanup cfg).
Proof. unfold startCleanup. writes. Qed.

Lemma keeps_countFetch cfg : keeps WritesWhole (countFetch cfg).
Proof.
  unfold countFetch. writes.
Qed.

Lemma keeps_cacheFirst cfg request ttl staleTTL :
  keeps WritesWhole (cacheFirst cfg request ttl staleTTL).
Proof. unfold cacheFirst, cacheFirstNetwork. writes. Qed.

Lemma keeps_networkFirst cfg request ttl staleTTL :
  keeps WritesWhole (networkFirst cfg request ttl staleTTL).
Proof. unfold networkFirst. writes. Qed.

Lemma keeps_staleWhileRevalidate cfg request ttl staleTTL :
  keeps WritesWhole (staleWhileRevalidate cfg request ttl staleTTL).
Proof. unfold staleWhileRevalidate, revalidateNow. writes. Qed.

Lemma keeps_invalidateCache name urls : keeps WritesWhole (invalidateCache name urls).
Proof. unfold invalidateCache. writes. Qed.

Lemma keeps_cleanupEntries name maxAge : keeps WritesWhole (cleanupEntries name maxAge).
Proof. unfold cleanupEntries. writes. Qed.

Lemma keeps_handleRequest cfg request : keeps WritesWhole (handleRequest cfg request).
Proof.
  unfold handleRequest, clearCache. writes.
Qed.

Lemma WritesWhole_runJob j w : WritesWhole w (runJob j w).
Proof.
  destruct j as [name maxAge | name request [r|e]]; cbn [runJob].
  - apply keeps_cleanupEntries.
  - destruct (ok r) eqn:Hok; [|apply WritesWhole_refl].
    now apply keeps_cachePut.
  - apply WritesWhole_refl.
Qed.

End WritesAll.


(** * Further properties of the code *)

(** ** Headers and directives *)

Section HelperFacts.

Lemma getHeader_headersSet_other name value h other :
  Str.toLowerCase other <> Str.toLowerCase name ->
  getHeader (headersSet name value h) other = getHeader h other.
Proof.
  intros Hne. unfold headersSet.
  induction h as [|[k v] h IH]; cbn [List.filter fst app getHeader].
  - rewrite StrFacts.toLowerCase_idem.
    destruct (String.eqb_spec (Str.toLowerCase name) (Str.toLowerCase other));
      [congruence | reflexivity].
  - destruct (String.eqb_spec (Str.toLowerCase k) (Str.toLowerCase name)) as [E|E];
      cbn [negb app getHeader].
    + destruct (String.eqb_spec (Str.toLowerCase k) (Str.toLowerCase other));
        [congruence | exact IH].
    + destruct (String.eqb (Str.toLowerCase k) (Str.toLowerCase other));
        [reflexivity | exact IH].
Qed.

(** X1. [addTimestamp] keeps the status, the status text, the body and
    every header of another name; the timestamp it writes is the one
    [getCacheTimestamp] reads, also when the response carried an older
    one. *)
Theorem X1_addTimestamp_keeps_response now response :
  status (addTimestamp now response) = status response
  /\ statusText (addTimestamp now response) = statusText response
  /\ body (addTimestamp now response) = body response
  /\ ok (addTimestamp now response) = ok response
  /\ (forall name,
        Str.toLowerCase name <> Str.toLowerCase CACHE_TIMESTAMP_HEADER ->
        getHeader (rheaders (addTimestamp now response)) name
        = getHeader (rheaders response) name)
  /\ getCacheTimestamp (addTimestamp now response) = Some now
  /\ (forall earlier,
        getCacheTimestamp (addTimestamp now (addTimestamp earlier response))
        = Some now).
Proof.
  repeat split.
  - intros name Hne. cbn [addTimestamp rheaders].
    now apply getHeader_headersSet_other.
  - apply getCacheTimestamp_addTimestamp.
  - intros earlier. apply getCacheTimestamp_addTimestamp.
Qed.

Lemma getHeader_lower_name h name :
  getHeader h (Str.toLowerCase name) = getHeader h name.
Proof.
  induction h as [|[k v] h IH]; [reflexivity|]. cbn [getHeader].
  now rewrite StrFacts.toLowerCase_idem, IH.
Qed.

Lemma getHeader_lowerKeys h name : getHeader (lowerKeys h) name = getHeader h name.
Proof.
  induction h as [|[k v] h IH]; [reflexivity|]. cbn [lowerKeys map getHeader fst snd].
  rewrite StrFacts.toLowerCase_idem. fold (lowerKeys h). now rewrite IH.
Qed.

Lemma getAllHeaders_lower_name h name :
  getAllHeaders h (Str.toLowerCase name) = getAllHeaders h name.
Proof.
  induction h as [|[k v] h IH]; [reflexivity|]. cbn [getAllHeaders].
  now rewrite StrFacts.toLowerCase_idem, IH.
Qed.

(** X2. Header lookup ignores case: two names that agree in lower case
    find the same value with [getHeader] and the same values with
    [getAllHeaders], and the case of the keys of the headers plays no part. *)
Theorem X2_header_lookup_ignores_case h name name' :
  Str.toLowerCase name = Str.toLowerCase name' ->
  getHeader h name = getHeader h name'
  /\ getAllHeaders h name = getAllHeaders h name'
  /\ getHeader (lowerKeys h) name = getHeader h name.
Proof.
  intros E. split; [|split].
  - now rewrite <- (getHeader_lower_name h name), E, getHeader_lower_name.
  - now rewrite <- (getAllHeaders_lower_name h name), E, getAllHeaders_lower_name.
  - apply getHeader_lowerKeys.
Qed.

Lemma split_nonempty v sep : Str.split v sep <> [].
Proof. apply StrFacts.splitFuel_nonempty. Qed.

(** X3. [getAllHeaders] gives no value exactly when [getHeader] finds no
    header: a header that is present gives at least one value, also when
    its value is empty. *)
Theorem X3_getAllHeaders_nil_iff h name :
  getAllHeaders h name = [] <-> getHeader h name = None.
Proof.
  induction h as [|[k v] h IH]; [split; reflexivity|]. cbn [getAllHeaders getHeader].
  destruct (String.eqb _ _); [|exact IH].
  split; [|discriminate]. intros E. apply app_eq_nil in E as [E _].
  now apply split_nonempty in E.
Qed.

End HelperFacts.

Lemma X2_header_lookup_ignores_case_witness :
  getHeader [("X-SW-Cache-Clear", "1")] "x-sw-cache-clear"
  = getHeader [("X-SW-Cache-Clear", "1")] "X-SW-CACHE-CLEAR".
Proof.
  exact (proj1 (X2_header_lookup_ignores_case [("X-SW-Cache-Clear", "1")]
                  "x-sw-cache-clear" "X-SW-CACHE-CLEAR" eq_refl)).
Defined.

Section DirectiveFacts.

Context {platform : URLPlatform}.

Lemma getStaleTTL_positive h d s : getStaleTTL h d = Some s -> 0 < s.
Proof.
  unfold getStaleTTL. destruct (getHeader h CACHE_STALE_TTL_HEADER) as [v|].
  - destruct (Str.parseInt v) as [t|]; [|discriminate].
    destruct (Z.leb_spec t 0); [discriminate|]. intros [= <-]. lia.
  - destruct (Z.ltb_spec 0 d); [|discriminate]. intros [= <-]. lia.
Qed.

(** X4. The TTL and the stale TTL that a request resolves to are positive
    whenever there is one, whatever the headers and the defaults; and a
    directive that prints a positive integer is the value resolved,
    whatever the default. *)
Theorem X4_resolved_ttls_are_positive h d :
  (forall ttl, getTTL h d = Some ttl -> 0 < ttl)
  /\ (forall staleTTL, getStaleTTL h d = Some staleTTL -> 0 < staleTTL)
  /\ (forall n, 0 < n ->
        getHeader h CACHE_TTL_HEADER = Some (Str.toString n) ->
        getTTL h d = Some n)
  /\ (forall n, 0 < n ->
        getHeader h CACHE_STALE_TTL_HEADER = Some (Str.toString n) ->
        getStaleTTL h d = Some n).
Proof.
  split; [intros ttl; apply getTTL_positive|].
  split; [intros s; apply getStaleTTL_positive|].
  split; intros n Hn Hv.
  - unfold getTTL. rewrite Hv, StrFacts.parseInt_toString.
    destruct (Z.leb_spec n 0); [lia | reflexivity].
  - unfold getStaleTTL. rewrite Hv, StrFacts.parseInt_toString.
    destruct (Z.leb_spec n 0); [lia | reflexivity].
Qed.

Lemma existsb_eqb_In s l : existsb (String.eqb s) l = true <-> In s l.
Proof.
  rewrite existsb_exists. split.
  - intros (x & Hx & E). apply String.eqb_eq in E. now subst.
  - intros H. exists s. split; [exact H | apply String.eqb_refl].
Qed.

(** X5. The strategy a request resolves to is the default, unless the
    strategy header holds one of the three strategy names, which is then
    the result; so it is one of the three names whenever the default is,
    and a header of any other value changes nothing. *)
Theorem X5_getStrategy_is_valid h d :
  (getStrategy h d = d
   \/ (In (getStrategy h d) strategies
       /\ getHeader h CACHE_STRATEGY_HEADER = Some (getStrategy h d)))
  /\ (In d strategies -> In (getStrategy h d) strategies)
  /\ (forall v, getHeader h CACHE_STRATEGY_HEADER = Some v ->
        getStrategy h d = if bool_decide (In v strategies) then v else d).
Proof.
  unfold getStrategy.
  destruct (getHeader h CACHE_STRATEGY_HEADER) as [v|]; [|repeat split; auto; discriminate].
  destruct (existsb (String.eqb v) strategies) eqn:E.
  - apply existsb_eqb_In in E as Hin.
    assert (Hv : String.eqb v "" = false).
    { destruct (String.eqb_spec v ""); [|reflexivity]. subst.
      cbn in Hin. intuition discriminate. }
    rewrite Hv. cbn [negb andb].
    split; [right; auto|]. split; [auto|].
    intros v' [= <-]. now rewrite bool_decide_eq_true_2.
  - rewrite andb_false_r. split; [now left|]. split; [auto|].
    intros v' [= <-]. rewrite bool_decide_eq_false_2; [reflexivity|].
    intros Hin%existsb_eqb_In. congruence.
Qed.

(** X6. The three predicates on one entry at one moment: a fresh entry is
    not stale; with a TTL (a stale TTL) no longer than the maximum age, a
    fresh (a stale) entry is not older than the maximum age, so that the
    reactive cleanup never deletes an entry that could be served; and with
    a TTL no longer than the stale TTL, a dated entry is fresh or stale
    exactly while its age is below the stale TTL. *)
Theorem X6_usable_entries_are_retained now c ttl staleTTL maxAge :
  (isFresh now c ttl = true -> isStale now c ttl (Some staleTTL) = false)
  /\ (ttl <= maxAge -> isFresh now c ttl = true ->
      isOlderThanMaxAge now c maxAge = false)
  /\ (staleTTL <= maxAge -> isStale now c ttl (Some staleTTL) = true ->
      isOlderThanMaxAge now c maxAge = false)
  /\ (forall timestamp, getCacheTimestamp c = Some timestamp ->
        ttl <= staleTTL ->
        isFresh now c ttl || isStale now c ttl (Some staleTTL)
        = (now - timestamp <? staleTTL * 1000)).
Proof.
  unfold isFresh, isStale, isOlderThanMaxAge.
  destruct (getCacheTimestamp c) as [t|]; cbv zeta.
  - repeat split.
    + intros H%Z.ltb_lt. destruct (Z.leb_spec (ttl * 1000) (now - t)); [lia | reflexivity].
    + intros Hle H%Z.ltb_lt. apply Z.leb_gt. lia.
    + intros Hle [_ H%Z.ltb_lt]%andb_true_iff. apply Z.leb_gt. lia.
    + intros t' [= <-] Hle.
      destruct (Z.ltb_spec (now - t) (ttl * 1000)),
               (Z.leb_spec (ttl * 1000) (now - t)),
               (Z.ltb_spec (now - t) (staleTTL * 1000)); cbn; lia || reflexivity.
  - repeat split; try discriminate.
Qed.

End DirectiveFacts.

Section SweepFacts.

Context {platform : URLPlatform}.
Implicit Types (w : World) (name key : string).

Lemma cleanupOldCacheEntries_run name maxAge w :
  exists w',
    cleanupOldCacheEntries name maxAge w = (Ok tt, w')
    /\ forall key,
         entry name key w' =
           match entry name key w with
           | Some r => if isOlderThanMaxAge (clock w) r maxAge then None else Some r
           | None => None
           end.
Proof.
  unfold cleanupOldCacheEntries, cleanupEntries. mrun.
  destruct (sweepEach_run name maxAge (fst <$> map_to_list (theCache name (opened name w)))
              (emit (CacheKeys name) (opened name w))) as (w' & E & He); [held|].
  exists w'. split; [exact E|]. intros key. rewrite He. autorewrite with world.
  destruct (entry name key w) as [r|] eqn:Hr; [|reflexivity].
  rewrite bool_decide_eq_true_2; [reflexivity|].
  apply list_elem_of_fmap. exists (key, r). split; [reflexivity|].
  apply elem_of_map_to_list. rewrite theCache_opened. exact Hr.
Qed.

(** X7. cleanupOldCacheEntries completes without an error, also when the
    storage holds no such cache; afterwards the cache holds exactly the
    entries it held that are not older than the maximum age, unchanged: an
    entry that remains is not older than the maximum age, and an entry
    without a readable timestamp is never removed. *)
Theorem X7_cleanup_removes_exactly_the_old name maxAge w :
  let run := cleanupOldCacheEntries name maxAge w in
  fst run = Ok tt
  /\ (forall key r,
        entry name key (snd run) = Some r
        <-> entry name key w = Some r
            /\ isOlderThanMaxAge (clock w) r maxAge = false)
  /\ (forall key r,
        entry name key w = Some r -> getCacheTimestamp r = None ->
        entry name key (snd run) = Some r).
Proof.
  intros run. subst run.
  destruct (cleanupOldCacheEntries_run name maxAge w) as (w' & -> & He).
  cbn [fst snd]. split; [reflexivity|]. split.
  - intros key r. rewrite He.
    destruct (entry name key w) as [r'|]; [|split; [discriminate | now intros [? _]]].
    destruct (isOlderThanMaxAge (clock w) r' maxAge) eqn:Hold.
    + split; [discriminate|]. intros [[= ->] H]. congruence.
    + split; [intros [= ->]; auto | now intros [? _]].
  - intros key r Hr Hnone. rewrite He, Hr.
    now rewrite (proj2 (proj2 (no_timestamp_no_verdict (clock w) r Hnone 0 None maxAge))).
Qed.

End SweepFacts.

(** ** Requests that clear, that are left alone, that are not cached *)

Section ClearFacts.

Context {platform : URLPlatform}.
Implicit Types (cfg : Config) (request : Request) (w : World).

(** The turn of a request that carries the clear header. *)
Lemma handleRequest_clear cfg request w v :
  getHeader (headers request) CACHE_CLEAR_HEADER = Some v ->
  handleRequest cfg request w =
    (passedOn cfg request w,
     called (latency (nextReply cfg request w))
       (emit (Fetch request)
          (setCaches (delete (cacheName cfg) (caches w))
             (emit (CachesDelete (cacheName cfg)) w)))).
Proof.
  intros Hv. unfold handleRequest, clearCache, passedOn.
  rewrite Hv. mrun. rewrite bind_run, callFetch_run. cbv zeta.
  change (nextReply cfg request (setCaches _ (emit _ w)))
    with (nextReply cfg request w).
  now destruct (reply (nextReply cfg request w)).
Qed.

(** X8. A request that carries the clear header, whatever its value and
    its method, deletes the whole cache and then calls the network once:
    no entry of the cache is left, the other caches are as they were, and
    what the network answers or throws is the outcome.  The request is not
    counted for the periodic cleanup. *)
Theorem X8_clear_directive_empties_the_cache cfg request w v :
  getHeader (headers request) CACHE_CLEAR_HEADER = Some v ->
  let run := handleRequest cfg request w in
  fst run = passedOn cfg request w
  /\ events (snd run)
     = (events w ++ [CachesDelete (cacheName cfg); Fetch request])%list
  /\ netCalls (snd run) = S (netCalls w)
  /\ (forall key, entry (cacheName cfg) key (snd run) = None)
  /\ (forall n k, n <> cacheName cfg -> entry n k (snd run) = entry n k w)
  /\ fetchCounter (snd run) = fetchCounter w
  /\ jobs (snd run) = jobs w.
Proof.
  intros Hv run. subst run. rewrite (handleRequest_clear _ _ _ _ Hv).
  cbn [fst snd]. split; [reflexivity|].
  split; [cbn; now rewrite <- app_assoc|].
  split; [reflexivity|]. split; [|split; [|split; reflexivity]].
  - intros key. unfold entry, theCache. cbn. now rewrite lookup_delete_eq.
  - intros n k Hn. unfold entry, theCache. cbn.
    now rewrite lookup_delete_ne by congruence.
Qed.

(** X9. A request without clear and invalidation headers is left alone,
    and nothing at all happens (it is not counted, the cache is not
    opened, the network is not called), when its method is not GET and the
    inference is off or the method is no mutation, or when it is a GET
    whose URL does not parse or is of another origin than the service
    worker. *)
Theorem X9_unhandled_requests_touch_nothing cfg request w :
  getHeader (headers request) CACHE_CLEAR_HEADER = None ->
  getAllHeaders (headers request) CACHE_INVALIDATE_HEADER = [] ->
  (method request <> "GET"
   /\ (inferInvalidation cfg = false \/ isMutation (method request) = false))
  \/ (method request = "GET"
      /\ (newURL (url request) = None
          \/ exists requestUrl,
               newURL (url request) = Some requestUrl
               /\ crossOrigin cfg requestUrl = true)) ->
  handleRequest cfg request w = (Ok None, w).
Proof.
  intros Hclear Hinv Hcase. unfold handleRequest. rewrite Hclear, Hinv.
  cbn [length Nat.ltb Nat.leb orb].
  destruct Hcase as [[Hm Hoff] | [Hm Hurl]].
  - assert (E : inferInvalidation cfg && isMutation (method request) = false).
    { destruct Hoff as [-> | ->]; [reflexivity | apply andb_false_r]. }
    rewrite E. destruct (String.eqb_spec (method request) "GET"); [contradiction|].
    reflexivity.
  - rewrite Hm. cbn [isMutation existsb String.eqb Ascii.eqb Bool.eqb orb negb].
    rewrite andb_false_r.
    destruct Hurl as [-> | (u & -> & ->)]; reflexivity.
Qed.

(** X10. A same-origin GET without any directive that is out of scope, or
    that meets a default TTL that is not positive, is not handled: the
    handler returns null after counting the request, without a look at the
    cache and without a network call. *)
Theorem X10_reads_without_ttl_are_not_handled cfg request w requestUrl :
  getHeader (headers request) CACHE_CLEAR_HEADER = None ->
  getAllHeaders (headers request) CACHE_INVALIDATE_HEADER = [] ->
  method request = "GET" ->
  newURL (url request) = Some requestUrl ->
  crossOrigin cfg requestUrl = false ->
  getHeader (headers request) CACHE_TTL_HEADER = None ->
  matchesScope (url request) (scope cfg) (defaultTTLSeconds cfg) = Ok false
  \/ defaultTTLSeconds cfg <= 0 ->
  handleRequest cfg request w = (Ok None, counted cfg w)
  /\ netCalls (counted cfg w) = netCalls w
  /\ (forall n k, entry n k (counted cfg w) = entry n k w)
  /\ (exists evs,
        events (counted cfg w) = (events w ++ evs)%list
        /\ Forall (fun e => e = CachesOpen (cacheName cfg)) evs).
Proof.
  intros Hclear Hinv Hget Hu Hx Httl Hcase.
  split; [|split; [apply netCalls_counted|split; [intros; apply entry_counted|]]].
  - unfold handleRequest. rewrite Hclear, Hinv, Hget, Hu, Hx.
    cbn [length Nat.ltb Nat.leb orb isMutation existsb String.eqb Ascii.eqb
         Bool.eqb andb negb].
    rewrite andb_false_r. cbn [negb orb].
    rewrite bind_run, countFetch_run. rewrite Httl.
    rewrite bool_decide_eq_false_2 by (intros [? ?]; discriminate).
    destruct Hcase as [-> | Hle].
    + reflexivity.
    + destruct (matchesScope_parsed cfg request requestUrl Hu) as [b ->].
      rewrite (getTTL_absent _ _ Httl).
      destruct (Z.ltb_spec 0 (defaultTTLSeconds cfg)); [lia|].
      mrun. now destruct b.
  - rewrite events_counted. eexists. split; [reflexivity|].
    destruct (sweepsAt _); repeat constructor.
Qed.

End ClearFacts.

(** A HEAD request is none of the handler's business. *)
Lemma X9_unhandled_requests_touch_nothing_witness :
  let cfg := Example.config "cache-first" (Example.online "data") in
  let request := mkRequest Example.users "HEAD" [] in
  let w := Example.world 0 [] in
  handleRequest (platform := SimpleURL.platform) cfg request w = (Ok None, w).
Proof.
  intros cfg request w.
  apply (X9_unhandled_requests_touch_nothing (platform := SimpleURL.platform)
           cfg request w eq_refl eq_refl).
  left. split; [discriminate | right; reflexivity].
Defined.

(** A read of /static/app.js with the scope /api/. *)
Lemma X10_reads_without_ttl_are_not_handled_witness :
  let cfg := Example.config "cache-first" (Example.online "data") in
  let request := Example.get "https://example.com/static/app.js" in
  let w := Example.world 0 [] in
  fst (handleRequest (platform := SimpleURL.platform) cfg request w) = Ok None
  /\ netCalls (snd (handleRequest (platform := SimpleURL.platform) cfg request w)) = 0%nat.
Proof.
  intros cfg request w.
  destruct (X10_reads_without_ttl_are_not_handled (platform := SimpleURL.platform)
              cfg request w
              (mkURL "https://example.com" "/static/app.js"
                 "https://example.com/static/app.js")
              eq_refl eq_refl eq_refl eq_refl eq_refl eq_refl
              (or_introl eq_refl)) as (Hrun & Hcalls & _).
  rewrite Hrun. split; [reflexivity | exact Hcalls].
Defined.

(** A cache is cleared by a GET that carries the header. *)
Lemma X8_clear_directive_empties_the_cache_witness :
  let cfg := Example.config "cache-first" (Example.online "data") in
  let request := Example.getWith Example.users [(CACHE_CLEAR_HEADER, "true")] in
  let w := Example.world 0 [(Example.users, Example.cachedAt 0 "old")] in
  entry "api-cache" Example.users w
  = Some (Example.cachedAt 0 "old")
  /\ fst (handleRequest (platform := SimpleURL.platform) cfg request w)
     = Ok (Some (Example.response "data" 200))
  /\ entry "api-cache" Example.users
       (snd (handleRequest (platform := SimpleURL.platform) cfg request w)) = None.
Proof.
  intros cfg request w. split; [reflexivity|].
  destruct (X8_clear_directive_empties_the_cache (platform := SimpleURL.platform)
              cfg request w "true" eq_refl) as (Hres & _ & _ & Hgone & _).
  split; [exact Hres | apply Hgone].
Defined.

(** ** Invalidation, entry by entry *)

Section InvalidationFacts.

Context {platform : URLPlatform}.
Implicit Types (cfg : Config) (request : Request) (w : World).

Lemma deleteEntries_ignoreSearch target (c : gmap string Response) key :
  snd (deleteEntries target true c) !! key
  = if invalidates target key then None else c !! key.
Proof.
  unfold deleteEntries, invalidates. cbn [negb andb].
  destruct (newURL target) as [t|]; cbn [snd]; [apply dropPath_lookup|].
  destruct (Str.startsWith target "/"); cbn [snd andb];
    [apply dropPath_lookup | reflexivity].
Qed.

Lemma entry_invalidated n k name target w :
  holds name w ->
  entry n k (updCache name (fun c => snd (deleteEntries target true c)) w)
  = if decide (n = name)
    then if invalidates target k then None else entry n k w
    else entry n k w.
Proof.
  intros Hw. unfold entry. rewrite theCache_updCache by exact Hw.
  destruct (decide (n = name)) as [->|Hn]; [|reflexivity].
  apply deleteEntries_ignoreSearch.
Qed.

Lemma deleteEach_entries name urls w :
  holds name w ->
  exists w',
    forEach urls (fun url => cacheDelete name url true ;;; ret tt) w = (Ok tt, w')
    /\ fetchCounter w' = fetchCounter w
    /\ forall n k,
         entry n k w' =
           if decide (n = name)
           then if existsb (fun t => invalidates t k) urls then None else entry n k w
           else entry n k w.
Proof.
  revert w. induction urls as [|u urls IH]; intros w Hw.
  - exists w. split; [reflexivity|]. split; [reflexivity|].
    intros n k. cbn [existsb]. now destruct (decide (n = name)).
  - cbn [forEach]. mrun.
    destruct (IH (updCache name (fun c => snd (deleteEntries u true c))
                    (emit (CacheDelete name u true) w)))
      as (w' & -> & Hf & He); [held; exact Hw|].
    exists w'. split; [reflexivity|]. split; [rewrite Hf; reflexivity|].
    intros n k. rewrite He. cbn [existsb].
    rewrite entry_invalidated by (held; exact Hw). rewrite entry_emit.
    destruct (decide (n = name)) as [->|Hn]; [|reflexivity].
    destruct (invalidates u k); cbn [orb]; [|reflexivity].
    now destruct (existsb _ urls).
Qed.

Lemma invalidateCache_entries name urls w :
  exists w',
    invalidateCache name urls w = (Ok tt, w')
    /\ fetchCounter w' = fetchCounter w
    /\ forall n k,
         entry n k w' =
           if decide (n = name)
           then if existsb (fun t => invalidates t k) urls then None else entry n k w
           else entry n k w.
Proof.
  unfold invalidateCache. mrun.
  destruct (deleteEach_entries name urls (opened name w)) as (w' & -> & Hf & He);
    [apply holds_opened|].
  exists w'. split; [reflexivity|]. split; [rewrite Hf; reflexivity|].
  intros n k. rewrite He. now autorewrite with world.
Qed.

(** X12. invalidateCache with any list of targets: an entry of the cache
    is gone exactly when one of the targets invalidates it (by pathname,
    whatever the query strings), every other entry and every other cache
    is as it was; the network is not called. *)
Theorem X12_invalidateCache_deletes_by_target name targets w :
  let run := invalidateCache name targets w in
  fst run = Ok tt
  /\ (forall key,
        entry name key (snd run)
        = if existsb (fun t => invalidates t key) targets
          then None else entry name key w)
  /\ (forall n k, n <> name -> entry n k (snd run) = entry n k w)
  /\ netCalls (snd run) = netCalls w.
Proof.
  intros run. subst run.
  destruct (invalidateCache_run name targets w) as (w1 & E1 & _ & Hn & _).
  destruct (invalidateCache_entries name targets w) as (w' & E & _ & He).
  rewrite E in *. injection E1 as <-. cbn [fst snd].
  split; [reflexivity|]. split; [|split; [|exact Hn]].
  - intros key. rewrite He. now rewrite decide_True.
  - intros n k Hne. rewrite He. now rewrite decide_False.
Qed.

(** The turn of a request that invalidates: the paths, then the network. *)
Lemma handleRequest_invalidating_run cfg request w paths :
  getHeader (headers request) CACHE_CLEAR_HEADER = None ->
  (0 <? length (getAllHeaders (headers request) CACHE_INVALIDATE_HEADER))%nat
    || (inferInvalidation cfg && isMutation (method request)) = true ->
  pathsToInvalidate cfg request = Ok paths ->
  let targets := match paths with
                 | [] => []
                 | _ => normalizePaths (url request) paths
                 end in
  fst (handleRequest cfg request w) = passedOn cfg request w
  /\ netCalls (snd (handleRequest cfg request w)) = S (netCalls w)
  /\ fetchCounter (snd (handleRequest cfg request w)) = fetchCounter w
  /\ jobs (snd (handleRequest cfg request w)) = jobs w
  /\ forall n k,
       entry n k (snd (handleRequest cfg request w)) =
         if decide (n = cacheName cfg)
         then if existsb (fun t => invalidates t k) targets
              then None else entry n k w
         else entry n k w.
Proof.
  intros Hclear Hgo Hpaths targets. subst targets.
  unfold handleRequest, passedOn. rewrite Hclear, Hgo, Hpaths. mrun.
  destruct paths as [|p paths]; cbn [length Nat.ltb Nat.leb].
  - mrun. rewrite bind_run, callFetch_run. cbv zeta.
    destruct (reply (nextReply cfg request w)); cbn [fst snd bind ret];
      repeat split; intros; autorewrite with world; cbn [existsb];
      now destruct (decide _).
  - rewrite bind_run.
    destruct (invalidateCache_run (cacheName cfg)
                (normalizePaths (url request) (p :: paths)) w)
      as (w1 & E1 & _ & Hn & _ & Hj).
    destruct (invalidateCache_entries (cacheName cfg)
                (normalizePaths (url request) (p :: paths)) w)
      as (w' & E & Hf & He).
    rewrite E in *. injection E1 as <-.
    rewrite bind_run, callFetch_run. cbv zeta.
    assert (Ha : nextReply cfg request w' = nextReply cfg request w)
      by (unfold nextReply; now rewrite Hn).
    rewrite Ha.
    destruct (reply (nextReply cfg request w)); cbn [fst snd bind ret];
      (split; [reflexivity|]); (split; [cbn; now rewrite Hn|]);
      (split; [cbn; exact Hf|]); (split; [cbn; exact Hj|]);
      intros n k; autorewrite with world; apply He.
Qed.

(** X11. A request that invalidates (it carries an invalidation header,
    whatever its method and the inference setting, or it is a mutation
    with the inference on) is passed on to the network: its outcome is
    what the network answers or throws, after one network call.  The turn
    stores nothing: every entry of every cache is as it was or is gone.
    It is not counted for the periodic cleanup and queues nothing. *)
Theorem X11_invalidating_request_is_passed_on cfg request w paths :
  getHeader (headers request) CACHE_CLEAR_HEADER = None ->
  (0 <? length (getAllHeaders (headers request) CACHE_INVALIDATE_HEADER))%nat
    || (inferInvalidation cfg && isMutation (method request)) = true ->
  pathsToInvalidate cfg request = Ok paths ->
  let run := handleRequest cfg request w in
  fst run = passedOn cfg request w
  /\ netCalls (snd run) = S (netCalls w)
  /\ (forall n k, entry n k (snd run) = entry n k w \/ entry n k (snd run) = None)
  /\ fetchCounter (snd run) = fetchCounter w
  /\ jobs (snd run) = jobs w.
Proof.
  intros Hclear Hgo Hpaths run. subst run.
  destruct (handleRequest_invalidating_run cfg request w paths Hclear Hgo Hpaths)
    as (Hres & Hn & Hf & Hj & He).
  split; [exact Hres|]. split; [exact Hn|]. split; [|split; [exact Hf | exact Hj]].
  intros n k. rewrite He. destruct (decide _); [|now left].
  destruct (existsb _ _); [now right | now left].
Qed.

Lemma inferred_head url paths :
  getInferredInvalidationPaths url = Ok paths -> exists rest, paths = url :: rest.
Proof.
  unfold getInferredInvalidationPaths.
  destruct (newURL url) as [u|]; [|discriminate]. cbv zeta.
  destruct (0 <? _); [|intros [= <-]; eauto].
  destruct (String.eqb _ ""); [intros [= <-]; eauto|].
  destruct (newURLBase _ _); [intros [= <-]; eauto | discriminate].
Qed.

Lemma normalizePaths_head url u rest :
  newURL url = Some u ->
  exists rest', normalizePaths url (url :: rest) = url :: rest'.
Proof.
  intros Hu. unfold normalizePaths. rewrite Hu. cbn [mapOption]. rewrite Hu.
  destruct (mapOption _ rest); eauto.
Qed.

(** X13. A mutation (POST, PATCH, PUT, DELETE) without invalidation
    header, with the inference on, removes from the cache every entry
    whose URL has the pathname of the request, whatever its query string,
    before the request goes to the network. *)
Theorem X13_mutation_invalidates_its_resource cfg request w requestUrl paths :
  getHeader (headers request) CACHE_CLEAR_HEADER = None ->
  getAllHeaders (headers request) CACHE_INVALIDATE_HEADER = [] ->
  inferInvalidation cfg = true ->
  isMutation (method request) = true ->
  newURL (url request) = Some requestUrl ->
  getInferredInvalidationPaths (url request) = Ok paths ->
  forall key cachedUrl,
    newURL key = Some cachedUrl ->
    pathname cachedUrl = pathname requestUrl ->
    entry (cacheName cfg) key (snd (handleRequest cfg request w)) = None.
Proof.
  intros Hclear Hinv Hinfer Hmut Hu Hpaths key k Hk Hsame.
  assert (Hgo : (0 <? length (getAllHeaders (headers request) CACHE_INVALIDATE_HEADER))%nat
                || (inferInvalidation cfg && isMutation (method request)) = true).
  { rewrite Hinfer, Hmut. apply orb_true_r. }
  assert (Hp : pathsToInvalidate cfg request = Ok paths).
  { unfold pathsToInvalidate. now rewrite Hinv, Hinfer, Hmut. }
  destruct (handleRequest_invalidating_run cfg request w paths Hclear Hgo Hp)
    as (_ & _ & _ & _ & He).
  rewrite He, decide_True by reflexivity.
  destruct (inferred_head _ _ Hpaths) as [rest ->].
  destruct (normalizePaths_head _ _ rest Hu) as [rest' ->].
  cbn [existsb]. unfold invalidates at 1. rewrite Hu.
  assert (E : samePath (pathname requestUrl) key = true)
    by (apply samePath_spec; eauto).
  now rewrite E.
Qed.

End InvalidationFacts.

(** A GET that names a path to invalidate. *)
Lemma X11_invalidating_request_is_passed_on_witness :
  let cfg := Example.config "cache-first" (Example.online "data") in
  let request :=
    Example.getWith Example.users [(CACHE_INVALIDATE_HEADER, "/api/teams")] in
  let w := Example.world 0 [] in
  fst (handleRequest (platform := SimpleURL.platform) cfg request w)
  = Ok (Some (Example.response "data" 200))
  /\ netCalls (snd (handleRequest (platform := SimpleURL.platform) cfg request w)) = 1%nat.
Proof.
  intros cfg request w.
  destruct (X11_invalidating_request_is_passed_on (platform := SimpleURL.platform)
              cfg request w ["/api/teams"] eq_refl eq_refl eq_refl)
    as (Hres & Hcalls & _).
  split; [exact Hres | exact Hcalls].
Defined.

(** A DELETE of /api/users/123 removes the entry of /api/users/123?full=1. *)
Lemma X13_mutation_invalidates_its_resource_witness :
  let cfg := Example.config "cache-first" (Example.online "done") in
  let request := mkRequest "https://example.com/api/users/123" "DELETE" [] in
  let key := "https://example.com/api/users/123?full=1" in
  let w := Example.world 0 [(key, Example.cachedAt 0 "user")] in
  entry "api-cache" key w = Some (Example.cachedAt 0 "user")
  /\ entry "api-cache" key
       (snd (handleRequest (platform := SimpleURL.platform) cfg request w)) = None.
Proof.
  intros cfg request key w. split; [reflexivity|].
  apply (X13_mutation_invalidates_its_resource (platform := SimpleURL.platform)
           cfg request w
           (mkURL "https://example.com" "/api/users/123"
              "https://example.com/api/users/123")
           ["https://example.com/api/users/123"; "https://example.com/api/users"]
           eq_refl eq_refl eq_refl eq_refl eq_refl eq_refl key
           (mkURL "https://example.com" "/api/users/123"
              "https://example.com/api/users/123?full=1")
           eq_refl eq_refl).
Defined.

(** ** Where the outcome of a turn comes from *)

Section Outcomes.

Context {platform : URLPlatform}.
Implicit Types (cfg : Config) (request : Request) (w : World).

Lemma netCalls_stored cfg request r w : netCalls (stored cfg request r w) = netCalls w.
Proof. unfold stored. destruct (ok r); now autorewrite with world. Qed.

Ltac sourced :=
  repeat split; cbn [fst snd]; autorewrite with world;
  rewrite ?netCalls_stored; autorewrite with world;
  try solve [ intros ? [= <-]; auto | intros ? [=] | auto | discriminate
            | match goal with H : netCalls _ = netCalls _ |- _ => rewrite H; auto end ].

Lemma cacheFirstNetwork_sourced cfg request ttl staleTTL cached w0 w :
  nextReply cfg request w = nextReply cfg request w0 ->
  netCalls w = netCalls w0 ->
  (forall c, cached = Some c -> entry (cacheName cfg) (url request) w0 = Some c) ->
  Sourced cfg request w0 (cacheFirstNetwork cfg request ttl staleTTL cached w)
  /\ fst (cacheFirstNetwork cfg request ttl staleTTL cached w) <> Ok None.
Proof.
  intros Ha Hn Hc. rewrite cacheFirstNetwork_run. cbv zeta. rewrite Ha.
  destruct (reply (nextReply cfg request w0)) as [r|e] eqn:Hr.
  - sourced.
  - destruct cached as [c|]; [destruct (isStale _ c ttl staleTTL)|]; sourced.
Qed.

Lemma cacheFirst_sourced cfg request ttl staleTTL w :
  Sourced cfg request w (cacheFirst cfg request ttl staleTTL w)
  /\ fst (cacheFirst cfg request ttl staleTTL w) <> Ok None.
Proof.
  rewrite cacheFirst_run. cbv zeta.
  destruct (entry (cacheName cfg) (url request) w) as [c|] eqn:Hc.
  - destruct (isFresh (clock w) c ttl).
    + sourced.
    + apply cacheFirstNetwork_sourced.
      * destruct (isOlderThanMaxAge _ _ _); now autorewrite with world.
      * destruct (isOlderThanMaxAge _ _ _); now autorewrite with world.
      * now intros c' [= <-].
  - apply cacheFirstNetwork_sourced; [reflexivity | reflexivity | discriminate].
Qed.

Lemma networkFirst_sourced cfg request ttl staleTTL w :
  Sourced cfg request w (networkFirst cfg request ttl staleTTL w)
  /\ fst (networkFirst cfg request ttl staleTTL w) <> Ok None.
Proof.
  destruct (reply (nextReply cfg request w)) as [r|e] eqn:Hr.
  - rewrite (networkFirst_answer _ _ _ _ _ r Hr).
    destruct (ok r); sourced.
  - rewrite (networkFirst_failure _ _ _ _ _ e Hr).
    destruct (entry (cacheName cfg) (url request) w) as [c|] eqn:Hc;
      [destruct (isOlderThanMaxAge _ c _);
         [|destruct (isFresh _ c ttl || isStale _ c ttl staleTTL)]|];
      sourced.
Qed.

Lemma revalidateNow_sourced cfg request w0 w :
  nextReply cfg request w = nextReply cfg request w0 ->
  netCalls w = netCalls w0 ->
  Sourced cfg request w0 (revalidateNow cfg request w)
  /\ fst (revalidateNow cfg request w) <> Ok None.
Proof.
  intros Ha Hn. rewrite revalidateNow_run. cbv zeta. rewrite Ha.
  destruct (reply (nextReply cfg request w0)) as [r|e] eqn:Hr; sourced.
Qed.

Lemma staleWhileRevalidate_sourced cfg request ttl staleTTL w :
  Sourced cfg request w (staleWhileRevalidate cfg request ttl staleTTL w)
  /\ fst (staleWhileRevalidate cfg request ttl staleTTL w) <> Ok None.
Proof.
  rewrite staleWhileRevalidate_run. cbv zeta.
  destruct (entry (cacheName cfg) (url request) w) as [c|] eqn:Hc.
  - destruct (isOlderThanMaxAge _ c _).
    + apply revalidateNow_sourced; now autorewrite with world.
    + destruct (isFresh _ c ttl || isStale _ c ttl staleTTL).
      * destruct (isStale _ c ttl staleTTL); sourced.
      * apply revalidateNow_sourced; now autorewrite with world.
  - apply revalidateNow_sourced; now autorewrite with world.
Qed.

Lemma engine_sourced cfg request strategy ttl staleTTL w :
  Sourced cfg request w (engine cfg request strategy ttl staleTTL w).
Proof.
  unfold engine.
  destruct (String.eqb strategy "cache-first"); [apply cacheFirst_sourced|].
  destruct (String.eqb strategy "network-first"); [apply networkFirst_sourced|].
  destruct (String.eqb strategy "stale-while-revalidate");
    [apply staleWhileRevalidate_sourced|].
  repeat split; cbn; auto; discriminate.
Qed.

Lemma Sourced_counted cfg request w run :
  Sourced cfg request (counted cfg w) run -> Sourced cfg request w run.
Proof.
  unfold Sourced. now rewrite nextReply_counted, entry_counted, netCalls_counted.
Qed.

Lemma Sourced_quiet cfg request w a :
  Sourced cfg request w (Ok None, a) <-> netCalls a = netCalls w \/ netCalls a = S (netCalls w).
Proof.
  unfold Sourced. cbn [fst snd]. split; [now intros (_ & _ & H)|].
  intros H. repeat split; [discriminate | discriminate | exact H].
Qed.

Lemma handleRequest_sourced cfg request w :
  Sourced cfg request w (handleRequest cfg request w).
Proof.
  destruct (getHeader (headers request) CACHE_CLEAR_HEADER) as [v|] eqn:Hclear.
  { rewrite (handleRequest_clear _ _ _ _ Hclear).
    unfold Sourced, passedOn. cbn [fst snd]. autorewrite with world.
    change (netCalls (setCaches ?c ?x)) with (netCalls x).
    autorewrite with world.
    destruct (reply (nextReply cfg request w));
      repeat split; auto; try discriminate; intros ? [= <-]; auto. }
  destruct ((0 <? length (getAllHeaders (headers request) CACHE_INVALIDATE_HEADER))%nat
            || (inferInvalidation cfg && isMutation (method request))) eqn:Hgo.
  { destruct (pathsToInvalidate cfg request) as [paths|e] eqn:Hp.
    - destruct (handleRequest_invalidating_run cfg request w paths Hclear Hgo Hp)
        as (Hres & Hn & _).
      unfold Sourced. rewrite Hres, Hn. unfold passedOn.
      destruct (reply (nextReply cfg request w));
        repeat split; auto; try discriminate; intros ? [= <-]; auto.
    - unfold handleRequest. rewrite Hclear, Hgo, Hp. mrun.
      repeat split; cbn [fst snd]; auto; try discriminate.
      intros e' [= <-]. right.
      revert Hp. unfold pathsToInvalidate, getInferredInvalidationPaths.
      destruct (_ && _ && _); [|discriminate].
      destruct (newURL (url request)); [|now intros [= <-]]. cbv zeta.
      destruct (0 <? _); [|discriminate].
      destruct (String.eqb _ ""); [discriminate|].
      destruct (newURLBase _ _); [discriminate | now intros [= <-]]. }
  unfold handleRequest. rewrite Hclear, Hgo.
  destruct (negb (String.eqb (method request) "GET")); [apply Sourced_quiet; auto|].
  destruct (newURL (url request)) as [u|] eqn:Hu; [|apply Sourced_quiet; auto].
  destruct (crossOrigin cfg u); [apply Sourced_quiet; auto|].
  rewrite bind_run, countFetch_run.
  apply Sourced_counted.
  destruct (matchesScope_parsed cfg request u Hu) as [b ->]. mrun.
  destruct (negb b && _); [apply Sourced_quiet; auto|].
  destruct (getTTL _ _) as [ttl|]; [|apply Sourced_quiet; auto].
  destruct (ttl =? 0); [apply Sourced_quiet; auto|].
  apply engine_sourced.
Qed.

(** X19. Whatever the request and the world: a response that the turn
    returns is the answer of the network to the one call of this turn, or
    the entry that the cache held under the URL of the request when the
    turn began; an error that the turn throws is the one the network
    threw, or the TypeError of an URL that does not parse.  The handler
    makes up neither responses nor errors. *)
Theorem X19_outcome_comes_from_network_or_cache cfg request w :
  let run := handleRequest cfg request w in
  (forall r, fst run = Ok (Some r) ->
     reply (nextReply cfg request w) = inl r
     \/ entry (cacheName cfg) (url request) w = Some r)
  /\ (forall e, fst run = Throw e ->
        reply (nextReply cfg request w) = inr e
        \/ e = TypeError "Invalid URL").
Proof.
  intros run. destruct (handleRequest_sourced cfg request w) as (Hr & He & _).
  split; assumption.
Qed.

End Outcomes.

(** ** Relations kept by every operation *)

Section Invariant.

Context {platform : URLPlatform}.
Variable cfg : Config.
Variable R : World -> World -> Prop.
Hypothesis R_refl : forall w, R w w.
Hypothesis R_trans : forall a b c, R a b -> R b c -> R a c.
Hypothesis R_open : keeps R (cachesOpen (cacheName cfg)).
Hypothesis R_clear : keeps R (cachesDelete (cacheName cfg)).
Hypothesis R_match : forall key, keeps R (cacheMatch (cacheName cfg) key).
Hypothesis R_delete : forall key b, keeps R (cacheDelete (cacheName cfg) key b).
Hypothesis R_put : forall key response, keeps R (cachePut (cacheName cfg) key response).
Hypothesis R_fetch : forall request, keeps R (callFetch cfg request).
Hypothesis R_revalidate : forall request, keeps R (startRevalidation cfg request).

Ltac kept :=
  repeat first
    [ solve [auto]
    | apply keeps_bind; [exact R_trans | | intros ?]
    | apply keeps_attempt
    | apply keeps_ret; exact R_refl
    | apply keeps_throw; exact R_refl
    | apply keeps_liftResult; exact R_refl
    | apply keeps_dateNow; exact R_refl
    | apply keeps_forEach; [exact R_refl | exact R_trans | intros ?]
    | progress cbv zeta
    | match goal with
      | |- keeps _ (match ?x with _ => _ end) => destruct x
      end ].

Lemma kept_cacheIfOk request r : keeps R (cacheIfOk cfg request r).
Proof. unfold cacheIfOk. kept. Qed.

Lemma kept_cacheFirst request ttl staleTTL :
  keeps R (cacheFirst cfg request ttl staleTTL).
Proof. pose proof kept_cacheIfOk. unfold cacheFirst, cacheFirstNetwork. kept. Qed.

Lemma kept_networkFirst request ttl staleTTL :
  keeps R (networkFirst cfg request ttl staleTTL).
Proof. pose proof kept_cacheIfOk. unfold networkFirst. kept. Qed.

Lemma kept_staleWhileRevalidate request ttl staleTTL :
  keeps R (staleWhileRevalidate cfg request ttl staleTTL).
Proof. pose proof kept_cacheIfOk. unfold staleWhileRevalidate, revalidateNow. kept. Qed.


Lemma kept_invalidateCache urls : keeps R (invalidateCache (cacheName cfg) urls).
Proof. unfold invalidateCache. kept. Qed.

(** A turn of the handler keeps [R] from the world it starts in, or, when
    the request is counted, from that world with the request counted. *)
Lemma kept_turn request w :
  if counts cfg request
  then R (counted cfg w) (snd (handleRequest cfg request w))
  else R w (snd (handleRequest cfg request w)).
Proof.
  pose proof kept_cacheFirst. pose proof kept_networkFirst.
  pose proof kept_staleWhileRevalidate. pose proof kept_invalidateCache.
  unfold handleRequest, counts.
  destruct (getHeader (headers request) CACHE_CLEAR_HEADER).
  { revert w. change (keeps R (clearCache (cacheName cfg) ;;;
                               response <- callFetch cfg request ;;
                               ret (Some response))).
    unfold clearCache. kept. }
  cbv zeta. destruct (_ || _).
  { revert w.
    match goal with |- forall w, R w (snd (?m w)) => change (keeps R m) end.
    kept. }
  destruct (negb _); [apply R_refl|].
  destruct (newURL (url request)); [|apply R_refl].
  destruct (crossOrigin cfg u); cbn [negb]; [apply R_refl|].
  rewrite bind_run, countFetch_run.
  generalize (counted cfg w). clear w.
  match goal with |- forall w, R w (snd (?m w)) => change (keeps R m) end.
  kept.
Qed.

Lemma kept_handleRequest request w :
  R w (snd (handleRequest cfg request w))
  \/ R (counted cfg w) (snd (handleRequest cfg request w)).
Proof. generalize (kept_turn request w). destruct (counts cfg request); auto. Qed.

End Invariant.

Section JobInvariant.

Context {platform : URLPlatform}.
Variable name : string.
Variable R : World -> World -> Prop.
Hypothesis R_refl : forall w, R w w.
Hypothesis R_trans : forall a b c, R a b -> R b c -> R a c.
Hypothesis R_keys : keeps R (cacheKeys name).
Hypothesis R_match : forall key, keeps R (cacheMatch name key).
Hypothesis R_delete : forall key b, keeps R (cacheDelete name key b).
Hypothesis R_put : forall key response, keeps R (cachePut name key response).

Lemma kept_cleanupEntries maxAge : keeps R (cleanupEntries name maxAge).
Proof.
  unfold cleanupEntries, cleanupEntry.
  repeat first
    [ solve [auto]
    | apply keeps_bind; [exact R_trans | | intros ?]
    | apply keeps_ret; exact R_refl
    | apply keeps_dateNow; exact R_refl
    | apply keeps_forEach; [exact R_refl | exact R_trans | intros ?]
    | match goal with
      | |- keeps _ (match ?x with _ => _ end) => destruct x
      end ].
Qed.

(** A queued job on the cache [name] keeps [R]. *)
Lemma kept_runJob j w : jobCache j = name -> R w (runJob j w).
Proof.
  destruct j as [n maxAge | n request [r|e]]; cbn [jobCache runJob]; intros ->.
  - apply kept_cleanupEntries.
  - destruct (ok r); [apply R_put | apply R_refl].
  - apply R_refl.
Qed.

End JobInvariant.

Section Isolation.

Context {platform : URLPlatform}.
Implicit Types (cfg : Config) (request : Request) (w : World).

Lemma Confined_refl name w : Confined name w w.
Proof. now intros n _. Qed.

Lemma Confined_trans name a b c :
  Confined name a b -> Confined name b c -> Confined name a c.
Proof. intros H1 H2 n Hn. now rewrite H2, H1. Qed.

Lemma Confined_updCache name f w : Confined name w (updCache name f w).
Proof.
  intros n Hn. unfold updCache. cbn.
  destruct (caches w !! name); [now rewrite lookup_insert_ne | reflexivity].
Qed.

Lemma Confined_opened name w : Confined name w (opened name w).
Proof. intros n Hn. unfold opened. cbn. now rewrite lookup_insert_ne. Qed.

Lemma Confined_cachesOpen name : keeps (Confined name) (cachesOpen name).
Proof. intros w. apply Confined_opened. Qed.

Lemma Confined_cachesDelete name : keeps (Confined name) (cachesDelete name).
Proof. intros w n Hn. cbn. now rewrite lookup_delete_ne. Qed.

Lemma Confined_cacheMatch name key : keeps (Confined name) (cacheMatch name key).
Proof. intros w n Hn. reflexivity. Qed.

Lemma Confined_cacheKeys name : keeps (Confined name) (cacheKeys name).
Proof. intros w n Hn. reflexivity. Qed.

Lemma Confined_cacheDelete name key b : keeps (Confined name) (cacheDelete name key b).
Proof. intros w. cbn [cacheDelete snd]. apply (Confined_updCache name _ (emit _ w)). Qed.

Lemma Confined_cachePut name key response :
  keeps (Confined name) (cachePut name key response).
Proof. intros w. cbn [cachePut modify snd]. apply (Confined_updCache name _ (emit _ w)). Qed.

Lemma Confined_callFetch name cfg request : keeps (Confined name) (callFetch cfg request).
Proof.
  intros w n Hn. rewrite callFetch_run. cbv zeta.
  now destruct (reply (nextReply cfg request w)).
Qed.

Lemma Confined_startRevalidation name cfg request :
  keeps (Confined name) (startRevalidation cfg request).
Proof. intros w n Hn. reflexivity. Qed.

Lemma Confined_counted cfg w : Confined (cacheName cfg) w (counted cfg w).
Proof.
  intros n Hn. rewrite counted_eq. cbv zeta.
  destruct (sweepsAt _); [|reflexivity].
  destruct (_ =? 0); cbn; now rewrite lookup_insert_ne.
Qed.

Lemma Confined_handleRequest cfg request w :
  Confined (cacheName cfg) w (snd (handleRequest cfg request w)).
Proof.
  destruct (kept_handleRequest cfg (Confined (cacheName cfg))
              (Confined_refl _) (Confined_trans _)
              (Confined_cachesOpen _) (Confined_cachesDelete _)
              (Confined_cacheMatch _) (Confined_cacheDelete _)
              (Confined_cachePut _) (fun r => Confined_callFetch _ cfg r)
              (fun r => Confined_startRevalidation _ cfg r) request w) as [H|H];
    [exact H|].
  eapply Confined_trans; [apply Confined_counted | exact H].
Qed.

Lemma Confined_runJob j w : Confined (jobCache j) w (runJob j w).
Proof.
  apply (kept_runJob (jobCache j) (Confined (jobCache j))
           (Confined_refl _) (Confined_trans _)
           (Confined_cacheKeys _) (Confined_cacheMatch _)
           (Confined_cacheDelete _) (Confined_cachePut _)).
  reflexivity.
Qed.

(** The jobs a turn queues work on the cache of the handler. *)
Lemma jobs_handleRequest cfg request w :
  exists new,
    jobs (snd (handleRequest cfg request w)) = (jobs w ++ new)%list
    /\ Forall (fun j => jobCache j = cacheName cfg) new.
Proof.
  set (R := fun a b : World =>
              exists new, jobs b = (jobs a ++ new)%list
                          /\ Forall (fun j => jobCache j = cacheName cfg) new).
  assert (Hrefl : forall a, R a a).
  { intros a. exists []. split; [now rewrite app_nil_r | constructor]. }
  assert (Htrans : forall a b c, R a b -> R b c -> R a c).
  { intros a b c (n1 & E1 & F1) (n2 & E2 & F2). exists (n1 ++ n2)%list.
    split; [now rewrite E2, E1, <- app_assoc | now apply Forall_app]. }
  assert (Hquiet : forall a b, jobs b = jobs a -> R a b).
  { intros a b E. exists []. split; [now rewrite app_nil_r | constructor]. }
  destruct (kept_handleRequest cfg R Hrefl Htrans) with (request := request) (w := w)
    as [H|H]; try exact H; try (intros; intros a; apply Hquiet; reflexivity).
  - intros req a. apply Hquiet. rewrite callFetch_run. cbv zeta.
    now destruct (reply (nextReply cfg req a)).
  - intros req a. cbn. eexists. split; [reflexivity|]. now repeat constructor.
  - eapply Htrans; [|exact H]. unfold R. rewrite jobs_counted. eexists. split; [reflexivity|].
    destruct (sweepsAt _); now repeat constructor.
Qed.

(** X22. The handler works on its own cache only: a turn leaves the rest
    of the cache storage as it was, whatever the request; the jobs it
    queues (cleanup, revalidation) are jobs on its own cache; and a job
    leaves the storage outside its cache as it was. *)
Theorem X22_handler_is_confined_to_its_cache cfg request w :
  let w' := snd (handleRequest cfg request w) in
  (forall n, n <> cacheName cfg -> caches w' !! n = caches w !! n)
  /\ (exists new,
        jobs w' = (jobs w ++ new)%list
        /\ Forall (fun j => jobCache j = cacheName cfg) new)
  /\ (forall j v n, n <> jobCache j -> caches (runJob j v) !! n = caches v !! n).
Proof.
  intros w'. split; [apply Confined_handleRequest|].
  split; [apply jobs_handleRequest|].
  intros j v. apply Confined_runJob.
Qed.

End Isolation.

(** ** The counter, the network calls, the timestamps *)

Section Counter.

Context {platform : URLPlatform}.
Implicit Types (cfg : Config) (request : Request) (w : World).

Lemma Uncounted_refl name w : Uncounted name w w.
Proof.
  split; [reflexivity|]. exists []. split; [now rewrite app_nil_r | constructor].
Qed.

Lemma Uncounted_trans name a b c :
  Uncounted name a b -> Uncounted name b c -> Uncounted name a c.
Proof.
  intros [E1 (n1 & J1 & F1)] [E2 (n2 & J2 & F2)]. split; [congruence|].
  exists (n1 ++ n2)%list. split; [now rewrite J2, J1, <- app_assoc|].
  now apply Forall_app.
Qed.

Lemma Uncounted_quiet name w w' :
  fetchCounter w' = fetchCounter w -> jobs w' = jobs w -> Uncounted name w w'.
Proof.
  intros E J. split; [exact E|]. exists [].
  split; [now rewrite app_nil_r | constructor].
Qed.

Lemma Uncounted_callFetch name cfg request :
  keeps (Uncounted name) (callFetch cfg request).
Proof.
  intros a. rewrite callFetch_run. cbv zeta.
  destruct (reply (nextReply cfg request a)); now apply Uncounted_quiet.
Qed.

Lemma Uncounted_startRevalidation cfg request :
  keeps (Uncounted (cacheName cfg)) (startRevalidation cfg request).
Proof.
  intros a. split; [reflexivity|]. cbn. eexists. split; [reflexivity|].
  repeat constructor. eauto.
Qed.


Lemma Uncounted_turn cfg request w :
  if counts cfg request
  then Uncounted (cacheName cfg) (counted cfg w) (snd (handleRequest cfg request w))
  else Uncounted (cacheName cfg) w (snd (handleRequest cfg request w)).
Proof.
  apply (kept_turn cfg (Uncounted (cacheName cfg))
           (Uncounted_refl _) (Uncounted_trans _));
    try (intros; intros a; now apply Uncounted_quiet).
  - intros req. apply Uncounted_callFetch.
  - intros req. apply Uncounted_startRevalidation.
Qed.

Lemma Uncounted_cleanup name w w' n maxAge :
  Uncounted name w w' ->
  In (CleanupJob n maxAge) (jobs w') -> In (CleanupJob n maxAge) (jobs w).
Proof.
  intros [_ (new & -> & F)] [Hin | Hin]%in_app_or; [exact Hin|].
  rewrite Forall_forall in F. apply list_elem_of_In, F in Hin.
  destruct Hin as (request & answer & Hj). discriminate Hj.
Qed.

Lemma fetchCounter_runJob j w : fetchCounter (runJob j w) = fetchCounter w.
Proof.
  apply (kept_runJob (jobCache j) (fun a b => fetchCounter b = fetchCounter a));
    try reflexivity; try (intros; intros a; reflexivity).
  intros a b c E1 E2. congruence.
Qed.

(** X17. The counter of the handler stays between 0 and 99: started in
    that range (a new handler is at 0), every turn leaves it there,
    whatever the request, and no job changes it.  A turn starts a cleanup
    only when it finds the counter at 0 or at 99. *)
Theorem X17_counter_stays_in_range cfg request w :
  0 <= fetchCounter w <= 99 ->
  let w' := snd (handleRequest cfg request w) in
  0 <= fetchCounter w' <= 99
  /\ (forall name maxAge,
        In (CleanupJob name maxAge) (jobs w') ->
        In (CleanupJob name maxAge) (jobs w)
        \/ fetchCounter w = 0 \/ fetchCounter w = 99)
  /\ (forall j v, fetchCounter (runJob j v) = fetchCounter v).
Proof.
  intros Hrange w'. subst w'.
  pose proof (Uncounted_turn cfg request w) as H.
  split; [|split; [|intros; apply fetchCounter_runJob]].
  - destruct (counts cfg request); destruct H as [E _]; rewrite E; [|exact Hrange].
    rewrite fetchCounter_counted.
    destruct (Z.eqb_spec (Z.rem (fetchCounter w + 1) 100) 0) as [H0|H0]; [lia|].
    destruct (Z.eq_dec (fetchCounter w) 99) as [E99|]; [|lia].
    rewrite E99 in H0. now contradiction H0.
  - intros name maxAge Hin.
    destruct (counts cfg request);
      apply (Uncounted_cleanup _ _ _ _ _ H) in Hin; [|now left].
    rewrite jobs_counted in Hin. apply in_app_or in Hin as [Hin | Hin]; [now left|].
    right. destruct (sweepsAt (fetchCounter w + 1)) eqn:Hs; [|destruct Hin].
    unfold sweepsAt in Hs. apply orb_true_iff in Hs as [H1%Z.eqb_eq | H0%Z.eqb_eq];
      [left; lia|].
    right. destruct (Z.eq_dec (fetchCounter w) 99) as [|Hne]; [assumption|].
    rewrite Z.rem_small in H0 by lia. lia.
Qed.

Lemma netCalls_runJob j w : netCalls (runJob j w) = netCalls w.
Proof.
  apply (kept_runJob (jobCache j) (fun a b => netCalls b = netCalls a));
    try reflexivity; try (intros; intros a; reflexivity).
  intros a b c E1 E2. congruence.
Qed.

(** X20. A turn of the handler calls the network once or not at all,
    whatever the request, the cache and the answer: no path retries or
    calls twice.  The queued jobs call the network not at all (the
    background revalidation issues its call in the turn itself). *)
Theorem X20_at_most_one_network_call cfg request w :
  let w' := snd (handleRequest cfg request w) in
  (netCalls w' = netCalls w \/ netCalls w' = S (netCalls w))
  /\ (forall j v, netCalls (runJob j v) = netCalls v).
Proof.
  intros w'. destruct (handleRequest_sourced cfg request w) as (_ & _ & Hcalls).
  split; [exact Hcalls|]. intros; apply netCalls_runJob.
Qed.

Lemma WritesWhole_jobs js w : WritesWhole w (fold_left (fun w' j => runJob j w') js w).
Proof.
  revert w. induction js as [|j js IH]; intros w; cbn [fold_left].
  - apply WritesWhole_refl.
  - eapply WritesWhole_trans; [apply WritesWhole_runJob | apply IH].
Qed.

Lemma WritesWhole_runPending w : WritesWhole w (runPending w).
Proof.
  unfold runPending. eapply WritesWhole_trans; [|apply WritesWhole_jobs].
  now apply WritesWhole_quiet.
Qed.

Lemma Cacheable_ok r :
  Cacheable r -> ok r = true /\ exists t, getCacheTimestamp r = Some t.
Proof. intros (r0 & t & -> & Hok & Ht). split; [exact Hok | eauto]. Qed.

Lemma WritesWhole_Cacheable w w' :
  WritesWhole w w' ->
  (forall n k r, entry n k w = Some r -> Cacheable r) ->
  forall n k r, entry n k w' = Some r -> Cacheable r.
Proof.
  intros [_ H] Hw n k r Hr.
  destruct (H n k) as [E | [E | (r' & E & Hc)]].
  - rewrite E in Hr. eauto.
  - congruence.
  - congruence.
Qed.

(** X23. When every entry of the cache storage is a response of status
    2xx with a timestamp that reads back, so is every entry after a turn
    of the handler, whatever the request, and after the jobs that are
    queued have run.  So the freshness predicates never meet an entry
    without a timestamp in a cache that only the handler fills. *)
Theorem X23_entries_stay_dated cfg request w :
  (forall n k r, entry n k w = Some r -> Cacheable r) ->
  let w' := snd (handleRequest cfg request w) in
  forall n k r,
    entry n k w' = Some r \/ entry n k (runPending w') = Some r ->
    ok r = true /\ exists t, getCacheTimestamp r = Some t.
Proof.
  intros Hw w' n k r Hr. apply Cacheable_ok.
  assert (H1 : forall n k r, entry n k w' = Some r -> Cacheable r).
  { apply (WritesWhole_Cacheable w); [apply keeps_handleRequest | exact Hw]. }
  destruct Hr as [Hr | Hr]; [eauto|].
  eapply (WritesWhole_Cacheable w' (runPending w'));
    [apply WritesWhole_runPending | exact H1 | exact Hr].
Qed.

End Counter.

(** The first read of a new handler. *)
Lemma X17_counter_stays_in_range_witness :
  let cfg := Example.config "cache-first" (Example.online "data") in
  let request := Example.get Example.users in
  let w := Example.world 0 [] in
  fetchCounter w = 0
  /\ 0 <= fetchCounter (snd (handleRequest (platform := SimpleURL.platform)
                               cfg request w)) <= 99.
Proof.
  intros cfg request w. split; [reflexivity|].
  apply (X17_counter_stays_in_range (platform := SimpleURL.platform) cfg request w).
  change (0 <= 0 <= 99). lia.
Defined.

(** The entry written by the first read of an empty cache. *)
Lemma X23_entries_stay_dated_witness :
  let cfg := Example.config "cache-first" (Example.online "data") in
  let request := Example.get Example.users in
  let w := mkWorld ∅ 5 0 0 [] [] in
  ok (addTimestamp 5 (Example.response "data" 200)) = true
  /\ exists t, getCacheTimestamp (addTimestamp 5 (Example.response "data" 200)) = Some t.
Proof.
  intros cfg request w.
  assert (Hw : forall n k r, entry n k w = Some r -> Cacheable r).
  { intros n k r H. unfold entry, theCache in H. cbn in H.
    rewrite lookup_empty in H. cbn in H. rewrite lookup_empty in H. discriminate H. }
  apply (X23_entries_stay_dated (platform := SimpleURL.platform) cfg request w
           Hw "api-cache" Example.users).
  left. vm_compute. reflexivity.
Defined.

(** ** Round trips *)

Section RoundTrips.

Context {platform : URLPlatform}.
Implicit Types (cfg : Config) (request : Request) (w : World).


(** A job on the cache [name] leaves the clock alone and the cache in the
    storage. *)
Lemma runJob_settled j v :
  clock (runJob j v) = clock v
  /\ (holds (jobCache j) v -> holds (jobCache j) (runJob j v)).
Proof.
  apply (kept_runJob (jobCache j)
           (fun a b => clock b = clock a
                       /\ (holds (jobCache j) a -> holds (jobCache j) b)));
    try reflexivity.
  - now intros a.
  - intros a b c [E1 H1] [E2 H2]. split; [congruence | auto].
  - now intros a.
  - now intros key a.
  - intros key b a. split; [reflexivity|]. cbn [cacheDelete snd].
    intros Ha. now apply holds_updCache.
  - intros key response a. split; [reflexivity|]. cbn [cachePut modify snd].
    intros Ha. now apply holds_updCache.
Qed.

(** X15. stale-while-revalidate, the whole round: a read that finds a
    stale entry returns it; once the queued work has run, the cache holds
    the 2xx answer of the network under the timestamp of the call, and a
    further read within the TTL returns that answer, with the payload of
    the network, without another network call. *)
Theorem X15_stale_entry_is_revalidated cfg request ttl staleTTL w c r dt :
  HandledRead cfg request "stale-while-revalidate" ttl staleTTL ->
  jobs w = [] ->
  entry (cacheName cfg) (url request) w = Some c ->
  isOlderThanMaxAge (clock w) c (maxCacheAgeSeconds cfg) = false ->
  isStale (clock w) c ttl staleTTL = true ->
  reply (nextReply cfg request w) = inl r ->
  ok r = true ->
  0 <= dt < ttl * 1000 ->
  dt < maxCacheAgeSeconds cfg * 1000 ->
  let first := handleRequest cfg request w in
  let settled := runPending (snd first) in
  let second := handleRequest cfg request (tick dt settled) in
  let renewed := addTimestamp (clock w) r in
  fst first = Ok (Some c)
  /\ entry (cacheName cfg) (url request) settled = Some renewed
  /\ fst second = Ok (Some renewed)
  /\ body renewed = body r
  /\ netCalls (snd second) = S (netCalls w).
Proof.
  intros H Hjobs Hentry Hold Hstale Hr Hok Hdt Hmax first settled second renewed.
  set (name := cacheName cfg) in *. set (key := url request) in *.
  set (w0 := emit (CacheMatch name key) (opened name (counted cfg w))).
  set (job := RevalidateJob name request (inl r)).
  assert (Hfirst : first =
    (Ok (Some c), enqueue job (called 0 (emit (Fetch request) w0)))).
  { subst first. rewrite (handleRequest_staleWhileRevalidate _ _ _ _ _ H).
    rewrite staleWhileRevalidate_run. cbv zeta.
    rewrite entry_counted, clock_counted, nextReply_counted. fold name key.
    rewrite Hentry, Hold, Hstale, orb_true_r, Hr. reflexivity. }
  assert (Hsettled : entry name key settled = Some renewed
                     /\ clock settled = clock w
                     /\ netCalls settled = S (netCalls w)).
  { subst settled. rewrite Hfirst. cbn [snd]. unfold runPending.
    assert (Hj : jobs (enqueue job (called 0 (emit (Fetch request) w0)))
                 = ((if sweepsAt (fetchCounter w + 1)
                     then [CleanupJob name (maxCacheAgeSeconds cfg)] else [])
                    ++ [job])%list).
    { subst w0. autorewrite with world. now rewrite jobs_counted, Hjobs. }
    rewrite Hj. clear Hj.
    set (v := clearJobs _).
    assert (Hv : holds name v /\ clock v = clock w /\ netCalls v = S (netCalls w)).
    { subst v. split; [|split].
      - change (holds name (opened name (counted cfg w))). apply holds_opened.
      - cbn [clock clearJobs enqueue called emit]. subst w0.
        autorewrite with world. lia.
      - cbn [netCalls clearJobs enqueue called emit]. subst w0.
        now autorewrite with world. }
    destruct Hv as (Hv & Hc & Hn).
    assert (Hput : forall u, holds name u -> clock u = clock w ->
                     netCalls u = S (netCalls w) ->
                     entry name key (runJob job u) = Some renewed
                     /\ clock (runJob job u) = clock w
                     /\ netCalls (runJob job u) = S (netCalls w)).
    { intros u Hu Hcu Hnu. split; [|split].
      - destruct (runJob_revalidate name request (inl r) u) as (Hp & _).
        subst job renewed. rewrite <- Hcu. now apply Hp.
      - now rewrite (proj1 (runJob_settled job u)).
      - now rewrite netCalls_runJob. }
    destruct (sweepsAt _); cbn [app fold_left].
    - apply Hput.
      + apply (proj2 (runJob_settled (CleanupJob name (maxCacheAgeSeconds cfg)) v)), Hv.
      + now rewrite (proj1 (runJob_settled _ v)).
      + now rewrite netCalls_runJob.
    - now apply Hput. }
  destruct Hsettled as (Hnew & Hclock & Hcalls).
  split; [now rewrite Hfirst|]. split; [exact Hnew|].
  assert (Hfresh : isFresh (clock (tick dt settled)) renewed ttl = true).
  { unfold isFresh. subst renewed. rewrite getCacheTimestamp_addTimestamp.
    change (clock (tick dt settled)) with (clock settled + dt). rewrite Hclock.
    cbv zeta. apply Z.ltb_lt. lia. }
  assert (Hyoung : isOlderThanMaxAge (clock (tick dt settled)) renewed
                     (maxCacheAgeSeconds cfg) = false).
  { unfold isOlderThanMaxAge. subst renewed. rewrite getCacheTimestamp_addTimestamp.
    change (clock (tick dt settled)) with (clock settled + dt). rewrite Hclock.
    cbv zeta. apply Z.leb_gt. lia. }
  subst second. rewrite (handleRequest_staleWhileRevalidate _ _ _ _ _ H).
  rewrite staleWhileRevalidate_run. cbv zeta.
  rewrite entry_counted, clock_counted. fold name key.
  change (entry name key (tick dt settled)) with (entry name key settled).
  rewrite Hnew, Hyoung, Hfresh, (fresh_not_stale _ _ _ _ Hfresh). cbn [orb fst snd].
  split; [reflexivity|]. split; [reflexivity|].
  autorewrite with world. exact Hcalls.
Qed.

End RoundTrips.

(** An entry 400 s old under a TTL of 300 s: served, renewed, served anew. *)
Lemma X15_stale_entry_is_revalidated_witness :
  let cfg := Example.config "stale-while-revalidate" (Example.online "new") in
  let request := Example.get Example.users in
  let c := Example.cachedAt 0 "old" in
  let w := Example.world 400000 [(Example.users, c)] in
  let first := handleRequest (platform := SimpleURL.platform) cfg request w in
  let second := handleRequest (platform := SimpleURL.platform) cfg request
                  (tick 1000 (runPending (platform := SimpleURL.platform) (snd first))) in
  fst first = Ok (Some c)
  /\ fst second = Ok (Some (addTimestamp 400000 (Example.response "new" 200))).
Proof.
  intros cfg request c w first second.
  assert (H : HandledRead (platform := SimpleURL.platform)
                cfg request "stale-while-revalidate" 300 (Some 3600)) by handled.
  destruct (X15_stale_entry_is_revalidated (platform := SimpleURL.platform)
              cfg request 300 (Some 3600) w c (Example.response "new" 200) 1000
              H eq_refl eq_refl eq_refl eq_refl eq_refl eq_refl
              ltac:(lia) ltac:(cbn; lia))
    as (H1 & _ & H2 & _).
  split; [exact H1 | exact H2].
Defined.


(** ** createHandleRequest *)

Section Configuration.

Context {platform : URLPlatform}.
Implicit Types (cfg : Config) (request : Request) (w : World).

Lemma engine_answers cfg request strategy ttl staleTTL w :
  In strategy strategies ->
  fst (engine cfg request strategy ttl staleTTL w) <> Ok None.
Proof.
  intros [<- | [<- | [<- | []]]]; cbn [engine String.eqb Ascii.eqb Bool.eqb].
  - apply cacheFirst_sourced.
  - apply networkFirst_sourced.
  - apply staleWhileRevalidate_sourced.
Qed.

Lemma getStrategy_In h d : In d strategies -> In (getStrategy h d) strategies.
Proof.
  intros Hd. unfold getStrategy.
  destruct (getHeader h CACHE_STRATEGY_HEADER) as [v|]; [|exact Hd].
  destruct (existsb (String.eqb v) strategies) eqn:E.
  - destruct (negb (String.eqb v "")); cbn [andb]; [now apply existsb_eqb_In | exact Hd].
  - now rewrite andb_false_r.
Qed.

Lemma configured_read_answers cfg request strategy ttl staleTTL w :
  In (defaultStrategy cfg) strategies ->
  HandledRead cfg request strategy ttl staleTTL ->
  fst (handleRequest cfg request w) <> Ok None.
Proof.
  intros Hd H. rewrite (handleRequest_read _ _ _ _ _ _ H).
  apply engine_answers.
  destruct H as (_ & _ & _ & _ & _ & _ & _ & <-). now apply getStrategy_In.
Qed.

(** X18. createHandleRequest either rejects the options or returns a
    handler that is well configured.  It rejects exactly for an empty
    cache name, a default strategy that is set, not empty and none of the
    three names, a maximum age that is set and not positive, or a logging
    level that is set and none of the three levels.  Otherwise the handler
    works on the cache named, its default strategy is one of the three
    names (cache-first when none is set), its maximum age is positive
    (7200 s when none is set), the TTLs that are set are taken as they
    are, also when 0 or negative (300 s and 3600 s when not set), and a
    read that reaches the strategies always ends in a response or an
    error, never in null. *)
Theorem X18_createHandleRequest_validates fetch selfOrigin config :
  match createHandleRequest fetch selfOrigin config with
  | inl error =>
      match error with
      | CacheNameRequired => HandleRequestConfig.cacheName config = ""
      | UnknownDefaultStrategy =>
          exists s, HandleRequestConfig.defaultStrategy config = Some s
                    /\ s <> "" /\ ~ In s strategies
      | MaxCacheAgeNotPositive =>
          exists m, HandleRequestConfig.maxCacheAgeSeconds config = Some m /\ m <= 0
      | UnknownLoggingLevel =>
          exists l, HandleRequestConfig.loggingLevel config = Some l
                    /\ ~ In l loggingLevels
      end
  | inr cfg =>
      cacheName cfg = HandleRequestConfig.cacheName config
      /\ cacheName cfg <> ""
      /\ In (defaultStrategy cfg) strategies
      /\ (HandleRequestConfig.defaultStrategy config = None ->
          defaultStrategy cfg = "cache-first")
      /\ 0 < maxCacheAgeSeconds cfg
      /\ maxCacheAgeSeconds cfg
         = default 7200 (HandleRequestConfig.maxCacheAgeSeconds config)
      /\ defaultTTLSeconds cfg
         = default 300 (HandleRequestConfig.defaultTTLSeconds config)
      /\ defaultStaleTTLSeconds cfg
         = default 3600 (HandleRequestConfig.defaultStaleTTLSeconds config)
      /\ (forall l, HandleRequestConfig.loggingLevel config = Some l ->
            In l loggingLevels)
      /\ (forall request strategy ttl staleTTL w,
            HandledRead cfg request strategy ttl staleTTL ->
            fst (handleRequest cfg request w) <> Ok None)
  end.
Proof.
  unfold createHandleRequest, validateConfig.
  destruct (String.eqb_spec (HandleRequestConfig.cacheName config) "") as [E|Hname];
    [exact E|].
  assert (Hstrategy :
    match HandleRequestConfig.defaultStrategy config with
    | Some s => negb (String.eqb s "") && negb (existsb (String.eqb s) strategies)
    | None => false
    end = false ->
    In match HandleRequestConfig.defaultStrategy config with
       | Some s => if String.eqb s "" then "cache-first" else s
       | None => "cache-first"
       end strategies).
  { destruct (HandleRequestConfig.defaultStrategy config) as [s|]; [|now left].
    destruct (String.eqb s ""); [now left|]. cbn [negb andb].
    intros E%negb_false_iff. now apply existsb_eqb_In. }
  destruct (match HandleRequestConfig.defaultStrategy config with
            | Some s => _ | None => false end) eqn:Hs.
  { destruct (HandleRequestConfig.defaultStrategy config) as [s|]; [|discriminate].
    apply andb_true_iff in Hs as [Hne%negb_true_iff Hin%negb_true_iff].
    exists s. split; [reflexivity|]. split.
    - intros ->. discriminate.
    - intros Hin'%existsb_eqb_In. congruence. }
  specialize (Hstrategy eq_refl).
  destruct (HandleRequestConfig.maxCacheAgeSeconds config) as [m|] eqn:Hm.
  - destruct (Z.leb_spec m 0) as [Hle|Hpos]; [exists m; auto|].
    destruct (HandleRequestConfig.loggingLevel config) as [l|] eqn:Hl.
    + destruct (existsb (String.eqb l) loggingLevels) eqn:Hin; cbn [negb].
      * apply existsb_eqb_In in Hin.
        repeat split; cbn [cacheName defaultStrategy maxCacheAgeSeconds
                           defaultTTLSeconds defaultStaleTTLSeconds default];
          try (exact Hname || exact Hstrategy || exact Hpos).
        -- intros E. now rewrite E.
        -- now intros l' [= <-].
        -- intros. now apply (configured_read_answers _ _ strategy ttl staleTTL).
      * exists l. split; [reflexivity|]. intros Hin'%existsb_eqb_In. congruence.
    + repeat split; cbn [cacheName defaultStrategy maxCacheAgeSeconds
                         defaultTTLSeconds defaultStaleTTLSeconds default];
        try (exact Hname || exact Hstrategy || exact Hpos).
      * intros E. now rewrite E.
      * discriminate.
      * intros. now apply (configured_read_answers _ _ strategy ttl staleTTL).
  - destruct (HandleRequestConfig.loggingLevel config) as [l|] eqn:Hl.
    + destruct (existsb (String.eqb l) loggingLevels) eqn:Hin; cbn [negb].
      * apply existsb_eqb_In in Hin.
        repeat split; cbn [cacheName defaultStrategy maxCacheAgeSeconds
                           defaultTTLSeconds defaultStaleTTLSeconds default];
          try (exact Hname || exact Hstrategy || lia).
        -- intros E. now rewrite E.
        -- now intros l' [= <-].
        -- intros. now apply (configured_read_answers _ _ strategy ttl staleTTL).
      * exists l. split; [reflexivity|]. intros Hin'%existsb_eqb_In. congruence.
    + repeat split; cbn [cacheName defaultStrategy maxCacheAgeSeconds
                         defaultTTLSeconds defaultStaleTTLSeconds default];
        try (exact Hname || exact Hstrategy || lia).
      * intros E. now rewrite E.
      * discriminate.
      * intros. now apply (configured_read_answers _ _ strategy ttl staleTTL).
Qed.

End Configuration.

(** ** The targets and the reads that are handled *)

Section Normalize.

Context {platform : URLPlatform}.
Implicit Types (cfg : Config) (request : Request) (w : World).

Lemma mapOption_Forall2 {A B} (f : A -> option B) l l' :
  mapOption f l = Some l' -> Forall2 (fun x y => f x = Some y) l l'.
Proof.
  revert l'. induction l as [|x l IH]; intros l'; cbn [mapOption].
  - intros [= <-]. constructor.
  - destruct (f x) as [y|] eqn:Hy; [|discriminate].
    destruct (mapOption f l) as [ys|]; [|discriminate].
    intros [= <-]. constructor; auto.
Qed.

(** X21. Normalizing the invalidation targets keeps their number and
    their order.  A target that parses as a URL stays as it is, whatever
    the other targets; any other target stays as it is or becomes the URL
    it resolves to against the origin of the request. *)
Theorem X21_normalizePaths_keeps_targets url paths :
  length (normalizePaths url paths) = length paths
  /\ (forall (i : nat) p,
        paths !! i = Some p -> is_Some (newURL p) ->
        normalizePaths url paths !! i = Some p)
  /\ (forall (i : nat) p,
        paths !! i = Some p ->
        normalizePaths url paths !! i = Some p
        \/ exists requestUrl resolved,
             newURL url = Some requestUrl
             /\ newURL p = None
             /\ newURLBase p (origin requestUrl) = Some resolved
             /\ normalizePaths url paths !! i = Some (href resolved)).
Proof.
  unfold normalizePaths.
  destruct (newURL url) as [u|]; [|repeat split; auto].
  cbv zeta.
  destruct (mapOption _ paths) as [normalized|] eqn:E; [|repeat split; auto].
  apply mapOption_Forall2 in E.
  split; [symmetry; eapply Forall2_length; exact E|]. split.
  - intros i p Hp [x Hx].
    destruct (Forall2_lookup_l _ _ _ _ _ E Hp) as (q & Hq & Hf).
    rewrite Hx in Hf. now injection Hf as <-.
  - intros i p Hp.
    destruct (Forall2_lookup_l _ _ _ _ _ E Hp) as (q & Hq & Hf).
    destruct (newURL p) as [x|] eqn:Hx; [left; now injection Hf as <-|].
    right. destruct (newURLBase p (origin u)) as [resolved|] eqn:Hr; [|discriminate].
    injection Hf as <-. exists u, resolved. auto.
Qed.

(** X24. Which reads reach the strategies.  A same-origin GET without
    clear and invalidation headers is handled with the TTL of its TTL
    header when that prints a positive integer, whatever the scope; and
    without TTL header it is handled with the default TTL when that is
    positive and the scope is empty or has a prefix of the pathname.  The
    turn then is the one of the strategy that the request resolves to,
    after the request is counted. *)
Theorem X24_reads_that_are_handled cfg request w requestUrl ttl :
  getHeader (headers request) CACHE_CLEAR_HEADER = None ->
  getAllHeaders (headers request) CACHE_INVALIDATE_HEADER = [] ->
  method request = "GET" ->
  newURL (url request) = Some requestUrl ->
  crossOrigin cfg requestUrl = false ->
  (0 < ttl /\ getHeader (headers request) CACHE_TTL_HEADER = Some (Str.toString ttl))
  \/ (getHeader (headers request) CACHE_TTL_HEADER = None
      /\ 0 < defaultTTLSeconds cfg /\ ttl = defaultTTLSeconds cfg
      /\ (scope cfg = []
          \/ existsb (fun prefix => Str.startsWith (pathname requestUrl) prefix)
               (scope cfg) = true)) ->
  let strategy := getStrategy (headers request) (defaultStrategy cfg) in
  let staleTTL := getStaleTTL (headers request) (defaultStaleTTLSeconds cfg) in
  HandledRead cfg request strategy ttl staleTTL
  /\ handleRequest cfg request w
     = engine cfg request strategy ttl staleTTL (counted cfg w).
Proof.
  intros Hclear Hinv Hget Hu Hx Hcase strategy staleTTL.
  assert (H : HandledRead cfg request strategy ttl staleTTL).
  { split; [exact Hclear|]. split; [exact Hinv|]. split; [exact Hget|].
    split; [eauto|].
    destruct (matchesScope_parsed cfg request requestUrl Hu) as [b Hb].
    destruct Hcase as [[Hpos Hv] | (Hnone & Hpos & -> & Hscope)].
    - split; [exists b; split; [exact Hb | right; rewrite Hv; eauto]|].
      split; [|split; reflexivity].
      unfold getTTL. rewrite Hv, StrFacts.parseInt_toString.
      destruct (Z.leb_spec ttl 0); [lia | reflexivity].
    - split.
      + exists true. split; [|now left]. unfold matchesScope.
        destruct Hscope as [-> | Hin].
        * destruct (Z.ltb_spec 0 (defaultTTLSeconds cfg)); [reflexivity | lia].
        * destruct (scope cfg); [discriminate Hin|]. now rewrite Hu, Hin.
      + split; [|split; reflexivity].
        rewrite (getTTL_absent _ _ Hnone).
        destruct (Z.ltb_spec 0 (defaultTTLSeconds cfg)); [reflexivity | lia]. }
  split; [exact H | now apply handleRequest_read].
Qed.

End Normalize.

(** A read out of scope that carries a TTL of 60 s. *)
Lemma X24_reads_that_are_handled_witness :
  let cfg := Example.config "cache-first" (Example.online "data") in
  let request :=
    Example.getWith "https://example.com/static/app.js" [(CACHE_TTL_HEADER, "60")] in
  let w := Example.world 0 [] in
  matchesScope (platform := SimpleURL.platform)
    (url request) (scope cfg) (defaultTTLSeconds cfg) = Ok false
  /\ fst (handleRequest (platform := SimpleURL.platform) cfg request w)
     = Ok (Some (Example.response "data" 200)).
Proof.
  intros cfg request w. split; [reflexivity|].
  destruct (X24_reads_that_are_handled (platform := SimpleURL.platform)
              cfg request w
              (mkURL "https://example.com" "/static/app.js"
                 "https://example.com/static/app.js")
              60 eq_refl eq_refl eq_refl eq_refl eq_refl
              (or_introl (conj eq_refl eq_refl))) as [_ Hrun].
  rewrite Hrun. vm_compute. reflexivity.
Defined.

(** ** The periodic cleanup, and entries without timestamp *)

Section Periodic99.

Context {platform : URLPlatform}.
Implicit Types (cfg : Config) (request : Request) (w : World).

Lemma turns_S cfg request n w :
  turns cfg request (S n) w = snd (handleRequest cfg request (turns cfg request n w)).
Proof.
  revert w. induction n as [|n IH]; intros w; [reflexivity|].
  change (turns cfg request (S (S n)) w)
    with (turns cfg request (S n) (snd (handleRequest cfg request w))).
  rewrite IH. reflexivity.
Qed.

Lemma filter_revalidations name new :
  Forall (fun j => exists request answer, j = RevalidateJob name request answer) new ->
  List.filter isCleanup new = [].
Proof.
  induction 1 as [|j new (request & answer & ->) _ IH]; [reflexivity | exact IH].
Qed.

(** A counted turn: the counter and the cleanups queued. *)
Lemma counted_turn cfg request w :
  counts cfg request = true ->
  let w' := snd (handleRequest cfg request w) in
  fetchCounter w'
  = (if Z.rem (fetchCounter w + 1) 100 =? 0 then 1 else fetchCounter w + 1)
  /\ cleanups w'
     = (cleanups w + if sweepsAt (fetchCounter w + 1) then 1 else 0)%nat.
Proof.
  intros Hc w'. subst w'.
  pose proof (Uncounted_turn cfg request w) as H. rewrite Hc in H.
  destruct H as [E (new & J & F)]. split.
  - now rewrite E, fetchCounter_counted.
  - unfold cleanups. rewrite J, jobs_counted, !List.filter_app.
    rewrite (filter_revalidations _ _ F), app_nil_r, length_app.
    now destruct (sweepsAt _).
Qed.

Lemma fetchCounter_turns cfg request n w :
  counts cfg request = true ->
  fetchCounter (turns cfg request n w) = fetchCounter (Nat.iter n (counted cfg) w).
Proof.
  intros Hc. induction n as [|n IH]; [reflexivity|].
  rewrite turns_S, Nat.iter_succ.
  rewrite (proj1 (counted_turn cfg request _ Hc)), fetchCounter_counted.
  now rewrite IH.
Qed.

(** X26. The period of the cleanup is 99: once the counter is at 1 (as
    it is after every cleanup but the first), of the following turns that
    handle a counted request (a same-origin GET without clear and
    invalidation headers) the first 98 queue no cleanup, the 99th queues
    one and leaves the counter at 1 again. *)
Theorem X26_cleanup_every_99_counted_requests cfg request w :
  counts cfg request = true ->
  fetchCounter w = 1 ->
  (forall n, (n < 98)%nat ->
     cleanups (turns cfg request (S n) w) = cleanups (turns cfg request n w))
  /\ cleanups (turns cfg request 99 w) = S (cleanups (turns cfg request 98 w))
  /\ fetchCounter (turns cfg request 99 w) = 1.
Proof.
  intros Hc H1.
  destruct (cleanup_period cfg w H1) as (Hquiet & Hsweep & Hback).
  split; [|split].
  - intros n Hn. rewrite turns_S.
    rewrite (proj2 (counted_turn cfg request _ Hc)).
    rewrite (fetchCounter_turns _ _ _ _ Hc), (Hquiet n Hn). lia.
  - rewrite turns_S.
    rewrite (proj2 (counted_turn cfg request _ Hc)).
    rewrite (fetchCounter_turns _ _ _ _ Hc), Hsweep. lia.
  - rewrite (fetchCounter_turns _ _ _ _ Hc). exact Hback.
Qed.

End Periodic99.

Section FirstSweep.

Context {platform : URLPlatform}.
Implicit Types (cfg : Config) (request : Request) (w : World).




(** X27. An entry that carries no readable timestamp counts as a miss:
    under each of the three strategies the read goes to the network, once,
    and its outcome is what the network answers or throws; the entry is
    never the answer, not even when the network fails. *)
Theorem X27_undated_entry_is_a_miss cfg request strategy ttl staleTTL w c :
  HandledRead cfg request strategy ttl staleTTL ->
  In strategy strategies ->
  entry (cacheName cfg) (url request) w = Some c ->
  getCacheTimestamp c = None ->
  fst (handleRequest cfg request w) = passedOn cfg request w
  /\ netCalls (snd (handleRequest cfg request w)) = S (netCalls w).
Proof.
  intros H Hin Hentry Hnone.
  assert (Hf : forall now t, isFresh now c t = false)
    by (intros; unfold isFresh; now rewrite Hnone).
  assert (Hst : forall now t s, isStale now c t s = false)
    by (intros now t [s|]; unfold isStale; now rewrite ?Hnone).
  assert (Ho : forall now m, isOlderThanMaxAge now c m = false)
    by (intros; unfold isOlderThanMaxAge; now rewrite Hnone).
  rewrite (handleRequest_read _ _ _ _ _ _ H). unfold passedOn.
  destruct Hin as [<- | [<- | [<- | []]]]; cbn [engine String.eqb Ascii.eqb Bool.eqb].
  - rewrite cacheFirst_run. cbv zeta. rewrite entry_counted, Hentry, Hf, Ho.
    rewrite cacheFirstNetwork_run. cbv zeta. autorewrite with world.
    destruct (reply (nextReply cfg request w)); cbn [fst snd];
      rewrite ?Hst, ?netCalls_stored; now autorewrite with world.
  - destruct (reply (nextReply cfg request w)) as [r|e] eqn:Hr.
    + rewrite (networkFirst_answer _ _ _ _ _ r) by (now rewrite nextReply_counted).
      cbv zeta. destruct (ok r); cbn [fst snd]; now autorewrite with world.
    + rewrite (networkFirst_failure _ _ _ _ _ e) by (now rewrite nextReply_counted).
      cbv zeta. rewrite entry_counted, Hentry, Ho, Hf, Hst. cbn [orb fst snd].
      now autorewrite with world.
  - rewrite staleWhileRevalidate_run. cbv zeta.
    rewrite entry_counted, Hentry, Ho, Hf, Hst. cbn [orb].
    rewrite revalidateNow_run. cbv zeta. autorewrite with world.
    destruct (reply (nextReply cfg request w)); cbn [fst snd];
      rewrite ?netCalls_stored; now autorewrite with world.
Qed.

End FirstSweep.

(** A counter at 1 and the read of /api/users. *)
Lemma X26_cleanup_every_99_counted_requests_witness :
  let cfg := Example.config "cache-first" (Example.online "data") in
  let request := Example.get Example.users in
  let w := mkWorld ∅ 0 1 0 [] [] in
  fetchCounter (turns (platform := SimpleURL.platform) cfg request 99 w) = 1.
Proof.
  intros cfg request w.
  exact (proj2 (proj2 (X26_cleanup_every_99_counted_requests
                         (platform := SimpleURL.platform) cfg request w
                         eq_refl eq_refl))).
Defined.


(** An entry without timestamp, and the network down. *)
Lemma X27_undated_entry_is_a_miss_witness :
  let cfg := Example.config "cache-first" Example.offline in
  let request := Example.get Example.users in
  let w := Example.world 0 [(Example.users, Example.response "raw" 200)] in
  fst (handleRequest (platform := SimpleURL.platform) cfg request w)
  = Throw Example.failure.
Proof.
  intros cfg request w.
  assert (H : HandledRead (platform := SimpleURL.platform)
                cfg request "cache-first" 300 (Some 3600)) by handled.
  exact (proj1 (X27_undated_entry_is_a_miss (platform := SimpleURL.platform)
                  cfg request "cache-first" 300 (Some 3600) w
                  (Example.response "raw" 200) H (or_introl eq_refl)
                  eq_refl eq_refl)).
Defined.
